(** * Baseline: cross-source signal aggregation and divisiveness ranking

    A shallow embedding of the topic selector ([mergeSignals],
    [normalizeTitle], [findBestMatch], [selectTopic]), of the scrapers that
    feed it ([scoreDivisiveness] and [clusterPosts] of the Reddit scraper,
    the record mapper of [fetchTrendingVideos], the Google Trends scraper)
    and of [slugify], with the properties the specification states about
    them and further ones read off the code.

    Conventions of the embedding.
    - JavaScript numbers are IEEE doubles.  Where the order of computed
      numbers is at stake, in the ranking of [mergeSignals], the selector
      is followed on [float], the binary64 numbers, in module [Binary64].
      Statements about ranges and about the structure of the merge, which
      rounding does not touch, read the numbers as exact: rationals [Q] in
      the selector, the video scorer and the trends scraper, reals [R] in
      the Reddit scraper, which needs [Math.log10].
    - Titles are strings of 8-bit characters in the pool, where
      [toLowerCase], [\s] and [trim] are the ASCII fragments of their
      JavaScript counterparts.  Module [Utf16] follows [normalizeTitle] on
      UTF-16 code units; the two agree on ASCII titles.
    - A JavaScript [Map] is an association list in insertion order; [set] on
      a key that is present replaces the value in place, as the language
      defines it.  The objects stored in the map are pairwise distinct, so a
      reference to one of them is its position in the list.
    - A field that may be absent from a raw record is an [option].
    - A call that may throw or reject has an [Outcome]. *)

From Stdlib Require Import List String Ascii Bool Arith ZArith QArith Qminmax.
From Stdlib Require Import Reals Lia Lra Lqa Permutation Sorted.
From Stdlib Require Import Floats.
Import ListNotations.

(** A decimal literal of type [float] denotes the nearest double. *)
Set Warnings "-inexact-float".

(* ------------------------------------------------------------------ *)
(** * Strings *)

Module Js.

Local Open Scope nat_scope.

(** ASCII part of the regular-expression class [\s], which is also what
    [String.prototype.trim] removes. *)
Definition isSpace (c : ascii) : bool :=
  let n := nat_of_ascii c in
  ((9 <=? n) && (n <=? 13)) || (n =? 32).

Definition isLowerAlnum (c : ascii) : bool :=
  let n := nat_of_ascii c in
  ((97 <=? n) && (n <=? 122)) || ((48 <=? n) && (n <=? 57)).

Definition lowerChar (c : ascii) : ascii :=
  let n := nat_of_ascii c in
  if (65 <=? n) && (n <=? 90) then ascii_of_nat (n + 32) else c.

Fixpoint toLowerCase (s : string) : string :=
  match s with
  | EmptyString => EmptyString
  | String c s' => String (lowerChar c) (toLowerCase s')
  end.

(** [s.replace(/[^a-z0-9\s]/g, '')] *)
Fixpoint stripOthers (s : string) : string :=
  match s with
  | EmptyString => EmptyString
  | String c s' =>
      if isLowerAlnum c || isSpace c then String c (stripOthers s')
      else stripOthers s'
  end.

Fixpoint trimStart (s : string) : string :=
  match s with
  | EmptyString => EmptyString
  | String c s' => if isSpace c then trimStart s' else s
  end.

Fixpoint trimEnd (s : string) : string :=
  match s with
  | EmptyString => EmptyString
  | String c s' =>
      match trimEnd s' with
      | EmptyString => if isSpace c then EmptyString else String c EmptyString
      | t => String c t
      end
  end.

Definition trim (s : string) : string := trimEnd (trimStart s).

(** [s.split(' ')]: the pieces between single space characters; the
    empty string splits into one empty piece. *)
Fixpoint split (s : string) : list string :=
  match s with
  | EmptyString => [EmptyString]
  | String c s' =>
      if Ascii.eqb c " "%char then EmptyString :: split s'
      else match split s' with
           | w :: ws => String c w :: ws
           | [] => [String c EmptyString]
           end
  end.

(** [new Set(words)]: the distinct words, first occurrence first. *)
Definition has (s : list string) (w : string) : bool :=
  existsb (String.eqb w) s.

Definition add (s : list string) (w : string) : list string :=
  if has s w then s else s ++ [w].

Definition newSet (ws : list string) : list string := fold_left add ws [].

End Js.

(* ------------------------------------------------------------------ *)
(** * Numbers *)

Local Open Scope Q_scope.

Definition ofNat (n : nat) : Q := inject_Z (Z.of_nat n).

(** [a > b] on numbers. *)
Definition gt (a b : Q) : bool := negb (Qle_bool a b).

(* ------------------------------------------------------------------ *)
(** * The merged candidate and the pool *)

Inductive Source : Type := reddit | google_trends | youtube.

Definition Source_eqb (a b : Source) : bool :=
  match a, b with
  | reddit, reddit | google_trends, google_trends | youtube, youtube => true
  | _, _ => false
  end.

Definition Source_eq_dec (a b : Source) : {a = b} + {a <> b}.
Proof. decide equality. Defined.

Record MergedCandidate : Type := mkMerged {
  title : string;
  reddit_divisiveness : Q;
  reddit_comments : Q;
  reddit_subreddits : list string;
  google_score : Q;
  youtube_divisiveness : Q;
  sources : list Source
}.

(** The [candidates] map of [mergeSignals]. *)
Definition Pool : Type := list (string * MergedCandidate).

(** [candidates.set(key, val)] *)
Fixpoint Map_set (key : string) (val : MergedCandidate) (m : Pool) : Pool :=
  match m with
  | [] => [(key, val)]
  | (k, v) :: m' =>
      if String.eqb k key then (k, val) :: m'
      else (k, v) :: Map_set key val m'
  end.

(** In-place update of the object held at position [i]. *)
Fixpoint Map_mutate (i : nat) (f : MergedCandidate -> MergedCandidate)
  (m : Pool) : Pool :=
  match m, i with
  | [], _ => []
  | (k, v) :: m', O => (k, f v) :: m'
  | e :: m', S j => e :: Map_mutate j f m'
  end.

(** [Array.from(candidates.values())] *)
Definition Map_values (m : Pool) : list MergedCandidate := map snd m.

(* ------------------------------------------------------------------ *)
(** * Candidate normalizer and fuzzy matcher (topic selector) *)

Definition normalizeTitle (title : string) : string :=
  Js.trim (Js.stripOthers (Js.toLowerCase title)).

(** [new Set(key.split(' ').filter(w => w.length > 3))] *)
Definition longWords (key : string) : list string :=
  Js.newSet (filter (fun w => (3 <? String.length w)%nat) (Js.split key)).

(** The counter [shared] after [keyWords.forEach(...)]. *)
Definition sharedCount (keyWords existingWords : list string) : nat :=
  fold_left (fun shared w => if Js.has existingWords w then S shared else shared)
            keyWords 0%nat.

Definition overlapOf (keyWords existingWords : list string) : Q :=
  ofNat (sharedCount keyWords existingWords)
  / ofNat (Nat.max (Nat.max (List.length keyWords) (List.length existingWords)) 1).

(** Overlap of a new key with an existing pool key. *)
Definition overlap (key existingKey : string) : Q :=
  overlapOf (longWords key) (longWords existingKey).

(** The loop of [findBestMatch]; [i] is the position of the next entry and
    [bestMatch] carries the position of the object it refers to. *)
Fixpoint findBestMatch_loop (keyWords : list string) (entries : Pool) (i : nat)
  (bestMatch : option (nat * MergedCandidate)) (bestOverlap : Q)
  : option (nat * MergedCandidate) :=
  match entries with
  | [] => bestMatch
  | (existingKey, val) :: rest =>
      let overlap := overlapOf keyWords (longWords existingKey) in
      if gt overlap 0.4 && gt overlap bestOverlap
      then findBestMatch_loop keyWords rest (S i) (Some (i, val)) overlap
      else findBestMatch_loop keyWords rest (S i) bestMatch bestOverlap
  end.

Definition findBestMatchAt (key : string) (map : Pool)
  : option (nat * MergedCandidate) :=
  findBestMatch_loop (longWords key) map 0%nat None 0.

Definition findBestMatch (key : string) (map : Pool) : option MergedCandidate :=
  option_map snd (findBestMatchAt key map).

(* ------------------------------------------------------------------ *)
(** * Scored inputs of the selector *)

Module Reddit.
Record t : Type := mk {
  title : string;
  divisiveness_score : Q;
  total_comments : Q;
  subreddits : list string
}.
End Reddit.

Module Trend.
Record t : Type := mk { title : string; score : Q }.
End Trend.

Module Youtube.
Record t : Type := mk { title : string; divisiveness_score : Q }.
End Youtube.

(* ------------------------------------------------------------------ *)
(** * Signal merger: the three loops of [mergeSignals] *)

Definition addReddit (candidates : Pool) (r : Reddit.t) : Pool :=
  let key := normalizeTitle (Reddit.title r) in
  Map_set key
    {| title := Reddit.title r;
       reddit_divisiveness := Reddit.divisiveness_score r;
       reddit_comments := Reddit.total_comments r;
       reddit_subreddits := Reddit.subreddits r;
       google_score := 0;
       youtube_divisiveness := 0;
       sources := [reddit] |}
    candidates.

Definition setGoogle (g : Trend.t) (c : MergedCandidate) : MergedCandidate :=
  {| title := title c;
     reddit_divisiveness := reddit_divisiveness c;
     reddit_comments := reddit_comments c;
     reddit_subreddits := reddit_subreddits c;
     google_score := Trend.score g / 100;
     youtube_divisiveness := youtube_divisiveness c;
     sources := sources c ++ [google_trends] |}.

Definition mergeGoogle (candidates : Pool) (g : Trend.t) : Pool :=
  let key := normalizeTitle (Trend.title g) in
  match findBestMatchAt key candidates with
  | Some (i, _) => Map_mutate i (setGoogle g) candidates
  | None =>
      Map_set key
        {| title := Trend.title g;
           reddit_divisiveness := 0;
           reddit_comments := 0;
           reddit_subreddits := [];
           google_score := Trend.score g / 100;
           youtube_divisiveness := 0;
           sources := [google_trends] |}
        candidates
  end.

Definition setYoutube (y : Youtube.t) (c : MergedCandidate) : MergedCandidate :=
  {| title := title c;
     reddit_divisiveness := reddit_divisiveness c;
     reddit_comments := reddit_comments c;
     reddit_subreddits := reddit_subreddits c;
     google_score := google_score c;
     youtube_divisiveness := Youtube.divisiveness_score y;
     sources := sources c ++ [youtube] |}.

Definition mergeYoutube (candidates : Pool) (y : Youtube.t) : Pool :=
  let key := normalizeTitle (Youtube.title y) in
  match findBestMatchAt key candidates with
  | Some (i, _) => Map_mutate i (setYoutube y) candidates
  | None =>
      Map_set key
        {| title := Youtube.title y;
           reddit_divisiveness := 0;
           reddit_comments := 0;
           reddit_subreddits := [];
           google_score := 0;
           youtube_divisiveness := Youtube.divisiveness_score y;
           sources := [youtube] |}
        candidates
  end.

(** The pool after the three loops. *)
Definition mergePool (redditCandidates : list Reddit.t)
  (googleTrends : list Trend.t) (youtubeCandidates : list Youtube.t) : Pool :=
  fold_left mergeYoutube youtubeCandidates
    (fold_left mergeGoogle googleTrends
       (fold_left addReddit redditCandidates [])).

(* ------------------------------------------------------------------ *)
(** * Composite ranker: scoring, [sort] and [slice] *)

(** [{ ...c, composite_score }] *)
Record Scored : Type := mkScored {
  cand : MergedCandidate;
  composite_score : Q
}.

(** The comparator [(a, b) => b.composite_score - a.composite_score]. *)
Definition compareFn (a b : Scored) : Q := composite_score b - composite_score a.

(** [Array.prototype.sort] is stable.  It is run here as an insertion
    sort: an element goes in front of the first one that the comparator
    does not order before it. *)
Fixpoint sort_insert (x : Scored) (l : list Scored) : list Scored :=
  match l with
  | [] => [x]
  | y :: l' => if gt (compareFn x y) 0 then y :: sort_insert x l' else x :: y :: l'
  end.

Definition sort (l : list Scored) : list Scored := fold_right sort_insert [] l.

(** [slice(0, n)] *)
Definition slice0 {A : Type} (n : nat) (l : list A) : list A := firstn n l.

Definition multiPlatform (c : MergedCandidate) : Q :=
  Qmin (ofNat (List.length (sources c)) / 3) 1.

(** The ranking part of [mergeSignals], for a scoring function. *)
Definition rankWith (composite : MergedCandidate -> Q) (candidates : Pool)
  : list Scored :=
  let scored := map (fun c => mkScored c (composite c)) (Map_values candidates) in
  slice0 20 (sort scored).

(** Result of a call that may throw, or of a promise that may reject,
    with an error of type [E]. *)
Inductive Outcome (E A : Type) : Type :=
| Returned (a : A)
| Thrown (e : E).
Arguments Returned {E A} a.
Arguments Thrown {E A} e.

(** What [selectTopic] fails with: the error it throws itself, or the one
    that something it calls failed with. *)
Inductive SelectorError : Type :=
| NoCandidates
| Propagated (reason : string).

(** [err.message] *)
Definition message (e : SelectorError) : string :=
  match e with
  | NoCandidates => "No topic candidates found from any source"
  | Propagated reason => reason
  end.

(** The selector whose composite is "Reddit divisiveness + YouTube
    engagement + Google Trends". *)
Module Divisive.

Definition composite (c : MergedCandidate) : Q :=
  reddit_divisiveness c * 0.45 +
  youtube_divisiveness c * 0.25 +
  google_score c * 0.15 +
  multiPlatform c * 0.15.

Definition mergeSignals (redditCandidates : list Reddit.t)
  (googleTrends : list Trend.t) (youtubeCandidates : list Youtube.t)
  : list Scored :=
  rankWith composite (mergePool redditCandidates googleTrends youtubeCandidates).

End Divisive.

(** The selector whose composite is "engagement volume + Google Trends +
    cross-platform presence + some divisiveness". *)
Module Mainstream.

Definition engagementScore (c : MergedCandidate) : Q :=
  Qmin (reddit_comments c / 5000) 1.

Definition composite (c : MergedCandidate) : Q :=
  engagementScore c * 0.35 +
  google_score c * 0.25 +
  multiPlatform c * 0.20 +
  reddit_divisiveness c * 0.20.

Definition mergeSignals (redditCandidates : list Reddit.t)
  (googleTrends : list Trend.t) (youtubeCandidates : list Youtube.t)
  : list Scored :=
  rankWith composite (mergePool redditCandidates googleTrends youtubeCandidates).

End Mainstream.

(* ------------------------------------------------------------------ *)
(** * YouTube scraper: the record mapper of [fetchTrendingVideos] *)

Module YoutubeScraper.

(** [video.statistics].  The API delivers each count as a decimal
    numeral; a field that is present is represented by the integer it
    denotes, an absent field by [None]. *)
Record Statistics : Type := mkStats {
  viewCount : option Z;
  commentCount : option Z;
  likeCount : option Z
}.

(** [parseInt(field || '0', 10)] *)
Definition parseIntOr0 (field : option Z) : Z :=
  match field with
  | Some n => n
  | None => 0%Z
  end.

Record Video : Type := mkVideo {
  title : string;
  v_viewCount : Z;
  v_commentCount : Z;
  v_likeCount : Z;
  divisiveness_score : Q
}.

Definition commentDensity (viewCount commentCount : Z) : Q :=
  if (0 <? viewCount)%Z then inject_Z commentCount / inject_Z viewCount else 0.

Definition divisiveness (viewCount commentCount : Z) : Q :=
  Qmin (commentDensity viewCount commentCount * 1000) 1.

(** The arrow function mapped over [resp.data.items]. *)
Definition scoreVideo (snippetTitle : string) (stats : Statistics) : Video :=
  let viewCount := parseIntOr0 (viewCount stats) in
  let commentCount := parseIntOr0 (commentCount stats) in
  let likeCount := parseIntOr0 (likeCount stats) in
  {| title := snippetTitle;
     v_viewCount := viewCount;
     v_commentCount := commentCount;
     v_likeCount := likeCount;
     divisiveness_score := divisiveness viewCount commentCount |}.

End YoutubeScraper.

(* ------------------------------------------------------------------ *)
(** * Reddit scraper: [scoreDivisiveness] *)

Module RedditScraper.

Local Open Scope R_scope.

(** The fields of a post that the scorer reads; [None] is an absent
    ([undefined]) field. *)
Record Post : Type := mkPost {
  upvote_ratio : option R;
  num_comments : option R;
  score : option R
}.

(** Destructuring with a default: [{ field = d } = post]. *)
Definition orDefault (field : option R) (d : R) : R :=
  match field with
  | Some x => x
  | None => d
  end.

(** [Math.log10] *)
Definition log10 (x : R) : R := ln x / ln 10.

Definition ratioDivisiveness (upvote_ratio : R) : R :=
  1 - Rabs (upvote_ratio - 0.5) * 2.

Definition engagementWeight (num_comments : R) : R :=
  Rmin (log10 (num_comments + 1) / 4) 1.

Definition scoreWeight (score : R) : R :=
  if Rlt_dec 100 score then 1 else score / 100.

Definition scoreDivisiveness (post : Post) : R :=
  let upvote_ratio := orDefault (upvote_ratio post) 0.5 in
  let num_comments := orDefault (num_comments post) 0 in
  let score := orDefault (score post) 0 in
  ratioDivisiveness upvote_ratio * 0.6
  + engagementWeight num_comments * 0.3
  + scoreWeight score * 0.1.

End RedditScraper.

(* ------------------------------------------------------------------ *)
(** * The specification's side *)

(** [contributing_sources] as the specification has it: a set. *)
Definition spec_contributing_sources (c : MergedCandidate) : list Source :=
  nodup Source_eq_dec (sources c).

Definition spec_cross_platform_presence (c : MergedCandidate) : Q :=
  Qmin (ofNat (List.length (spec_contributing_sources c)) / 3) 1.

(** The list handed to [sort]. *)
Definition scoredWith (composite : MergedCandidate -> Q) (candidates : Pool)
  : list Scored :=
  map (fun c => mkScored c (composite c)) (Map_values candidates).

(** [a] may stand in front of [b]: the comparator does not order [b]
    before [a]. *)
Definition precedes (a b : Scored) : Prop := compareFn a b <= 0.

(** A Reddit candidate and a trend on one topic. *)
Definition gunControlPost : Reddit.t :=
  Reddit.mk "Senate debates gun control bill" 0.8 1200 ["politics"%string].

Definition gunControlTrend : Trend.t := Trend.mk "gun control bill senate" 70.

(** A Reddit candidate with full comment volume and no divisiveness. *)
Definition busyTopic : Reddit.t :=
  Reddit.mk "Gun control debate" 0 5000 ["politics"%string].

(** The three per-source signals and the engagement term lie in [0,1]. *)
Definition signalsInUnit (c : MergedCandidate) : Prop :=
  (0 <= reddit_divisiveness c <= 1)
  /\ (0 <= youtube_divisiveness c <= 1)
  /\ (0 <= google_score c <= 1)
  /\ (0 <= Mainstream.engagementScore c <= 1).

Definition someCluster : MergedCandidate :=
  mkMerged "Senate votes" 0.7 300 ["politics"%string] 0 0 [reddit].

(** The discussion-source formula in the words of the specification. *)
Definition spec_discussion_divisiveness (approval_ratio comment_count raw_score : R)
  : R :=
  (0.6 * (1 - Rabs (approval_ratio - 0.5) * 2)
   + 0.3 * Rmin (RedditScraper.log10 (comment_count + 1) / 4) 1
   + 0.1 * (if Rgt_dec raw_score 100 then 1 else raw_score / 100))%R.

(** The video-source formula in the words of the specification. *)
Definition spec_comment_density (view_count comment_count : Z) : Q :=
  if (view_count =? 0)%Z then 0 else inject_Z comment_count / inject_Z view_count.

Definition spec_video_divisiveness (view_count comment_count : Z) : Q :=
  Qmin (spec_comment_density view_count comment_count * 1000) 1.

(** A post whose absent fields are all read as zero. *)
Definition zeroFilled (post : RedditScraper.Post) : RedditScraper.Post :=
  RedditScraper.mkPost
    (Some (RedditScraper.orDefault (RedditScraper.upvote_ratio post) 0%R))
    (Some (RedditScraper.orDefault (RedditScraper.num_comments post) 0%R))
    (Some (RedditScraper.orDefault (RedditScraper.score post) 0%R)).

(** A post of the API listing that lacks [upvote_ratio]. *)
Definition postWithoutRatio : RedditScraper.Post :=
  RedditScraper.mkPost None (Some 99%R) (Some 50%R).

(** A trend that is handed to the merger twice. *)
Definition reformTrend : Trend.t := Trend.mk "immigration reform" 90.

(** A Reddit candidate and a trend whose titles normalize to the same key,
    a key without a word longer than three characters. *)
Definition gunBanPost : Reddit.t :=
  Reddit.mk "Gun Ban" 0.8 640 ["politics"%string].

Definition gunBanTrend : Trend.t := Trend.mk "gun ban" 90.

(** Number of candidates that the clusters of a pool account for. *)
Definition contributions (candidates : Pool) : nat :=
  list_sum (map (fun c => List.length (sources c)) (Map_values candidates)).

(* ------------------------------------------------------------------ *)
(** * Further string operations *)

Module JsText.

(** Every character of [s] satisfies [p]. *)
Fixpoint allChars (p : ascii -> bool) (s : string) : bool :=
  match s with
  | EmptyString => true
  | String c s' => p c && allChars p s'
  end.

Definition firstChar (s : string) : option ascii :=
  match s with
  | EmptyString => None
  | String c _ => Some c
  end.

(** [Some c] with [c] a whitespace character. *)
Definition isSomeSpace (c : option ascii) : bool :=
  match c with
  | Some c => Js.isSpace c
  | None => false
  end.

(** The characters that [[^a-z0-9\s]] does not match. *)
Definition keptChar (c : ascii) : bool := Js.isLowerAlnum c || Js.isSpace c.

End JsText.

(** A cluster whose slots agree with its [sources]: some source made it,
    Reddit is listed at most once, and the slot of a source that is not
    listed holds the value the cluster was created with. *)
Definition slotsConsistent (c : MergedCandidate) : Prop :=
  sources c <> []
  /\ (count_occ Source_eq_dec (sources c) reddit <= 1)%nat
  /\ (~ In reddit (sources c) ->
      reddit_divisiveness c = 0 /\ reddit_comments c = 0 /\ reddit_subreddits c = [])
  /\ (~ In google_trends (sources c) -> google_score c = 0)
  /\ (~ In youtube (sources c) -> youtube_divisiveness c = 0).

(** The fields of a cluster that a trend or a video folded into it must
    leave alone, apart from its own slot. *)
Definition sameRedditSide (c c' : MergedCandidate) : Prop :=
  title c' = title c
  /\ reddit_divisiveness c' = reddit_divisiveness c
  /\ reddit_comments c' = reddit_comments c
  /\ reddit_subreddits c' = reddit_subreddits c.

(** The measures of a pool that the loops keep in step with the number [n]
    of candidates folded so far: distinct keys, and no more clusters and
    no more listed sources than [n]. *)
Definition poolWithin (n : nat) (pool : Pool) : Prop :=
  NoDup (map fst pool)
  /\ (List.length pool <= n)%nat
  /\ (contributions pool <= n)%nat.

(* ------------------------------------------------------------------ *)
(** * The daily runner and the topic builder, around the selector *)

Module Runner.

(** [status === 'fulfilled' ? value : []] on a result of
    [Promise.allSettled]; [None] is a rejected scraper. *)
Definition fulfilledOrEmpty {A : Type} (result : option (list A)) : list A :=
  match result with
  | Some value => value
  | None => []
  end.

(** [(selectedTopic.candidates || [])[0]] *)
Definition topCandidate (candidates : list Scored) : option Scored :=
  match candidates with
  | [] => None
  | x :: _ => Some x
  end.

(** [signalData.topCandidate?.composite_score ?? 0.5], the
    [divisiveness_score] that [buildTopic] stores with the topic. *)
Definition storedDivisiveness (topCandidate : option Scored) : Q :=
  match topCandidate with
  | Some x => composite_score x
  | None => 0.5
  end.

End Runner.

(* ------------------------------------------------------------------ *)
(** * Google Trends scraper: scores and filter *)

Module JsArray.

(** [l.map((item, i) => f(item, i))], counting positions from [i]. *)
Fixpoint mapIndexedFrom {A B : Type} (f : A -> nat -> B) (i : nat) (l : list A)
  : list B :=
  match l with
  | [] => []
  | item :: l' => f item i :: mapIndexedFrom f (S i) l'
  end.

Definition mapIndexed {A B : Type} (f : A -> nat -> B) (l : list A) : list B :=
  mapIndexedFrom f 0 l.

(** [hay.startsWith(needle)] *)
Fixpoint startsWith (needle hay : string) : bool :=
  match needle, hay with
  | EmptyString, _ => true
  | String _ _, EmptyString => false
  | String a needle', String b hay' => Ascii.eqb a b && startsWith needle' hay'
  end.

(** [hay.includes(needle)] *)
Fixpoint includes (needle hay : string) : bool :=
  startsWith needle hay
  || match hay with
     | EmptyString => false
     | String _ hay' => includes needle hay'
     end.

(** [/w1|w2|.../i.test(text)] for lower-case words [w1], [w2], ... *)
Definition testAnyWord (words : list string) (text : string) : bool :=
  existsb (fun w => includes w (Js.toLowerCase text)) words.

(** [a || b] on strings that may be absent: the empty string is falsy. *)
Definition orString (a : option string) (b : string) : string :=
  match a with
  | Some (String c s) => String c s
  | _ => b
  end.

End JsArray.

Module GoogleTrendsScraper.

(** The mapper of [fetchViaSerpApi]; an item is represented by the title
    the mapper reads from it. *)
Definition fetchViaSerpApi (trending_searches : list string) : list Trend.t :=
  JsArray.mapIndexed
    (fun item i => Trend.mk item (100 - ofNat i * 3))
    (slice0 20 trending_searches).

(** The fields of a feed item that [fetchViaRss] reads. *)
Record RssItem : Type := mkRssItem {
  title : string;
  ht_approx_traffic : option string;
  approx_traffic : option string
}.

Definition isDigit (c : ascii) : bool :=
  let n := nat_of_ascii c in (48 <=? n)%nat && (n <=? 57)%nat.

(** [s.replace(/[^0-9]/g, '')] *)
Fixpoint digitsOnly (s : string) : string :=
  match s with
  | EmptyString => EmptyString
  | String c s' => if isDigit c then String c (digitsOnly s') else digitsOnly s'
  end.

(** The value of a string of decimal digits read from the left, starting
    from [acc]. *)
Fixpoint decimalFrom (acc : N) (digits : string) : N :=
  match digits with
  | EmptyString => acc
  | String c digits' =>
      decimalFrom (acc * 10 + (N_of_ascii c - 48))%N digits'
  end.

(** [parseInt(digits, 10) || 0] on a string of digits: the number, and 0
    for the empty string. *)
Definition parseIntOr0 (digits : string) : N := decimalFrom 0 digits.

Definition volumeOf (item : RssItem) : N :=
  let traffic :=
    JsArray.orString (ht_approx_traffic item)
      (JsArray.orString (approx_traffic item) "0") in
  parseIntOr0 (digitsOnly traffic).

(** The mapper of [fetchViaRss]. *)
Definition fetchViaRss (items : list RssItem) : list Trend.t :=
  map (fun item =>
         Trend.mk (title item) (Qmin (inject_Z (Z.of_N (volumeOf item)) / 1000) 100))
      (slice0 20 items).

Definition NOISE : list string :=
  ["weather"; "sports"; "nfl"; "nba"; "recipe"; "movie"; "actor"; "singer";
   "celebrity"; "game"; "score"; "match"; "fashion"]%string.

Definition SIGNAL : list string :=
  ["law"; "bill"; "policy"; "rights"; "immigration"; "healthcare"; "climate";
   "gun"; "abortion"; "tax"; "election"; "vote"; "economy"; "inflation"; "war";
   "crisis"; "court"; "congress"; "senate"; "president"; "ban"; "regulation";
   "reform"]%string.

Definition filterTopics (trends : list Trend.t) : list Trend.t :=
  filter
    (fun t =>
       let noNoise := negb (JsArray.testAnyWord NOISE (Trend.title t)) in
       let hasSignal := JsArray.testAnyWord SIGNAL (Trend.title t) in
       noNoise && (hasSignal || gt (Trend.score t) 60))
    trends.

(** [scrapeGoogleTrends] after the two fetches: [serpApi] is what
    [fetchViaSerpApi] resolved to ([None] for null), [rss] what
    [fetchViaRss] would resolve to. *)
Definition scrapeGoogleTrends (serpApi : option (list Trend.t)) (rss : list Trend.t)
  : list Trend.t :=
  let trends :=
    match serpApi with
    | Some (t :: ts) => t :: ts
    | _ => rss
    end in
  filterTopics trends.

End GoogleTrendsScraper.

(** Ranges of the scored inputs of the selector. *)
Definition redditInRange (r : Reddit.t) : Prop :=
  0 <= Reddit.divisiveness_score r <= 1 /\ 0 <= Reddit.total_comments r.

Definition trendInRange (g : Trend.t) : Prop := 0 <= Trend.score g <= 100.

Definition videoInRange (y : Youtube.t) : Prop :=
  0 <= Youtube.divisiveness_score y <= 1.

(* ------------------------------------------------------------------ *)
(** * Slugs *)

Module JsRegex.

(** [s.replace(/p+/g, r)] for a class [p] of characters: every maximal run
    of characters of the class becomes one [r].  [inRun] tells that the
    character before [s] was of the class. *)
Fixpoint replaceRuns (p : ascii -> bool) (r : ascii) (inRun : bool) (s : string)
  : string :=
  match s with
  | EmptyString => EmptyString
  | String c s' =>
      if p c
      then if inRun then replaceRuns p r true s'
           else String r (replaceRuns p r true s')
      else String c (replaceRuns p r false s')
  end.

Definition isHyphen (c : ascii) : bool := Ascii.eqb c "-"%char.

(** [s.slice(0, n)] *)
Fixpoint slice0 (n : nat) (s : string) : string :=
  match n, s with
  | O, _ => EmptyString
  | _, EmptyString => EmptyString
  | S n', String c s' => String c (slice0 n' s')
  end.

(** Two hyphens in a row somewhere in [s]. *)
Fixpoint hasDoubleHyphen (s : string) : bool :=
  match s with
  | EmptyString => false
  | String a s' =>
      match s' with
      | EmptyString => false
      | String b _ => (isHyphen a && isHyphen b) || hasDoubleHyphen s'
      end
  end.

End JsRegex.

Module Slugify.

(** The characters that [[^a-z0-9\s-]] does not match. *)
Definition keptChar (c : ascii) : bool :=
  Js.isLowerAlnum c || Js.isSpace c || JsRegex.isHyphen c.

(** [s.replace(/[^a-z0-9\s-]/g, '')] *)
Fixpoint stripOthers (s : string) : string :=
  match s with
  | EmptyString => EmptyString
  | String c s' => if keptChar c then String c (stripOthers s') else stripOthers s'
  end.

(** The constant [base] of [slugify]. *)
Definition base (title : string) : string :=
  JsRegex.slice0 60
    (JsRegex.replaceRuns JsRegex.isHyphen "-" false
       (JsRegex.replaceRuns Js.isSpace "-" false
          (Js.trim (stripOthers (Js.toLowerCase title))))).

(** [slugify(title, date)]; an absent or empty [date] is falsy. *)
Definition slugify (title : string) (date : option string) : string :=
  match date with
  | Some (String c d) => (base title ++ "-" ++ String c d)%string
  | _ => base title
  end.

(** The characters of a slug base. *)
Definition slugChar (c : ascii) : bool := Js.isLowerAlnum c || JsRegex.isHyphen c.

End Slugify.

(* ------------------------------------------------------------------ *)
(** * Reddit scraper: clustering of posts *)

Module RedditClusters.

(** [s.replace(/[^a-z0-9\s]/g, ' ')] *)
Fixpoint blankOthers (s : string) : string :=
  match s with
  | EmptyString => EmptyString
  | String c s' =>
      String (if Js.isLowerAlnum c || Js.isSpace c then c else " "%char)
             (blankOthers s')
  end.

(** [normalizeTitle] of the Reddit scraper. *)
Definition normalizeTitle (title : string) : string :=
  Js.trim
    (JsRegex.replaceRuns Js.isSpace " " false
       (blankOthers (Js.toLowerCase title))).

Definition titleOverlap (a b : string) : Q :=
  let aWords := longWords (normalizeTitle a) in
  let bWords := longWords (normalizeTitle b) in
  overlapOf aWords bWords.

(** A fetched post.  [score] is what the sort of a cluster compares; the
    posts of both fetches carry it. *)
Record RawPost : Type := mkRawPost {
  title : string;
  subreddit : string;
  upvote_ratio : option R;
  num_comments : option R;
  score : R
}.

(** The fields of a post that [scoreDivisiveness] reads. *)
Definition scored (p : RawPost) : RedditScraper.Post :=
  RedditScraper.mkPost (upvote_ratio p) (num_comments p) (Some (score p)).

(** [used.has(i)] *)
Definition has (used : list nat) (i : nat) : bool := existsb (Nat.eqb i) used.

(** The inner loop of [clusterPosts] over the posts after the seed, each
    with its position. *)
Fixpoint innerLoop (seed : RawPost) (later : list (nat * RawPost))
  (used : list nat) (cluster : list (nat * RawPost))
  : list (nat * RawPost) * list nat :=
  match later with
  | [] => (cluster, used)
  | (j, q) :: later' =>
      if has used j then innerLoop seed later' used cluster
      else if gt (titleOverlap (title seed) (title q)) 0.35
           then innerLoop seed later' (used ++ [j]) (cluster ++ [(j, q)])
           else innerLoop seed later' used cluster
  end.

(** The outer loop of [clusterPosts]. *)
Fixpoint outerLoop (indexed : list (nat * RawPost)) (used : list nat)
  (clusters : list (list (nat * RawPost))) : list (list (nat * RawPost)) :=
  match indexed with
  | [] => clusters
  | (i, p) :: later =>
      if has used i then outerLoop later used clusters
      else
        let (cluster, used') := innerLoop p later (used ++ [i]) [(i, p)] in
        outerLoop later used' (clusters ++ [cluster])
  end.

(** The posts with their positions. *)
Definition indexed (posts : list RawPost) : list (nat * RawPost) :=
  combine (seq 0 (List.length posts)) posts.

(** The array [clusters] after the loops; a member is kept with its
    position in [posts]. *)
Definition clustersOf (posts : list RawPost) : list (list (nat * RawPost)) :=
  outerLoop (indexed posts) [] [].

(** [cluster.sort((a, b) => b.score - a.score)], run as an insertion
    sort. *)
Fixpoint sortInsert (x : RawPost) (l : list RawPost) : list RawPost :=
  match l with
  | [] => [x]
  | y :: l' =>
      if Rlt_dec 0 (score y - score x) then y :: sortInsert x l' else x :: y :: l'
  end.

Definition sortByScore (l : list RawPost) : list RawPost :=
  fold_right sortInsert [] l.

(** An entry of the array that [clusterPosts] returns. *)
Record Topic : Type := mkTopic {
  t_title : option string;
  subreddits : list string;
  divisiveness_score : R;
  total_comments : R;
  post_count : nat;
  t_upvote_ratio : option R
}.

(** The mapper of [clusters.map(...)].  [sort] reorders the cluster in
    place, so the fields read after it see the sorted cluster. *)
Definition summarize (cluster : list RawPost) : Topic :=
  let avgDivisiveness :=
    (fold_left (fun s p => s + RedditScraper.scoreDivisiveness (scored p)) cluster 0
     / INR (List.length cluster))%R in
  let totalComments :=
    fold_left (fun s p => s + RedditScraper.orDefault (num_comments p) 0)%R cluster 0%R in
  let sorted := sortByScore cluster in
  let representative := hd_error sorted in
  {| t_title := option_map title representative;
     subreddits := Js.newSet (map subreddit sorted);
     divisiveness_score := avgDivisiveness;
     total_comments := totalComments;
     post_count := List.length sorted;
     t_upvote_ratio :=
       match representative with
       | Some p => upvote_ratio p
       | None => None
       end |}.

Definition clusterPosts (posts : list RawPost) : list Topic :=
  map (fun cluster => summarize (map snd cluster)) (clustersOf posts).

(** The posts that [fetchSubredditRss] makes of the titles of a feed. *)
Definition fetchSubredditRss (subreddit : string) (itemTitles : list string)
  : list RawPost :=
  map (fun t => mkRawPost t subreddit (Some 0.5%R) (Some 0%R) 0%R) itemTitles.

(** A post whose fields are where [scoreDivisiveness] expects them. *)
Definition inDomain (p : RawPost) : Prop :=
  (match upvote_ratio p with Some a => 0 <= a <= 1 | None => True end)%R
  /\ (match num_comments p with Some n => 0 <= n | None => True end)%R
  /\ (0 <= score p)%R.

End RedditClusters.

(* ------------------------------------------------------------------ *)
(** * IEEE doubles *)

(** Notions for reasoning about [float] through its specification
    [spec_float]: a sign, a mantissa and an exponent, or a zero, an
    infinity or NaN. *)
Module Ieee754.

Local Open Scope Z_scope.

(** A key that orders the numbers as [<] does: the class by sign, then
    exponent and mantissa.  The two zeros share a key. *)
Definition key (f : spec_float) : Z * Z * Z :=
  match f with
  | S754_zero _ => (0, 0, 0)
  | S754_infinity false => (2, 0, 0)
  | S754_infinity true => (-2, 0, 0)
  | S754_nan => (0, 0, 0)
  | S754_finite false m e => (1, e, Zpos m)
  | S754_finite true m e => (-1, - e, - Zpos m)
  end.

(** The lexicographic order of keys. *)
Definition klt (a b : Z * Z * Z) : Prop :=
  let '(a1, a2, a3) := a in
  let '(b1, b2, b3) := b in
  a1 < b1 \/ (a1 = b1 /\ (a2 < b2 \/ (a2 = b2 /\ a3 < b3))).

(** Not NaN. *)
Definition isNum (f : spec_float) : bool :=
  match f with S754_nan => false | _ => true end.

(** A number of sign [s]. *)
Definition signed (s : bool) (f : spec_float) : Prop :=
  match f with
  | S754_nan => False
  | S754_zero s' | S754_infinity s' | S754_finite s' _ _ => s' = s
  end.

(** Neither zero nor NaN. *)
Definition nonzero (f : spec_float) : Prop :=
  match f with
  | S754_zero _ | S754_nan => False
  | _ => True
  end.

(** A number that is not negative. *)
Definition nonneg (f : spec_float) : Prop :=
  match f with
  | S754_nan => False
  | S754_zero _ => True
  | S754_infinity s | S754_finite s _ _ => s = false
  end.

(** A positive finite number. *)
Definition posFinite (f : spec_float) : Prop :=
  match f with
  | S754_finite false _ _ => True
  | _ => False
  end.

(** The key of a primitive float. *)
Definition fkey (x : float) : Z * Z * Z := key (Prim2SF x).

(** A positive finite constant. *)
Definition isPosFinite (c : float) : bool :=
  match Prim2SF c with
  | S754_finite false _ _ => true
  | _ => false
  end.

End Ieee754.

(* ------------------------------------------------------------------ *)
(** * The selector on doubles *)

(** Where the order of the ranking is at stake the numbers must round as
    the program's do: two composites that are equal as exact numbers may
    differ in the last digit once computed, and [sort] then tells them
    apart.  This module follows [mergeSignals] operation by operation on
    [float], the binary64 numbers of IEEE 754 with rounding to nearest
    even, which is what a JavaScript number is.  A decimal literal denotes
    the nearest double, as in the source. *)
Module Binary64.

Local Open Scope float_scope.

(** [a > b]; false when either is NaN. *)
Definition gt (a b : float) : bool := b <? a.

(** The number that a length or a size is; it is below 2^32, where the
    conversion is exact. *)
Definition ofNat (n : nat) : float := of_uint63 (Uint63.of_Z (Z.of_nat n)).

(** [Math.min(a, b)]: NaN when either argument is, and [-0] below [+0]. *)
Definition Math_min (a b : float) : float :=
  if is_nan a || is_nan b then nan
  else if a <? b then a
  else if b <? a then b
  else if is_zero a && get_sign a then a
  else b.

Record MergedCandidate : Type := mkMerged {
  title : string;
  reddit_divisiveness : float;
  reddit_comments : float;
  reddit_subreddits : list string;
  google_score : float;
  youtube_divisiveness : float;
  sources : list Source
}.

(** The [candidates] map of [mergeSignals]. *)
Definition Pool : Type := list (string * MergedCandidate).

(** [candidates.set(key, val)] *)
Fixpoint Map_set (key : string) (val : MergedCandidate) (m : Pool) : Pool :=
  match m with
  | [] => [(key, val)]
  | (k, v) :: m' =>
      if String.eqb k key then (k, val) :: m'
      else (k, v) :: Map_set key val m'
  end.

(** In-place update of the object held at position [i]. *)
Fixpoint Map_mutate (i : nat) (f : MergedCandidate -> MergedCandidate)
  (m : Pool) : Pool :=
  match m, i with
  | [], _ => []
  | (k, v) :: m', O => (k, f v) :: m'
  | e :: m', S j => e :: Map_mutate j f m'
  end.

(** [Array.from(candidates.values())] *)
Definition Map_values (m : Pool) : list MergedCandidate := map snd m.

(** [shared / Math.max(keyWords.size, existingWords.size, 1)] *)
Definition overlapOf (keyWords existingWords : list string) : float :=
  ofNat (sharedCount keyWords existingWords)
  / ofNat (Nat.max (Nat.max (List.length keyWords) (List.length existingWords)) 1).

(** The loop of [findBestMatch]. *)
Fixpoint findBestMatch_loop (keyWords : list string) (entries : Pool) (i : nat)
  (bestMatch : option (nat * MergedCandidate)) (bestOverlap : float)
  : option (nat * MergedCandidate) :=
  match entries with
  | [] => bestMatch
  | (existingKey, val) :: rest =>
      let overlap := overlapOf keyWords (longWords existingKey) in
      if gt overlap 0.4 && gt overlap bestOverlap
      then findBestMatch_loop keyWords rest (S i) (Some (i, val)) overlap
      else findBestMatch_loop keyWords rest (S i) bestMatch bestOverlap
  end.

Definition findBestMatchAt (key : string) (map : Pool)
  : option (nat * MergedCandidate) :=
  findBestMatch_loop (longWords key) map 0%nat None 0.

(** The scored inputs of the selector. *)
Module Reddit.
Record t : Type := mk {
  title : string;
  divisiveness_score : float;
  total_comments : float;
  subreddits : list string
}.
End Reddit.

Module Trend.
Record t : Type := mk { title : string; score : float }.
End Trend.

Module Youtube.
Record t : Type := mk { title : string; divisiveness_score : float }.
End Youtube.

(** The three loops of [mergeSignals]. *)
Definition addReddit (candidates : Pool) (r : Reddit.t) : Pool :=
  let key := normalizeTitle (Reddit.title r) in
  Map_set key
    {| title := Reddit.title r;
       reddit_divisiveness := Reddit.divisiveness_score r;
       reddit_comments := Reddit.total_comments r;
       reddit_subreddits := Reddit.subreddits r;
       google_score := 0;
       youtube_divisiveness := 0;
       sources := [reddit] |}
    candidates.

Definition setGoogle (g : Trend.t) (c : MergedCandidate) : MergedCandidate :=
  {| title := title c;
     reddit_divisiveness := reddit_divisiveness c;
     reddit_comments := reddit_comments c;
     reddit_subreddits := reddit_subreddits c;
     google_score := Trend.score g / 100;
     youtube_divisiveness := youtube_divisiveness c;
     sources := sources c ++ [google_trends] |}.

Definition mergeGoogle (candidates : Pool) (g : Trend.t) : Pool :=
  let key := normalizeTitle (Trend.title g) in
  match findBestMatchAt key candidates with
  | Some (i, _) => Map_mutate i (setGoogle g) candidates
  | None =>
      Map_set key
        {| title := Trend.title g;
           reddit_divisiveness := 0;
           reddit_comments := 0;
           reddit_subreddits := [];
           google_score := Trend.score g / 100;
           youtube_divisiveness := 0;
           sources := [google_trends] |}
        candidates
  end.

Definition setYoutube (y : Youtube.t) (c : MergedCandidate) : MergedCandidate :=
  {| title := title c;
     reddit_divisiveness := reddit_divisiveness c;
     reddit_comments := reddit_comments c;
     reddit_subreddits := reddit_subreddits c;
     google_score := google_score c;
     youtube_divisiveness := Youtube.divisiveness_score y;
     sources := sources c ++ [youtube] |}.

Definition mergeYoutube (candidates : Pool) (y : Youtube.t) : Pool :=
  let key := normalizeTitle (Youtube.title y) in
  match findBestMatchAt key candidates with
  | Some (i, _) => Map_mutate i (setYoutube y) candidates
  | None =>
      Map_set key
        {| title := Youtube.title y;
           reddit_divisiveness := 0;
           reddit_comments := 0;
           reddit_subreddits := [];
           google_score := 0;
           youtube_divisiveness := Youtube.divisiveness_score y;
           sources := [youtube] |}
        candidates
  end.

(** The pool after the three loops. *)
Definition mergePool (redditCandidates : list Reddit.t)
  (googleTrends : list Trend.t) (youtubeCandidates : list Youtube.t) : Pool :=
  fold_left mergeYoutube youtubeCandidates
    (fold_left mergeGoogle googleTrends
       (fold_left addReddit redditCandidates [])).

(** [{ ...c, composite_score }] *)
Record Scored : Type := mkScored {
  cand : MergedCandidate;
  composite_score : float
}.

(** The comparator [(a, b) => b.composite_score - a.composite_score]. *)
Definition compareFn (a b : Scored) : float := composite_score b - composite_score a.

(** [Array.prototype.sort], which is stable, run as an insertion sort: an
    element goes in front of the first one that the comparator does not
    order before it.  A comparator result that is NaN counts as zero.
    Where no composite is NaN the comparator is consistent and the result
    is the one of every stable sort; where one is NaN the language leaves
    the order to the engine, and no statement below covers that case. *)
Fixpoint sort_insert (x : Scored) (l : list Scored) : list Scored :=
  match l with
  | [] => [x]
  | y :: l' => if gt (compareFn x y) 0 then y :: sort_insert x l' else x :: y :: l'
  end.

Definition sort (l : list Scored) : list Scored := fold_right sort_insert [] l.

(** [Math.min(c.sources.length / 3, 1)] *)
Definition multiPlatform (c : MergedCandidate) : float :=
  Math_min (ofNat (List.length (sources c)) / 3) 1.

(** The list handed to [sort]. *)
Definition scoredWith (composite : MergedCandidate -> float) (candidates : Pool)
  : list Scored :=
  map (fun c => mkScored c (composite c)) (Map_values candidates).

(** The ranking part of [mergeSignals], for a scoring function. *)
Definition rankWith (composite : MergedCandidate -> float) (candidates : Pool)
  : list Scored :=
  slice0 20 (sort (scoredWith composite candidates)).

Module Divisive.

Definition composite (c : MergedCandidate) : float :=
  reddit_divisiveness c * 0.45 +
  youtube_divisiveness c * 0.25 +
  google_score c * 0.15 +
  multiPlatform c * 0.15.

Definition mergeSignals (redditCandidates : list Reddit.t)
  (googleTrends : list Trend.t) (youtubeCandidates : list Youtube.t)
  : list Scored :=
  rankWith composite (mergePool redditCandidates googleTrends youtubeCandidates).

(** [selectTopic].  What it calls outside the engine is taken as a
    parameter, with the failure it may end in: the database lookup
    [topicExistsForDate(date)], and the awaited call of the language
    model on the ranking, which also reads the database and formats the
    scores. *)
Definition selectTopic {Sel : Type} (topicExistsForDate : Outcome string bool)
  (selectTopicWithAI : list Scored -> Outcome string Sel)
  (redditCandidates : list Reddit.t) (googleTrends : list Trend.t)
  (youtubeCandidates : list Youtube.t)
  : Outcome SelectorError (option (Sel * list Scored)) :=
  match topicExistsForDate with
  | Thrown reason => Thrown (Propagated reason)
  | Returned true => Returned None
  | Returned false =>
      let candidates := mergeSignals redditCandidates googleTrends youtubeCandidates in
      if (List.length candidates =? 0)%nat then Thrown NoCandidates
      else
        match selectTopicWithAI candidates with
        | Thrown reason => Thrown (Propagated reason)
        | Returned selected => Returned (Some (selected, candidates))
        end
  end.

End Divisive.

Module Mainstream.

Definition engagementScore (c : MergedCandidate) : float :=
  Math_min (reddit_comments c / 5000) 1.

Definition composite (c : MergedCandidate) : float :=
  engagementScore c * 0.35 +
  google_score c * 0.25 +
  multiPlatform c * 0.20 +
  reddit_divisiveness c * 0.20.

Definition mergeSignals (redditCandidates : list Reddit.t)
  (googleTrends : list Trend.t) (youtubeCandidates : list Youtube.t)
  : list Scored :=
  rankWith composite (mergePool redditCandidates googleTrends youtubeCandidates).

Definition selectTopic {Sel : Type} (topicExistsForDate : Outcome string bool)
  (selectTopicWithAI : list Scored -> Outcome string Sel)
  (redditCandidates : list Reddit.t) (googleTrends : list Trend.t)
  (youtubeCandidates : list Youtube.t)
  : Outcome SelectorError (option (Sel * list Scored)) :=
  match topicExistsForDate with
  | Thrown reason => Thrown (Propagated reason)
  | Returned true => Returned None
  | Returned false =>
      let candidates := mergeSignals redditCandidates googleTrends youtubeCandidates in
      if (List.length candidates =? 0)%nat then Thrown NoCandidates
      else
        match selectTopicWithAI candidates with
        | Thrown reason => Thrown (Propagated reason)
        | Returned selected => Returned (Some (selected, candidates))
        end
  end.

End Mainstream.

(** Phase 2 of [runDailyPipeline].  The outcome of the fallback
    [selectTopicForDate], which asks the language model only, is a
    parameter. *)
Definition selectPhase {Sel : Type}
  (selectTopicForDate : Outcome string (option (Sel * list Scored)))
  (topicExistsForDate : Outcome string bool)
  (selectTopicWithAI : list Scored -> Outcome string Sel)
  (reddit : list Reddit.t) (google : list Trend.t) (youtube : list Youtube.t)
  : Outcome SelectorError (option (Sel * list Scored)) :=
  if (List.length reddit =? 0)%nat && (List.length google =? 0)%nat
     && (List.length youtube =? 0)%nat
  then
    match selectTopicForDate with
    | Thrown reason => Thrown (Propagated reason)
    | Returned selectedTopic => Returned selectedTopic
    end
  else Mainstream.selectTopic topicExistsForDate selectTopicWithAI
         reddit google youtube.

(** ** The specification's side, evaluated on doubles *)

(** The four weights of the composite formula of the specification. *)
Record Weights : Type := mkWeights { w1 : float; w2 : float; w3 : float; w4 : float }.

(** [min(|contributing_sources| / 3, 1)], the sources taken as a set. *)
Definition spec_cross_platform_presence (c : MergedCandidate) : float :=
  Math_min (ofNat (List.length (nodup Source_eq_dec (sources c))) / 3) 1.

(** [w1 * discussion_divisiveness + w2 * video_divisiveness
     + w3 * trends_score + w4 * cross_platform_presence], the operations
    rounded one by one from left to right. *)
Definition spec_composite (w : Weights) (c : MergedCandidate) : float :=
  w1 w * reddit_divisiveness c
  + w2 w * youtube_divisiveness c
  + w3 w * google_score c
  + w4 w * spec_cross_platform_presence c.

(** The composite of a ranked candidate is the specification's formula
    for the weights [w]. *)
Definition followsFormula (w : Weights) (x : Scored) : Prop :=
  composite_score x = spec_composite w (cand x).

(** The weights of the first selector. *)
Definition divisiveWeights : Weights := mkWeights 0.45 0.25 0.15 0.15.

Definition sameScore (v : float) (x : Scored) : bool := composite_score x =? v.

(** [a] may stand in front of [b]: the comparator does not order [b]
    before [a]. *)
Definition precedes (a b : Scored) : Prop := gt (compareFn a b) 0 = false.

(** What the language guarantees of [l.sort(compareFn)] whatever algorithm
    the engine runs: the result holds the elements of [l], no element
    comes before one that the comparator orders in front of it, and
    elements that compare equal keep the order they had in [l]. *)
Record SortContract (l s : list Scored) : Prop := mkSortContract {
  sorted_perm : Permutation l s;
  sorted_ordered : StronglySorted precedes s;
  sorted_stable : forall v, filter (sameScore v) s = filter (sameScore v) l
}.

(** [out] ranks the pool: the scored candidates in an order that meets the
    contract of [sort], cut to the first twenty. *)
Definition RanksTop20 (composite : MergedCandidate -> float) (candidates : Pool)
  (out : list Scored) : Prop :=
  exists sorted,
    SortContract (scoredWith composite candidates) sorted
    /\ out = slice0 20 sorted.

(** [out] is a result that a run of [mergeSignals] may return on the given
    inputs, for an engine whose [sort] meets the contract. *)
Definition RunOf (composite : MergedCandidate -> float)
  (redditCandidates : list Reddit.t) (googleTrends : list Trend.t)
  (youtubeCandidates : list Youtube.t) (out : list Scored) : Prop :=
  RanksTop20 composite
    (mergePool redditCandidates googleTrends youtubeCandidates) out.

(** The composite of a scored candidate is a number, not NaN. *)
Definition scoreIsNumber (x : Scored) : Prop := is_nan (composite_score x) = false.

(** A number that is not negative; NaN is not one. *)
Definition isNonneg (x : float) : bool := 0 <=? x.

(** The signals of a cluster are numbers, none negative. *)
Definition numericSignals (c : MergedCandidate) : Prop :=
  isNonneg (reddit_divisiveness c) = true
  /\ isNonneg (reddit_comments c) = true
  /\ isNonneg (google_score c) = true
  /\ isNonneg (youtube_divisiveness c) = true.

Definition redditNumeric (r : Reddit.t) : Prop :=
  isNonneg (Reddit.divisiveness_score r) = true
  /\ isNonneg (Reddit.total_comments r) = true.

Definition trendNumeric (g : Trend.t) : Prop := isNonneg (Trend.score g) = true.

Definition videoNumeric (y : Youtube.t) : Prop :=
  isNonneg (Youtube.divisiveness_score y) = true.

(** Two candidates whose composites are both 13/80 as exact numbers: a
    trend of score 75 and a video of divisiveness 0.45. *)
Definition alphaTrend : Trend.t := Trend.mk "alpha tariff ruling" 75.
Definition bravoVideo : Youtube.t := Youtube.mk "bravo pipeline protest" 0.45.

(** Two candidates whose composites in the second selector are both
    61/600 as exact numbers: a Reddit topic of divisiveness 0.175 without
    comments, and a trend of score 14. *)
Definition charlieTopic : Reddit.t :=
  Reddit.mk "charlie zoning appeal" 0.175 0 ["politics"%string].
Definition deltaTrend : Trend.t := Trend.mk "delta harbor strike" 14.

(** The two clusters they make. *)
Definition charlieCluster : MergedCandidate :=
  mkMerged "charlie zoning appeal" 0.175 0 ["politics"%string] 0 0 [reddit].
Definition deltaCluster : MergedCandidate :=
  mkMerged "delta harbor strike" 0 0 [] (14 / 100) 0 [google_trends].

(** Two Reddit candidates that differ in comment volume only. *)
Definition quietTopic : Reddit.t :=
  Reddit.mk "Gun control debate" 0 0 ["politics"%string].

Definition busyTopic : Reddit.t :=
  Reddit.mk "Gun control debate" 0 5000 ["politics"%string].

End Binary64.

(* ------------------------------------------------------------------ *)
(** * The fuzzy matcher in the words of the specification *)

(** The words of a key: the pieces between its spaces, gathered
    character by character; [word] is the piece read so far. *)
Fixpoint spec_wordsFrom (word : string) (key : string) : list string :=
  match key with
  | EmptyString => [word]
  | String c key' =>
      if Ascii.eqb c " "%char then word :: spec_wordsFrom EmptyString key'
      else spec_wordsFrom (word ++ String c EmptyString) key'
  end.

Definition spec_words (key : string) : list string := spec_wordsFrom EmptyString key.

(** [tokens]: the words longer than 3 characters, as a set. *)
Definition spec_tokens (key : string) : list string :=
  nodup string_dec (filter (fun w => (4 <=? String.length w)%nat) (spec_words key)).

(** [|shared tokens|] *)
Definition spec_shared (tokens_new tokens_existing : list string) : nat :=
  List.length
    (filter (fun w => if in_dec string_dec w tokens_existing then true else false)
            tokens_new).

(** [|shared tokens| / max(|tokens_new|, |tokens_existing|, 1)] *)
Definition spec_overlap (key existingKey : string) : Q :=
  let tokens_new := spec_tokens key in
  let tokens_existing := spec_tokens existingKey in
  inject_Z (Z.of_nat (spec_shared tokens_new tokens_existing))
  / inject_Z (Z.of_nat (Nat.max (Nat.max (List.length tokens_new)
                                         (List.length tokens_existing)) 1)).

(** Keys for the boundary of the fuzzy threshold.  The new key has five
    tokens and two short words; the first pool key has two tokens, both
    shared, the second has four, three of them shared. *)
Definition borderKey : string := "the senate votes on border security funding".
Definition twoShared : string := "senate votes".
Definition threeShared : string := "senate votes on a border bill".

(* ------------------------------------------------------------------ *)
(** * Titles as sequences of UTF-16 code units *)

(** A JavaScript string is a sequence of 16-bit code units.  This module
    follows [normalizeTitle] on them, with the white space of the
    language and with the lower-case forms that matter for the key. *)
Module Utf16.

Local Open Scope N_scope.

(** The class [\s], which is also what [trim] removes: the white space
    and the line terminators of the language. *)
Definition isSpace (c : N) : bool :=
  ((9 <=? c) && (c <=? 13)) || (c =? 32) || (c =? 160) || (c =? 5760)
  || ((8192 <=? c) && (c <=? 8202)) || (c =? 8232) || (c =? 8233)
  || (c =? 8239) || (c =? 8287) || (c =? 12288) || (c =? 65279).

Definition isLowerAlnum (c : N) : bool :=
  ((97 <=? c) && (c <=? 122)) || ((48 <=? c) && (c <=? 57)).

(** The code units that [[^a-z0-9\s]] does not match. *)
Definition keptUnit (c : N) : bool := isLowerAlnum c || isSpace c.

(** What [toLowerCase] followed by [replace(/[^a-z0-9\s]/g, '')] leaves
    of one code unit.  A letter A-Z is lower-cased and kept.  U+0130
    lower-cases to i with the combining dot U+0307, of which the replace
    keeps the i, and U+212A, the Kelvin sign, lower-cases to k.  No other
    character has a lower-case form with a character that the replace
    keeps, and a character that it keeps is its own lower-case form. *)
Definition lowerKept (c : N) : list N :=
  if (65 <=? c) && (c <=? 90) then [c + 32]
  else if c =? 304 then [105]
  else if c =? 8490 then [107]
  else if keptUnit c then [c]
  else [].

(** [title.toLowerCase().replace(/[^a-z0-9\s]/g, '')] *)
Definition lowerStrip (title : list N) : list N := flat_map lowerKept title.

Fixpoint trimStart (s : list N) : list N :=
  match s with
  | [] => []
  | c :: s' => if isSpace c then trimStart s' else s
  end.

Fixpoint trimEnd (s : list N) : list N :=
  match s with
  | [] => []
  | c :: s' =>
      match trimEnd s' with
      | [] => if isSpace c then [] else [c]
      | t => c :: t
      end
  end.

Definition trim (s : list N) : list N := trimEnd (trimStart s).

Definition normalizeTitle (title : list N) : list N := trim (lowerStrip title).

(** [Some c] with [c] a whitespace code unit. *)
Definition isSomeSpace (c : option N) : bool :=
  match c with
  | Some c => isSpace c
  | None => false
  end.

Fixpoint lastUnit (s : list N) : option N :=
  match s with
  | [] => None
  | [c] => Some c
  | _ :: s' => lastUnit s'
  end.

(** A letter A-Z in lower case, any other code unit as it is. *)
Definition lowerAscii (c : N) : N :=
  if (65 <=? c) && (c <=? 90) then c + 32 else c.

(** An ASCII letter or digit, of either case. *)
Definition isAlnum (c : N) : bool := isLowerAlnum (lowerAscii c).

(** The code units of a title of ASCII characters. *)
Fixpoint units (s : string) : list N :=
  match s with
  | EmptyString => []
  | String c s' => N_of_ascii c :: units s'
  end.

Definition isAscii (c : ascii) : bool := N_of_ascii c <? 128.

End Utf16.

(* ------------------------------------------------------------------ *)
(** * Comparisons *)

Lemma gt_iff a b : gt a b = true <-> b < a.
Proof.
  unfold gt. rewrite negb_true_iff. split.
  - intros H. apply Qnot_le_lt. intros Hle.
    apply Qle_bool_iff in Hle. congruence.
  - intros H. destruct (Qle_bool a b) eqn:E; [|reflexivity].
    apply Qle_bool_iff in E. exfalso. apply (Qlt_not_le _ _ H E).
Qed.

Lemma gt_false_iff a b : gt a b = false <-> a <= b.
Proof.
  unfold gt. rewrite negb_false_iff. apply Qle_bool_iff.
Qed.

Lemma ofNat_nonneg n : 0 <= ofNat n.
Proof.
  unfold ofNat, Qle. simpl. lia.
Qed.

Lemma multiPlatform_unit c : 0 <= multiPlatform c <= 1.
Proof.
  unfold multiPlatform. split.
  - apply Q.min_glb; [|lra].
    pose proof (ofNat_nonneg (List.length (sources c))) as H.
    apply Qle_shift_div_l; lra.
  - apply Q.le_min_r.
Qed.

(* ------------------------------------------------------------------ *)
(** * The sort *)

Lemma precedes_trans a b c : precedes a b -> precedes b c -> precedes a c.
Proof. unfold precedes, compareFn. lra. Qed.

Lemma sort_insert_perm x l : Permutation (x :: l) (sort_insert x l).
Proof.
  induction l as [|y l IH]; simpl.
  - apply Permutation_refl.
  - destruct (gt (compareFn x y) 0).
    + eapply perm_trans; [apply perm_swap|]. now apply perm_skip.
    + apply Permutation_refl.
Qed.

Lemma sort_perm l : Permutation l (sort l).
Proof.
  induction l as [|x l IH]; simpl.
  - apply perm_nil.
  - eapply perm_trans; [|apply sort_insert_perm]. now apply perm_skip.
Qed.

Lemma sort_insert_sorted x l :
  StronglySorted precedes l -> StronglySorted precedes (sort_insert x l).
Proof.
  induction 1 as [|y l Hl IH Hy]; simpl.
  - repeat constructor.
  - destruct (gt (compareFn x y) 0) eqn:E.
    + apply gt_iff in E. constructor; [exact IH|].
      apply (Permutation_Forall (sort_insert_perm x l)).
      constructor; [|exact Hy].
      unfold precedes, compareFn in *. lra.
    + apply gt_false_iff in E.
      constructor; [now constructor|].
      constructor; [exact E|].
      eapply Forall_impl; [|exact Hy].
      intros z Hz. now apply (precedes_trans x y z).
Qed.

Lemma sort_sorted l : StronglySorted precedes (sort l).
Proof.
  induction l as [|x l IH]; simpl.
  - constructor.
  - now apply sort_insert_sorted.
Qed.

Lemma head_score_max x s y :
  StronglySorted precedes (x :: s) -> In y (x :: s) ->
  composite_score y <= composite_score x.
Proof.
  intros Hs Hin. inversion Hs as [|? ? _ Hx]; subst.
  destruct Hin as [->|Hin]; [lra|].
  rewrite Forall_forall in Hx. specialize (Hx y Hin).
  unfold precedes, compareFn in Hx. lra.
Qed.

(* ------------------------------------------------------------------ *)
(** * Composite ranker *)

Lemma rankWith_In composite candidates x :
  In x (rankWith composite candidates) ->
  composite_score x = composite (cand x)
  /\ In (cand x) (Map_values candidates).
Proof.
  unfold rankWith, slice0. intros H.
  assert (H' : In x (sort (scoredWith composite candidates))).
  { rewrite <- (firstn_skipn 20). apply in_or_app. now left. }
  clear H. rename H' into H.
  apply (Permutation_in _ (Permutation_sym (sort_perm _))) in H.
  apply in_map_iff in H. destruct H as [c [<- Hc]]. now split.
Qed.

(* ------------------------------------------------------------------ *)
(** * IEEE doubles: order, signs and rounding *)

Module Ieee754Facts.

Import Ieee754.
Local Open Scope Z_scope.

Lemma compare_cont_Eq m1 m2 : Pos.compare_cont Eq m1 m2 = Pos.compare m1 m2.
Proof. reflexivity. Qed.

Lemma SFltb_klt f1 f2 :
  isNum f1 = true -> isNum f2 = true ->
  (SFltb f1 f2 = true <-> klt (key f1) (key f2)).
Proof.
  unfold SFltb, SFcompare, klt.
  destruct f1 as [s1|s1| |s1 m1 e1], f2 as [s2|s2| |s2 m2 e2]; cbn [isNum];
    try discriminate; intros _ _;
    try destruct s1; try destruct s2; cbn [key];
    try (split; [intros H; try discriminate H; lia | intros H; try reflexivity; lia]).
  - rewrite compare_cont_Eq.
    destruct (Z.compare_spec e1 e2), (Pos.compare_spec m1 m2); cbn [CompOpp];
      split; intros H'; try discriminate H'; try reflexivity; try lia.
  - rewrite compare_cont_Eq.
    destruct (Z.compare_spec e1 e2), (Pos.compare_spec m1 m2); cbn [CompOpp];
      split; intros H'; try discriminate H'; try reflexivity; try lia.
Qed.

Lemma SFeqb_key f1 f2 :
  isNum f1 = true -> isNum f2 = true ->
  (SFeqb f1 f2 = true <-> key f1 = key f2).
Proof.
  unfold SFeqb, SFcompare.
  destruct f1 as [s1|s1| |s1 m1 e1], f2 as [s2|s2| |s2 m2 e2]; cbn [isNum];
    try discriminate; intros _ _;
    try destruct s1; try destruct s2; cbn [key];
    try (split; [intros H; try discriminate H; try reflexivity; congruence
                | intros H; try reflexivity; try discriminate H; congruence]).
  - rewrite compare_cont_Eq.
    destruct (Z.compare_spec e1 e2), (Pos.compare_spec m1 m2); cbn [CompOpp];
      split; intros H'; try discriminate H'; try reflexivity;
      try (injection H'; lia); try (f_equal; [f_equal|]; lia).
  - rewrite compare_cont_Eq.
    destruct (Z.compare_spec e1 e2), (Pos.compare_spec m1 m2); cbn [CompOpp];
      split; intros H'; try discriminate H'; try reflexivity;
      try (injection H'; lia); try (f_equal; [f_equal|]; lia).
Qed.

Lemma digits2_pos_bounds (m : positive) :
  2 ^ (Zpos (digits2_pos m) - 1) <= Zpos m < 2 ^ Zpos (digits2_pos m).
Proof.
  induction m as [m IH|m IH|]; cbn [digits2_pos].
  - rewrite Pos2Z.inj_succ.
    replace (Z.succ (Zpos (digits2_pos m)) - 1) with (Z.succ (Zpos (digits2_pos m) - 1)) by lia.
    rewrite !Z.pow_succ_r by lia. lia.
  - rewrite Pos2Z.inj_succ.
    replace (Z.succ (Zpos (digits2_pos m)) - 1) with (Z.succ (Zpos (digits2_pos m) - 1)) by lia.
    rewrite !Z.pow_succ_r by lia. lia.
  - cbn. lia.
Qed.

Lemma shr_1_m (mrs : shr_record) :
  0 <= shr_m mrs -> shr_m (shr_1 mrs) = shr_m mrs / 2.
Proof.
  destruct mrs as [m r s]. cbn [shr_m]. intros H.
  destruct m as [|p|p]; [reflexivity| |lia].
  destruct p as [p|p|]; cbn [shr_1 shr_m].
  - rewrite Pos2Z.inj_xI. apply Z.div_unique with 1; lia.
  - rewrite Pos2Z.inj_xO. apply Z.div_unique with 0; lia.
  - reflexivity.
Qed.

Lemma iter_shr_1_m (p : positive) :
  forall mrs, 0 <= shr_m mrs ->
    shr_m (iter_pos shr_1 p mrs) = shr_m mrs / 2 ^ Zpos p.
Proof.
  induction p as [p IH|p IH|]; intros mrs H; cbn [iter_pos].
  - assert (H1 : 0 <= shr_m (shr_1 mrs)).
    { rewrite shr_1_m by exact H. apply Z.div_pos; lia. }
    assert (H2 : 0 <= shr_m (iter_pos shr_1 p (shr_1 mrs))).
    { rewrite IH by exact H1. apply Z.div_pos; [exact H1|]. apply Z.pow_pos_nonneg; lia. }
    assert (E : 2 ^ Zpos p~1 = 2 * 2 ^ Zpos p * 2 ^ Zpos p).
    { replace (Zpos p~1) with (1 + Zpos p + Zpos p) by lia.
      rewrite !Z.pow_add_r by lia. now rewrite Z.pow_1_r. }
    rewrite IH by exact H2. rewrite IH by exact H1. rewrite shr_1_m by exact H.
    rewrite !Z.div_div by (try apply Z.pow_pos_nonneg; lia).
    rewrite E. f_equal. ring.
  - assert (H2 : 0 <= shr_m (iter_pos shr_1 p mrs)).
    { rewrite IH by exact H. apply Z.div_pos; [exact H|]. apply Z.pow_pos_nonneg; lia. }
    assert (E : 2 ^ Zpos p~0 = 2 ^ Zpos p * 2 ^ Zpos p).
    { replace (Zpos p~0) with (Zpos p + Zpos p) by lia.
      now rewrite !Z.pow_add_r by lia. }
    rewrite IH by exact H2. rewrite IH by exact H.
    rewrite !Z.div_div by (try apply Z.pow_pos_nonneg; lia).
    now rewrite E.
  - rewrite shr_1_m by exact H. now rewrite Z.pow_1_r.
Qed.

Lemma shr_record_of_loc_m m l : shr_m (shr_record_of_loc m l) = m.
Proof. destruct l as [|[]]; reflexivity. Qed.

(** Right shift to the working precision keeps a non-negative mantissa
    non-negative. *)
Lemma shr_fexp_nonneg m e l :
  0 <= m -> 0 <= shr_m (fst (shr_fexp prec emax m e l)).
Proof.
  intros H. unfold shr_fexp, shr.
  destruct (fexp prec emax (Zdigits2 m + e) - e) as [|p|p]; cbn [fst];
    try (now rewrite shr_record_of_loc_m).
  rewrite iter_shr_1_m by now rewrite shr_record_of_loc_m.
  rewrite shr_record_of_loc_m. apply Z.div_pos; [exact H|].
  apply Z.pow_pos_nonneg; lia.
Qed.

(** It keeps a positive mantissa positive when the exponent is not below
    the smallest one. *)
Lemma shr_fexp_pos m e l :
  0 < m -> emin <= e ->
  0 < shr_m (fst (shr_fexp prec emax m e l))
  /\ emin <= snd (shr_fexp prec emax m e l).
Proof.
  intros Hm He. unfold shr_fexp, shr.
  destruct m as [|m|m]; try lia. cbn [Zdigits2].
  pose proof (digits2_pos_bounds m) as Hd.
  set (d := Zpos (digits2_pos m)) in *.
  unfold fexp, SpecFloat.emin, emax, prec in *.
  destruct (Z.max (d + e - 53) (3 - 1024 - 53) - e) as [|p|p] eqn:E; cbn [fst snd];
    try (rewrite shr_record_of_loc_m; lia).
  rewrite iter_shr_1_m by (rewrite shr_record_of_loc_m; lia).
  rewrite shr_record_of_loc_m.
  assert (Hp : Zpos p = d - 53) by lia.
  split; [|lia].
  apply Z.div_str_pos. split; [apply Z.pow_pos_nonneg; lia|].
  apply Z.le_trans with (2 ^ (d - 1)); [|lia].
  apply Z.pow_le_mono_r; lia.
Qed.

Lemma round_nearest_even_ge m l : m <= round_nearest_even m l.
Proof.
  unfold round_nearest_even. destruct l as [|[]]; try lia.
  destruct (Z.even m); lia.
Qed.

Lemma binary_round_aux_signed s m e l :
  0 <= m -> signed s (binary_round_aux prec emax s m e l).
Proof.
  intros H. unfold binary_round_aux.
  pose proof (shr_fexp_nonneg m e l H) as H1.
  destruct (shr_fexp prec emax m e l) as [mrs' e']. cbn [fst] in H1.
  pose proof (round_nearest_even_ge (shr_m mrs') (loc_of_shr_record mrs')) as H2.
  pose proof (shr_fexp_nonneg (round_nearest_even (shr_m mrs') (loc_of_shr_record mrs'))
                e' loc_Exact ltac:(lia)) as H3.
  destruct (shr_fexp prec emax _ e' loc_Exact) as [mrs'' e'']. cbn [fst] in H3.
  destruct (shr_m mrs'') as [|p|p]; [reflexivity| |lia].
  destruct (e'' <=? emax - prec); reflexivity.
Qed.

Lemma binary_round_aux_nonzero s m e l :
  0 < m -> emin <= e -> nonzero (binary_round_aux prec emax s m e l).
Proof.
  intros H He. unfold binary_round_aux.
  pose proof (shr_fexp_pos m e l H He) as [H1 He1].
  destruct (shr_fexp prec emax m e l) as [mrs' e']. cbn [fst snd] in H1, He1.
  pose proof (round_nearest_even_ge (shr_m mrs') (loc_of_shr_record mrs')) as H2.
  pose proof (shr_fexp_pos (round_nearest_even (shr_m mrs') (loc_of_shr_record mrs'))
                e' loc_Exact ltac:(lia) He1) as [H3 _].
  destruct (shr_fexp prec emax _ e' loc_Exact) as [mrs'' e'']. cbn [fst] in H3.
  destruct (shr_m mrs'') as [|p|p]; try lia.
  destruct (e'' <=? emax - prec); exact I.
Qed.

Lemma shl_align_snd m e e' :
  emin <= e -> emin <= e' -> emin <= snd (shl_align m e e').
Proof.
  intros H H'. unfold shl_align. destruct (e' - e); cbn [snd]; assumption.
Qed.

Lemma fexp_ge_emin z : emin <= fexp prec emax z.
Proof. unfold fexp. fold emin. lia. Qed.

Lemma binary_round_signed s m e : signed s (binary_round prec emax s m e).
Proof.
  unfold binary_round.
  destruct (shl_align m e _) as [mz ez].
  apply binary_round_aux_signed. lia.
Qed.

Lemma binary_round_nonzero s m e :
  emin <= e -> nonzero (binary_round prec emax s m e).
Proof.
  intros He. unfold binary_round.
  pose proof (shl_align_snd m e (fexp prec emax (Zpos (digits2_pos m) + e)) He
                (fexp_ge_emin _)) as H.
  destruct (shl_align m e _) as [mz ez]. cbn [snd] in H.
  apply binary_round_aux_nonzero; [lia|exact H].
Qed.

(** The class of [binary_normalize m e false] by the sign of [m]. *)
Lemma binary_normalize_sign m e :
  emin <= e ->
  match m with
  | Z0 => binary_normalize prec emax m e false = S754_zero false
  | Zpos _ => signed false (binary_normalize prec emax m e false)
              /\ nonzero (binary_normalize prec emax m e false)
  | Zneg _ => signed true (binary_normalize prec emax m e false)
              /\ nonzero (binary_normalize prec emax m e false)
  end.
Proof.
  intros He. destruct m as [|p|p]; cbn [binary_normalize].
  - reflexivity.
  - split; [apply binary_round_signed|now apply binary_round_nonzero].
  - split; [apply binary_round_signed|now apply binary_round_nonzero].
Qed.

Lemma key_sign_pos f :
  signed false f -> nonzero f -> klt (0, 0, 0) (key f).
Proof.
  destruct f as [s|s| |s m e]; cbn; try tauto; intros -> _; cbn; lia.
Qed.

Lemma key_sign_neg f :
  signed true f -> nonzero f -> klt (key f) (0, 0, 0).
Proof.
  destruct f as [s|s| |s m e]; cbn; try tauto; intros -> _; cbn; lia.
Qed.

Lemma bounded_facts m e :
  bounded prec emax m e = true ->
  emin <= e
  /\ Zpos (digits2_pos m) <= 53
  /\ (emin < e -> Zpos (digits2_pos m) = 53).
Proof.
  unfold bounded, canonical_mantissa, fexp, SpecFloat.emin, emax, prec.
  intros H. apply andb_true_iff in H. destruct H as [H _].
  apply Z.eqb_eq in H. lia.
Qed.

Lemma iter_xO_value (d : positive) (m : positive) :
  Zpos (Pos.iter xO m d) = Zpos m * 2 ^ Zpos d.
Proof.
  revert m. induction d as [d IH|d IH|]; intros m; cbn [Pos.iter].
  - rewrite Pos2Z.inj_xO, !IH.
    replace (Zpos d~1) with (1 + Zpos d + Zpos d) by lia.
    rewrite !Z.pow_add_r by lia. rewrite Z.pow_1_r. lia.
  - rewrite !IH.
    replace (Zpos d~0) with (Zpos d + Zpos d) by lia.
    rewrite !Z.pow_add_r by lia. lia.
  - rewrite Z.pow_1_r. lia.
Qed.

Lemma shl_align_fst m e e' :
  e' <= e -> Zpos (fst (shl_align m e e')) = Zpos m * 2 ^ (e - e').
Proof.
  intros H. unfold shl_align.
  destruct (e' - e) as [|p|p] eqn:E; cbn [fst].
  - replace (e - e') with 0 by lia. cbn. lia.
  - lia.
  - rewrite iter_xO_value. f_equal. f_equal. lia.
Qed.

Lemma mantissa_low m : Zpos (digits2_pos m) = 53 -> 2 ^ 52 <= Zpos m.
Proof.
  intros E. pose proof (digits2_pos_bounds m) as Bm. rewrite E in Bm.
  change (53 - 1) with 52 in Bm. tauto.
Qed.

Lemma mantissa_high m : Zpos (digits2_pos m) <= 53 -> Zpos m < 2 ^ 53.
Proof.
  intros E. pose proof (digits2_pos_bounds m) as Bm.
  apply Z.lt_le_trans with (2 ^ Zpos (digits2_pos m)); [tauto|].
  apply Z.pow_le_mono_r; [reflexivity|exact E].
Qed.

Lemma pow2_ge_2 k : 0 < k -> 2 <= 2 ^ k.
Proof.
  intros Hk. change 2 with (2 ^ 1) at 1.
  apply Z.pow_le_mono_r; lia.
Qed.

Lemma shifted_above (m m' k : Z) (P : Z) :
  P <= m -> m' < 2 * P -> 0 < P -> 2 <= k -> m' < m * k.
Proof. intros. nia. Qed.

Lemma aligned_compare mx ex my ey :
  bounded prec emax mx ex = true -> bounded prec emax my ey = true ->
  let ez := Z.min ex ey in
  let A := Zpos mx * 2 ^ (ex - ez) in
  let B := Zpos my * 2 ^ (ey - ez) in
  0 < A /\ 0 < B
  /\ (A < B <-> ex < ey \/ (ex = ey /\ Zpos mx < Zpos my))
  /\ (A = B <-> ex = ey /\ Zpos mx = Zpos my).
Proof.
  intros Hx Hy ez A B.
  destruct (bounded_facts _ _ Hx) as (Hex & Hdx & Hdx').
  destruct (bounded_facts _ _ Hy) as (Hey & Hdy & Hdy').
  assert (E53 : 2 ^ 53 = 2 * 2 ^ 52) by reflexivity.
  assert (P52 : 0 < 2 ^ 52) by reflexivity.
  pose proof (mantissa_high mx Hdx) as Hhx.
  pose proof (mantissa_high my Hdy) as Hhy.
  rewrite E53 in Hhx, Hhy.
  unfold A, B, ez.
  destruct (Z.lt_trichotomy ex ey) as [Hlt|[Heq|Hgt]].
  - rewrite Z.min_l by lia.
    replace (ex - ex) with 0 by lia. rewrite Z.pow_0_r, Z.mul_1_r.
    pose proof (pow2_ge_2 (ey - ex) ltac:(lia)) as Hp.
    pose proof (mantissa_low my (Hdy' ltac:(lia))) as Hm.
    pose proof (shifted_above _ _ _ _ Hm Hhx P52 Hp) as Hprod.
    generalize dependent (2 ^ (ey - ex)). generalize dependent (2 ^ 52).
    intros; repeat split; try lia.
  - subst ey. rewrite Z.min_l by lia.
    replace (ex - ex) with 0 by lia. rewrite Z.pow_0_r, !Z.mul_1_r.
    repeat split; try lia.
  - rewrite Z.min_r by lia.
    replace (ey - ey) with 0 by lia. rewrite Z.pow_0_r, Z.mul_1_r.
    pose proof (pow2_ge_2 (ex - ey) ltac:(lia)) as Hp.
    pose proof (mantissa_low mx (Hdx' ltac:(lia))) as Hm.
    pose proof (shifted_above _ _ _ _ Hm Hhy P52 Hp) as Hprod.
    generalize dependent (2 ^ (ex - ey)). generalize dependent (2 ^ 52).
    intros; repeat split; try lia.
Qed.

Lemma klt_zero_key f :
  SFltb (S754_zero false) f = true <-> klt (0, 0, 0) (key f).
Proof.
  destruct f as [s|s| |s m e]; try destruct s; cbn; split; intros H;
    try discriminate H; try reflexivity; lia.
Qed.

(** The sign of a difference tells the order of its operands. *)
Lemma SFsub_sign x y :
  valid_binary x = true -> valid_binary y = true ->
  isNum x = true -> isNum y = true ->
  (klt (0, 0, 0) (key (SF64sub x y)) <-> klt (key y) (key x)).
Proof.
  intros Vx Vy Nx Ny.
  destruct x as [sx|sx| |sx mx ex], y as [sy|sy| |sy my ey];
    try discriminate Nx; try discriminate Ny;
    try (lazymatch goal with
         | |- context [SF64sub (S754_finite _ _ _) (S754_finite _ _ _)] => fail
         | _ => idtac
         end;
         try destruct sx; try destruct sy; cbn; split; intros H; lia).
  cbn [valid_binary] in Vx, Vy.
  unfold SF64sub, SFsub.
  destruct (aligned_compare mx ex my ey Vx Vy) as (HA & HB & Hlt & Heq).
  destruct (bounded_facts _ _ Vx) as (Hex & _).
  destruct (bounded_facts _ _ Vy) as (Hey & _).
  rewrite !shl_align_fst by lia.
  set (A := Zpos mx * 2 ^ (ex - Z.min ex ey)) in *.
  set (B := Zpos my * 2 ^ (ey - Z.min ex ey)) in *.
  assert (Hez : emin <= Z.min ex ey) by lia.
  pose proof (binary_normalize_sign (cond_Zopp sx A - cond_Zopp sy B) _ Hez) as Hn.
  destruct sx, sy; cbn [cond_Zopp key klt] in *.
  - destruct (- A - - B) as [|p|p] eqn:E.
    + rewrite Hn. cbn. lia.
    + destruct Hn as [Hs Hz]. pose proof (key_sign_pos _ Hs Hz) as Hk.
      split; [intros _; lia|intros _; exact Hk].
    + destruct Hn as [Hs Hz]. pose proof (key_sign_neg _ Hs Hz) as Hk.
      destruct (key _) as [[k1 k2] k3]. cbn [klt] in *. lia.
  - destruct (- A - B) as [|p|p] eqn:E; try lia.
    destruct Hn as [Hs Hz]. pose proof (key_sign_neg _ Hs Hz) as Hk.
    destruct (key _) as [[k1 k2] k3]. cbn [klt] in *. lia.
  - destruct (A - - B) as [|p|p] eqn:E; try lia.
    destruct Hn as [Hs Hz]. pose proof (key_sign_pos _ Hs Hz) as Hk.
    split; [intros _; lia|intros _; exact Hk].
  - destruct (A - B) as [|p|p] eqn:E.
    + rewrite Hn. cbn. lia.
    + destruct Hn as [Hs Hz]. pose proof (key_sign_pos _ Hs Hz) as Hk.
      split; [intros _; lia|intros _; exact Hk].
    + destruct Hn as [Hs Hz]. pose proof (key_sign_neg _ Hs Hz) as Hk.
      destruct (key _) as [[k1 k2] k3]. cbn [klt] in *. lia.
Qed.

Lemma signed_nonneg f : signed false f -> nonneg f.
Proof. destruct f; cbn; tauto. Qed.

Lemma nonneg_isNum f : nonneg f -> isNum f = true.
Proof. destruct f; cbn; tauto. Qed.

Lemma SFmul_nonneg x c :
  nonneg x -> posFinite c -> nonneg (SF64mul x c).
Proof.
  destruct c as [| | |[|] mc ec]; cbn [posFinite]; try tauto. intros Hx _.
  destruct x as [sx|sx| |sx mx ex]; cbn in Hx; try tauto; subst; try exact I;
    try reflexivity.
  unfold SF64mul, SFmul. cbn [xorb].
  apply signed_nonneg, binary_round_aux_signed. lia.
Qed.

Lemma SFadd_nonneg x y : nonneg x -> nonneg y -> nonneg (SF64add x y).
Proof.
  destruct x as [sx|sx| |sx mx ex], y as [sy|sy| |sy my ey]; cbn [nonneg];
    try tauto; intros Hx Hy; subst; try exact I; try reflexivity.
  - destruct sx, sy; exact I.
  - unfold SF64add, SFadd. cbn [cond_Zopp Z.add binary_normalize].
    apply signed_nonneg, binary_round_signed.
Qed.

Lemma SFdiv_nonneg x c :
  nonneg x -> posFinite c -> nonneg (SF64div x c).
Proof.
  destruct c as [| | |[|] mc ec]; cbn [posFinite]; try tauto. intros Hx _.
  destruct x as [sx|sx| |sx mx ex]; cbn in Hx; try tauto; subst; try exact I;
    try reflexivity.
  unfold SF64div, SFdiv. cbn [xorb].
  unfold SFdiv_core_binary.
  set (m' := match _ with Zpos _ => _ | Z0 => _ | Zneg _ => _ end).
  assert (Hm : 0 <= m').
  { unfold m'. destruct (_ - _ - _) as [|p|p]; try lia.
    apply Z.shiftl_nonneg. lia. }
  pose proof (Z_div_mod m' (Zpos mc) ltac:(lia)) as Hd.
  destruct (Z.div_eucl m' (Zpos mc)) as [q r].
  apply signed_nonneg, binary_round_aux_signed.
  destruct Hd as [Hd Hr]. nia.
Qed.

Local Open Scope float_scope.

Lemma is_nan_spec x : is_nan x = negb (isNum (Prim2SF x)).
Proof.
  unfold is_nan. rewrite FloatAxioms.eqb_spec. unfold SFeqb, SFcompare.
  destruct (Prim2SF x) as [s|s| |s m e]; try destruct s; cbn; try reflexivity;
    rewrite Z.compare_refl, compare_cont_Eq, Pos.compare_refl; reflexivity.
Qed.

Lemma isNum_of_not_nan x : is_nan x = false -> isNum (Prim2SF x) = true.
Proof. rewrite is_nan_spec. now destruct (isNum _). Qed.

Lemma ltb_klt x y :
  is_nan x = false -> is_nan y = false ->
  ((x <? y) = true <-> klt (fkey x) (fkey y)).
Proof.
  intros Hx Hy. rewrite FloatAxioms.ltb_spec.
  apply SFltb_klt; now apply isNum_of_not_nan.
Qed.

Lemma eqb_key x y :
  is_nan x = false -> is_nan y = false ->
  ((x =? y) = true <-> fkey x = fkey y).
Proof.
  intros Hx Hy. rewrite FloatAxioms.eqb_spec.
  apply SFeqb_key; now apply isNum_of_not_nan.
Qed.

Lemma eqb_not_nan x y : (x =? y) = true -> is_nan x = false /\ is_nan y = false.
Proof.
  rewrite FloatAxioms.eqb_spec, !is_nan_spec. unfold SFeqb, SFcompare.
  destruct (Prim2SF x), (Prim2SF y); cbn; try discriminate; auto.
Qed.

Lemma zero_key : Prim2SF 0 = S754_zero false.
Proof. reflexivity. Qed.

(** The sign of [x - y] tells whether [y < x]. *)
Lemma sub_sign x y :
  is_nan x = false -> is_nan y = false ->
  (0 <? x - y) = (y <? x).
Proof.
  intros Hx Hy.
  apply eq_true_iff_eq. rewrite (ltb_klt y x Hy Hx).
  rewrite FloatAxioms.ltb_spec, zero_key, klt_zero_key, FloatAxioms.sub_spec.
  apply SFsub_sign; try apply Prim2SF_valid; now apply isNum_of_not_nan.
Qed.

Lemma leb0_nonneg x : (0 <=? x) = true <-> nonneg (Prim2SF x).
Proof.
  rewrite FloatAxioms.leb_spec, zero_key. unfold SFleb, SFcompare.
  destruct (Prim2SF x) as [s|s| |s m e]; try destruct s; cbn; split; intros H;
    try discriminate H; try reflexivity; try tauto; discriminate.
Qed.

Lemma nonneg_not_nan x : (0 <=? x) = true -> is_nan x = false.
Proof.
  rewrite leb0_nonneg, is_nan_spec. intros H.
  now rewrite (nonneg_isNum _ H).
Qed.

Lemma isPosFinite_spec c : isPosFinite c = true -> posFinite (Prim2SF c).
Proof.
  unfold isPosFinite. destruct (Prim2SF c) as [| | |[|] m e]; cbn; try discriminate; auto.
Qed.

Lemma mul_nonneg x c :
  (0 <=? x) = true -> isPosFinite c = true -> (0 <=? x * c) = true.
Proof.
  rewrite !leb0_nonneg, FloatAxioms.mul_spec. intros Hx Hc.
  apply SFmul_nonneg; [exact Hx|now apply isPosFinite_spec].
Qed.

Lemma div_nonneg x c :
  (0 <=? x) = true -> isPosFinite c = true -> (0 <=? x / c) = true.
Proof.
  rewrite !leb0_nonneg, FloatAxioms.div_spec. intros Hx Hc.
  apply SFdiv_nonneg; [exact Hx|now apply isPosFinite_spec].
Qed.

Lemma add_nonneg x y :
  (0 <=? x) = true -> (0 <=? y) = true -> (0 <=? x + y) = true.
Proof.
  rewrite !leb0_nonneg, FloatAxioms.add_spec. apply SFadd_nonneg.
Qed.

Lemma of_uint63_nonneg n : (0 <=? of_uint63 n) = true.
Proof.
  rewrite leb0_nonneg, FloatAxioms.of_uint63_spec.
  pose proof (Uint63.to_Z_bounded n) as H.
  destruct (Uint63.to_Z n) as [|p|p]; cbn [binary_normalize]; try lia.
  - exact I.
  - apply signed_nonneg, binary_round_signed.
Qed.

(** [<=?] on numbers, through the keys. *)
Lemma SFleb_klt f1 f2 :
  isNum f1 = true -> isNum f2 = true ->
  (SFleb f1 f2 = true <-> ~ klt (key f2) (key f1)).
Proof.
  unfold SFleb, SFcompare, klt.
  destruct f1 as [s1|s1| |s1 m1 e1], f2 as [s2|s2| |s2 m2 e2]; cbn [isNum];
    try discriminate; intros _ _;
    try destruct s1; try destruct s2; cbn [key];
    try (split; [intros H; try discriminate H; lia | intros H; try reflexivity; lia]).
  - rewrite compare_cont_Eq.
    destruct (Z.compare_spec e1 e2), (Pos.compare_spec m1 m2); cbn [CompOpp];
      split; intros H'; try discriminate H'; try reflexivity; try lia.
  - rewrite compare_cont_Eq.
    destruct (Z.compare_spec e1 e2), (Pos.compare_spec m1 m2); cbn [CompOpp];
      split; intros H'; try discriminate H'; try reflexivity; try lia.
Qed.

Lemma leb_klt x y :
  is_nan x = false -> is_nan y = false ->
  ((x <=? y) = true <-> ~ klt (fkey y) (fkey x)).
Proof.
  intros Hx Hy. rewrite FloatAxioms.leb_spec.
  apply SFleb_klt; now apply isNum_of_not_nan.
Qed.

End Ieee754Facts.

(* ------------------------------------------------------------------ *)
(** * The ranking on doubles *)

Module Binary64Facts.

Import Ieee754 Ieee754Facts Binary64.
Local Open Scope float_scope.

Lemma klt_irrefl a : ~ klt a a.
Proof. destruct a as [[a1 a2] a3]. cbn. lia. Qed.

Lemma klt_asym a b : klt a b -> ~ klt b a.
Proof. destruct a as [[a1 a2] a3], b as [[b1 b2] b3]. cbn. lia. Qed.

Lemma klt_cotrans a b c : ~ klt a b -> ~ klt b c -> ~ klt a c.
Proof.
  destruct a as [[a1 a2] a3], b as [[b1 b2] b3], c as [[c1 c2] c3]. cbn. lia.
Qed.

Lemma klt_total a b : ~ klt a b -> ~ klt b a -> a = b.
Proof.
  destruct a as [[a1 a2] a3], b as [[b1 b2] b3]. cbn. intros H1 H2.
  assert (a1 = b1) by lia. assert (a2 = b2) by lia. assert (a3 = b3) by lia.
  congruence.
Qed.

(** The comparator orders [y] before [x] exactly when [y] has the larger
    composite. *)
Lemma gt_compareFn x y :
  scoreIsNumber x -> scoreIsNumber y ->
  (gt (compareFn x y) 0 = true
   <-> klt (fkey (composite_score x)) (fkey (composite_score y))).
Proof.
  intros Hx Hy. unfold gt, compareFn.
  rewrite (sub_sign _ _ Hy Hx). now apply ltb_klt.
Qed.

Lemma precedes_iff a b :
  scoreIsNumber a -> scoreIsNumber b ->
  (precedes a b <-> ~ klt (fkey (composite_score a)) (fkey (composite_score b))).
Proof.
  intros Ha Hb. unfold precedes. rewrite <- (gt_compareFn a b Ha Hb).
  destruct (gt (compareFn a b) 0); split; congruence.
Qed.

Lemma sameScore_key v x :
  sameScore v x = true -> fkey (composite_score x) = fkey v.
Proof.
  unfold sameScore. intros H.
  destruct (eqb_not_nan _ _ H) as [Hx Hv]. now apply eqb_key.
Qed.

Lemma sameScore64_self x : scoreIsNumber x -> sameScore (composite_score x) x = true.
Proof.
  intros Hx. unfold sameScore. now apply eqb_key.
Qed.

Lemma sort64_insert_perm x l : Permutation (x :: l) (sort_insert x l).
Proof.
  induction l as [|y l IH]; simpl.
  - apply Permutation_refl.
  - destruct (gt (compareFn x y) 0).
    + eapply perm_trans; [apply perm_swap|]. now apply perm_skip.
    + apply Permutation_refl.
Qed.

Lemma sort64_perm l : Permutation l (sort l).
Proof.
  induction l as [|x l IH]; simpl.
  - apply perm_nil.
  - eapply perm_trans; [|apply sort64_insert_perm]. now apply perm_skip.
Qed.

Lemma sort64_numbers l : Forall scoreIsNumber l -> Forall scoreIsNumber (sort l).
Proof. intros H. exact (Permutation_Forall (sort64_perm l) H). Qed.

Lemma sort64_insert_sorted x l :
  scoreIsNumber x -> Forall scoreIsNumber l ->
  StronglySorted precedes l -> StronglySorted precedes (sort_insert x l).
Proof.
  intros Hx Hl Hs. induction Hs as [|y l Hs IH Hy]; simpl.
  - repeat constructor.
  - inversion Hl as [|? ? Ny Nl]; subst.
    destruct (gt (compareFn x y) 0) eqn:E.
    + apply (gt_compareFn x y Hx Ny) in E.
      constructor; [now apply IH|].
      apply (Permutation_Forall (sort64_insert_perm x l)).
      constructor; [|exact Hy].
      apply precedes_iff; trivial. now apply klt_asym.
    + constructor; [now constructor|].
      constructor; [exact E|].
      rewrite Forall_forall in Hy, Nl |- *. intros z Hz.
      apply precedes_iff; [exact Hx|now apply Nl|].
      apply klt_cotrans with (fkey (composite_score y)).
      * now apply (precedes_iff x y Hx Ny).
      * apply (precedes_iff y z Ny (Nl z Hz)). now apply Hy.
Qed.

Lemma sort64_sorted l : Forall scoreIsNumber l -> StronglySorted precedes (sort l).
Proof.
  induction l as [|x l IH]; intros H; simpl.
  - constructor.
  - inversion H; subst. apply sort64_insert_sorted; auto using sort64_numbers.
Qed.

Lemma sort64_insert_stable v x l :
  scoreIsNumber x -> Forall scoreIsNumber l ->
  filter (sameScore v) (sort_insert x l) = filter (sameScore v) (x :: l).
Proof.
  intros Hx Hl. induction l as [|y l IH]; [reflexivity|].
  inversion Hl as [|? ? Ny Nl]; subst.
  cbn [sort_insert]. destruct (gt (compareFn x y) 0) eqn:E; [|reflexivity].
  apply (gt_compareFn x y Hx Ny) in E.
  cbn [filter] in *. rewrite (IH Nl).
  destruct (sameScore v y) eqn:Ey, (sameScore v x) eqn:Ex; try reflexivity.
  exfalso. apply sameScore_key in Ey, Ex. rewrite Ex, Ey in E.
  exact (klt_irrefl _ E).
Qed.

Lemma sort64_stable v l :
  Forall scoreIsNumber l -> filter (sameScore v) (sort l) = filter (sameScore v) l.
Proof.
  induction l as [|x l IH]; intros H; [reflexivity|].
  inversion H; subst.
  cbn [sort fold_right]. fold (sort l).
  rewrite sort64_insert_stable by auto using sort64_numbers.
  cbn [filter]. now rewrite IH.
Qed.

(** On composites that are numbers, the insertion sort meets the
    contract of [sort]. *)
Lemma sort64_contract l : Forall scoreIsNumber l -> SortContract l (sort l).
Proof.
  intros H. constructor.
  - apply sort64_perm.
  - now apply sort64_sorted.
  - intros v. now apply sort64_stable.
Qed.

Lemma filter64_all_nil (s : list Scored) :
  Forall scoreIsNumber s -> (forall v, filter (sameScore v) s = []) -> s = [].
Proof.
  destruct s as [|y s]; [reflexivity|].
  intros N H. inversion N; subst. specialize (H (composite_score y)).
  cbn [filter] in H. rewrite sameScore64_self in H by assumption. discriminate.
Qed.

Lemma head64_score_max x s y :
  Forall scoreIsNumber (x :: s) ->
  StronglySorted precedes (x :: s) -> In y (x :: s) ->
  ~ klt (fkey (composite_score x)) (fkey (composite_score y)).
Proof.
  intros N Hs Hin. inversion Hs as [|? ? _ Hx]; subst.
  destruct Hin as [->|Hin]; [apply klt_irrefl|].
  rewrite Forall_forall in Hx, N.
  apply precedes_iff; [apply N; now left|apply N; now right|now apply Hx].
Qed.

Lemma in_filter64_same (x : Scored) (s : list Scored) :
  scoreIsNumber x -> In x s -> In x (filter (sameScore (composite_score x)) s).
Proof.
  intros N H. apply filter_In. split; [exact H|now apply sameScore64_self].
Qed.

(** A list ordered by the comparator is determined by its classes of
    equal score. *)
Lemma sorted64_stable_unique s1 :
  forall s2,
    Forall scoreIsNumber s1 -> Forall scoreIsNumber s2 ->
    StronglySorted precedes s1 -> StronglySorted precedes s2 ->
    (forall v, filter (sameScore v) s1 = filter (sameScore v) s2) ->
    s1 = s2.
Proof.
  induction s1 as [|x t1 IH]; intros s2 N1 N2 H1 H2 Hf.
  - symmetry. apply filter64_all_nil; [exact N2|]. intros v. now rewrite <- Hf.
  - destruct s2 as [|y t2].
    + apply filter64_all_nil; [exact N1|]. intros v. now rewrite Hf.
    + inversion N1 as [|? ? Nx Nt1]; inversion N2 as [|? ? Ny Nt2]; subst.
      assert (Hxy : ~ klt (fkey (composite_score y)) (fkey (composite_score x))).
      { apply (head64_score_max y t2 x N2 H2).
        pose proof (in_filter64_same x (x :: t1) Nx (or_introl eq_refl)) as Hin.
        rewrite Hf in Hin. apply filter_In in Hin. tauto. }
      assert (Hyx : ~ klt (fkey (composite_score x)) (fkey (composite_score y))).
      { apply (head64_score_max x t1 y N1 H1).
        pose proof (in_filter64_same y (y :: t2) Ny (or_introl eq_refl)) as Hin.
        rewrite <- Hf in Hin. apply filter_In in Hin. tauto. }
      assert (Hy : sameScore (composite_score x) y = true).
      { unfold sameScore. apply eqb_key; trivial. now apply klt_total. }
      assert (Heq : x = y).
      { specialize (Hf (composite_score x)). cbn [filter] in Hf.
        rewrite sameScore64_self, Hy in Hf by assumption. now injection Hf. }
      subst y. f_equal.
      inversion H1; inversion H2; subst.
      apply IH; trivial.
      intros v. specialize (Hf v). cbn [filter] in Hf.
      destruct (sameScore v x); [now injection Hf|exact Hf].
Qed.

Lemma SortContract64_unique l s1 s2 :
  Forall scoreIsNumber l ->
  SortContract l s1 -> SortContract l s2 -> s1 = s2.
Proof.
  intros N [P1 O1 S1] [P2 O2 S2].
  apply sorted64_stable_unique; trivial.
  - exact (Permutation_Forall P1 N).
  - exact (Permutation_Forall P2 N).
  - intros v. now rewrite S1, S2.
Qed.

(** ** Composites of numeric signals are numbers *)

Lemma Math_min_nonneg a b :
  isNonneg a = true -> isNonneg b = true -> isNonneg (Math_min a b) = true.
Proof.
  unfold isNonneg, Math_min. intros Ha Hb.
  rewrite (nonneg_not_nan _ Ha), (nonneg_not_nan _ Hb). cbn [orb].
  destruct (a <? b); [exact Ha|]. destruct (b <? a); [exact Hb|].
  destruct (is_zero a && get_sign a); assumption.
Qed.

Lemma ofNat64_nonneg n : isNonneg (ofNat n) = true.
Proof. apply of_uint63_nonneg. Qed.

Lemma multiPlatform64_nonneg c : isNonneg (multiPlatform c) = true.
Proof.
  unfold multiPlatform. apply Math_min_nonneg; [|reflexivity].
  apply div_nonneg; [apply ofNat64_nonneg|reflexivity].
Qed.

Lemma composite_nonneg c :
  numericSignals c ->
  isNonneg (Divisive.composite c) = true
  /\ isNonneg (Mainstream.composite c) = true.
Proof.
  intros (Hr & Hc & Hg & Hy).
  pose proof (multiPlatform64_nonneg c) as Hm.
  unfold isNonneg in *. split.
  - unfold Divisive.composite.
    repeat apply add_nonneg; apply mul_nonneg; trivial; reflexivity.
  - unfold Mainstream.composite, Mainstream.engagementScore.
    repeat apply add_nonneg; apply mul_nonneg; trivial; try reflexivity.
    apply Math_min_nonneg; [|reflexivity].
    apply div_nonneg; [exact Hc|reflexivity].
Qed.

Lemma scoredWith_numbers composite (candidates : Pool) :
  (forall c, In c (Map_values candidates) -> isNonneg (composite c) = true) ->
  Forall scoreIsNumber (scoredWith composite candidates).
Proof.
  intros H. unfold scoredWith. apply Forall_forall. intros x Hx.
  apply in_map_iff in Hx. destruct Hx as [c [<- Hc]].
  unfold scoreIsNumber. cbn [composite_score]. apply nonneg_not_nan. now apply H.
Qed.

Lemma rankWith64_ranks composite candidates :
  Forall scoreIsNumber (scoredWith composite candidates) ->
  RanksTop20 composite candidates (rankWith composite candidates).
Proof.
  intros N. exists (sort (scoredWith composite candidates)). split.
  - now apply sort64_contract.
  - reflexivity.
Qed.

Lemma RanksTop20_unique64 composite candidates out1 out2 :
  Forall scoreIsNumber (scoredWith composite candidates) ->
  RanksTop20 composite candidates out1 ->
  RanksTop20 composite candidates out2 -> out1 = out2.
Proof.
  intros N [s1 [C1 ->]] [s2 [C2 ->]].
  now rewrite (SortContract64_unique _ _ _ N C1 C2).
Qed.

Lemma rankWith64_In composite candidates x :
  In x (rankWith composite candidates) ->
  composite_score x = composite (cand x)
  /\ In (cand x) (Map_values candidates).
Proof.
  unfold rankWith, slice0. intros H.
  assert (H' : In x (sort (scoredWith composite candidates))).
  { rewrite <- (firstn_skipn 20). apply in_or_app. now left. }
  clear H. rename H' into H.
  apply (Permutation_in _ (Permutation_sym (sort64_perm _))) in H.
  apply in_map_iff in H. destruct H as [c [<- Hc]]. now split.
Qed.

Lemma rankWith64_length composite candidates :
  (List.length (rankWith composite candidates) <= 20)%nat.
Proof.
  unfold rankWith, slice0. apply firstn_le_length.
Qed.

(** Multiplication of doubles commutes. *)
Lemma SFmul_comm x y : SF64mul x y = SF64mul y x.
Proof.
  unfold SF64mul, SFmul.
  destruct x as [sx|sx| |sx mx ex], y as [sy|sy| |sy my ey];
    try reflexivity; try (now rewrite xorb_comm).
  now rewrite xorb_comm, Pos.mul_comm, Z.add_comm.
Qed.

Lemma mul_comm x y : x * y = y * x.
Proof.
  apply Prim2SF_inj. rewrite !FloatAxioms.mul_spec. apply SFmul_comm.
Qed.

Lemma presence64_of_distinct_sources c :
  NoDup (sources c) -> spec_cross_platform_presence c = multiPlatform c.
Proof.
  intros H. unfold spec_cross_platform_presence, multiPlatform.
  now rewrite (nodup_fixed_point Source_eq_dec H).
Qed.

(** ** The pool keeps numeric signals numeric *)

Lemma Forall64_Map_set (P : MergedCandidate -> Prop) key val (m : Pool) :
  P val -> Forall P (Map_values m) -> Forall P (Map_values (Map_set key val m)).
Proof.
  intros Hv. unfold Map_values.
  induction m as [|[k v] m IH]; cbn; intros H.
  - now constructor.
  - inversion H; subst. destruct (String.eqb k key); cbn; constructor; auto.
Qed.

Lemma Forall64_Map_mutate (P : MergedCandidate -> Prop) i f (m : Pool) :
  (forall c, P c -> P (f c)) ->
  Forall P (Map_values m) -> Forall P (Map_values (Map_mutate i f m)).
Proof.
  intros Hf. unfold Map_values. revert i.
  induction m as [|[k v] m IH]; intros i H; [destruct i; exact H|].
  inversion H; subst. destruct i; cbn; constructor; auto.
Qed.

Lemma google_score_nonneg g :
  trendNumeric g -> isNonneg (Trend.score g / 100) = true.
Proof. intros H. apply div_nonneg; [exact H|reflexivity]. Qed.

Lemma addReddit_numeric (pool : Pool) r :
  redditNumeric r -> Forall numericSignals (Map_values pool) ->
  Forall numericSignals (Map_values (addReddit pool r)).
Proof.
  intros [H1 H2] H. unfold addReddit. apply Forall64_Map_set; [|exact H].
  repeat split; cbn; trivial.
Qed.

Lemma mergeGoogle_numeric (pool : Pool) g :
  trendNumeric g -> Forall numericSignals (Map_values pool) ->
  Forall numericSignals (Map_values (mergeGoogle pool g)).
Proof.
  intros Hg H. pose proof (google_score_nonneg g Hg) as Hs. unfold mergeGoogle.
  destruct (findBestMatchAt _ pool) as [[i v]|].
  - apply Forall64_Map_mutate; [|exact H].
    intros c (A & B & C & D). repeat split; cbn; trivial.
  - apply Forall64_Map_set; [|exact H]. repeat split; cbn; trivial.
Qed.

Lemma mergeYoutube_numeric (pool : Pool) y :
  videoNumeric y -> Forall numericSignals (Map_values pool) ->
  Forall numericSignals (Map_values (mergeYoutube pool y)).
Proof.
  intros Hy H. unfold mergeYoutube.
  destruct (findBestMatchAt _ pool) as [[i v]|].
  - apply Forall64_Map_mutate; [|exact H].
    intros c (A & B & C & D). repeat split; cbn; trivial.
  - apply Forall64_Map_set; [|exact H]. repeat split; cbn; trivial.
Qed.

Lemma fold_left_numeric {B : Type} (P : B -> Prop) (f : Pool -> B -> Pool)
  (l : list B) :
  (forall pool b, P b -> Forall numericSignals (Map_values pool) ->
                  Forall numericSignals (Map_values (f pool b))) ->
  Forall P l ->
  forall pool, Forall numericSignals (Map_values pool) ->
               Forall numericSignals (Map_values (fold_left f l pool)).
Proof.
  intros Hf Hl. induction Hl as [|b l Hb Hl IH]; intros pool H; cbn; auto.
Qed.

Lemma mergePool_numeric redditCandidates googleTrends youtubeCandidates :
  Forall redditNumeric redditCandidates ->
  Forall trendNumeric googleTrends ->
  Forall videoNumeric youtubeCandidates ->
  Forall numericSignals
    (Map_values (mergePool redditCandidates googleTrends youtubeCandidates)).
Proof.
  intros Hr Hg Hy. unfold mergePool.
  apply (fold_left_numeric videoNumeric); [apply mergeYoutube_numeric|exact Hy|].
  apply (fold_left_numeric trendNumeric); [apply mergeGoogle_numeric|exact Hg|].
  apply (fold_left_numeric redditNumeric); [apply addReddit_numeric|exact Hr|].
  constructor.
Qed.

Lemma numeric_pool_scores (candidates : Pool) :
  Forall numericSignals (Map_values candidates) ->
  Forall scoreIsNumber (scoredWith Divisive.composite candidates)
  /\ Forall scoreIsNumber (scoredWith Mainstream.composite candidates).
Proof.
  intros H. rewrite Forall_forall in H.
  split; apply scoredWith_numbers; intros c Hc; now apply composite_nonneg, H.
Qed.

Lemma eqb_common x y v : (x =? v) = true -> (y =? v) = true -> (x =? y) = true.
Proof.
  intros Hx Hy.
  destruct (eqb_not_nan _ _ Hx) as [Nx Nv]. destruct (eqb_not_nan _ _ Hy) as [Ny _].
  apply eqb_key; trivial.
  apply (eqb_key _ _ Nx Nv) in Hx. apply (eqb_key _ _ Ny Nv) in Hy. congruence.
Qed.

(** Between composites that are numbers, [a] may stand in front of [b]
    exactly when the composite of [b] is not the larger one. *)
Lemma precedes_leb a b :
  scoreIsNumber a -> scoreIsNumber b ->
  (precedes a b <-> (composite_score b <=? composite_score a) = true).
Proof.
  intros Ha Hb. rewrite (precedes_iff a b Ha Hb). symmetry.
  now apply leb_klt.
Qed.

Lemma StronglySorted_firstn {A : Type} (R : A -> A -> Prop) n (l : list A) :
  StronglySorted R l -> StronglySorted R (firstn n l).
Proof.
  intros H. revert n. induction H as [|x l Hs IH Hx]; intros n.
  - destruct n; constructor.
  - destruct n; cbn [firstn]; constructor; [apply IH|].
    rewrite Forall_forall in Hx |- *. intros y Hy. apply Hx.
    rewrite <- (firstn_skipn n l). apply in_or_app. now left.
Qed.

Lemma StronglySorted_nth {A : Type} (R : A -> A -> Prop) (l : list A) :
  StronglySorted R l ->
  forall i j x y, (i < j)%nat ->
    nth_error l i = Some x -> nth_error l j = Some y -> R x y.
Proof.
  intros H. induction H as [|a l Hs IH Ha]; intros i j x y Hij Hi Hj.
  - destruct i; discriminate.
  - destruct j as [|j]; [lia|]. cbn [nth_error] in Hj.
    destruct i as [|i]; cbn [nth_error] in Hi.
    + injection Hi as <-. rewrite Forall_forall in Ha.
      apply Ha. eapply nth_error_In. exact Hj.
    + apply (IH i j); trivial. lia.
Qed.

(** The ranking is in descending order of the computed composite: of two
    returned candidates, the later one never has the larger composite. *)
Lemma rankWith64_descending composite (candidates : Pool) :
  Forall scoreIsNumber (scoredWith composite candidates) ->
  forall i j x y, (i < j)%nat ->
    nth_error (rankWith composite candidates) i = Some x ->
    nth_error (rankWith composite candidates) j = Some y ->
    (composite_score y <=? composite_score x) = true.
Proof.
  intros N i j x y Hij Hi Hj.
  pose proof (sort64_sorted _ N) as Hs.
  pose proof (sort64_numbers _ N) as Ns.
  assert (Hin : forall k z, nth_error (rankWith composite candidates) k = Some z ->
                            scoreIsNumber z).
  { intros k z Hz. apply nth_error_In in Hz. unfold rankWith, slice0 in Hz.
    rewrite Forall_forall in Ns. apply Ns.
    rewrite <- (firstn_skipn 20). apply in_or_app. now left. }
  apply precedes_leb; [now apply (Hin i)|now apply (Hin j)|].
  apply (StronglySorted_nth precedes (rankWith composite candidates)
           (StronglySorted_firstn precedes 20 _ Hs) i j); trivial.
Qed.

End Binary64Facts.

Section RankingOnDoubles.

Import Binary64 Binary64Facts.
Local Open Scope float_scope.

(** C1, as the code has it.  The weights are constants of each selector,
    and the composites are computed in double arithmetic.  For every pool
    whose signals are numbers, none negative, both selectors return the
    scored candidates in descending order of the computed composite (of
    two returned candidates the later one never has the larger composite),
    candidates of equal composite in pool order, cut to the first twenty.
    For a returned candidate whose [sources] names no source twice, the
    first selector's composite is the specification's formula at the
    weights 0.45, 0.25, 0.15, 0.15, each operation rounded, and the second
    selector's composite is
    0.35 * min(reddit_comments / 5000, 1) + 0.25 * google_score
    + 0.20 * cross_platform_presence + 0.20 * reddit_divisiveness, without
    a video term. *)
Theorem rank_fixed_weights_sorted_top20 (candidates : Pool) :
  Forall numericSignals (Map_values candidates) ->
  RanksTop20 Divisive.composite candidates
    (rankWith Divisive.composite candidates)
  /\ RanksTop20 Mainstream.composite candidates
       (rankWith Mainstream.composite candidates)
  /\ (forall i j x y, (i < j)%nat ->
        nth_error (rankWith Divisive.composite candidates) i = Some x ->
        nth_error (rankWith Divisive.composite candidates) j = Some y ->
        (composite_score y <=? composite_score x) = true)
  /\ (forall i j x y, (i < j)%nat ->
        nth_error (rankWith Mainstream.composite candidates) i = Some x ->
        nth_error (rankWith Mainstream.composite candidates) j = Some y ->
        (composite_score y <=? composite_score x) = true)
  /\ (List.length (rankWith Divisive.composite candidates) <= 20)%nat
  /\ (List.length (rankWith Mainstream.composite candidates) <= 20)%nat
  /\ (forall x,
        In x (rankWith Divisive.composite candidates) ->
        NoDup (sources (cand x)) ->
        followsFormula divisiveWeights x)
  /\ (forall x,
        In x (rankWith Mainstream.composite candidates) ->
        NoDup (sources (cand x)) ->
        composite_score x =
          0.35 * Math_min (reddit_comments (cand x) / 5000) 1
          + 0.25 * google_score (cand x)
          + 0.20 * spec_cross_platform_presence (cand x)
          + 0.20 * reddit_divisiveness (cand x)).
Proof.
  intros N. destruct (numeric_pool_scores candidates N) as [ND NM].
  split; [now apply rankWith64_ranks|].
  split; [now apply rankWith64_ranks|].
  split; [now apply rankWith64_descending|].
  split; [now apply rankWith64_descending|].
  split; [apply rankWith64_length|].
  split; [apply rankWith64_length|].
  split; intros x Hin Hnd; apply rankWith64_In in Hin; destruct Hin as [Hs _];
    pose proof (presence64_of_distinct_sources _ Hnd) as Hp.
  - unfold followsFormula, spec_composite, Divisive.composite in *.
    rewrite Hs, Hp. cbn [divisiveWeights w1 w2 w3 w4].
    now rewrite !(mul_comm _ 0.45), !(mul_comm _ 0.25), !(mul_comm _ 0.15).
  - unfold Mainstream.composite, Mainstream.engagementScore in *.
    rewrite Hs, Hp.
    now rewrite !(mul_comm _ 0.35), !(mul_comm _ 0.25), !(mul_comm _ 0.20).
Qed.

Lemma rank_fixed_weights_sorted_top20_witness :
  map (fun x => title (cand x)) (Divisive.mergeSignals [] [alphaTrend] [bravoVideo])
  = ["bravo pipeline protest"%string; "alpha tariff ruling"%string]
  /\ Forall (followsFormula divisiveWeights)
       (Divisive.mergeSignals [] [alphaTrend] [bravoVideo]).
Proof.
  split; [vm_compute; reflexivity|].
  assert (N : Forall numericSignals
                (Map_values (mergePool [] [alphaTrend] [bravoVideo])))
    by (vm_compute; repeat constructor).
  apply Forall_forall. intros x Hin.
  apply (proj1 (proj2 (proj2 (proj2 (proj2 (proj2 (proj2
           (rank_fixed_weights_sorted_top20
              (mergePool [] [alphaTrend] [bravoVideo]) N)))))))).
  - exact Hin.
  - destruct Hin as [<-|[<-|[]]]; vm_compute;
      repeat constructor; simpl; intuition discriminate.
Defined.

(** C1, as stated, fails on the second selector: the two pools built from
    [quietTopic] and from [busyTopic] hold one candidate each, equal in
    every term of the specification's formula, and their composites are
    0.0666... and 0.4166...; no weights give both. *)
Lemma mainstream_composite_outside_formula :
  ~ exists w : Weights,
      Forall (followsFormula w) (Mainstream.mergeSignals [quietTopic] [] [])
      /\ Forall (followsFormula w) (Mainstream.mergeSignals [busyTopic] [] []).
Proof.
  intros [w [Hq Hb]].
  apply Forall_inv in Hq. apply Forall_inv in Hb.
  vm_compute in Hq, Hb. rewrite <- Hb in Hq.
  apply (f_equal (fun s => s <? 0.1)) in Hq. vm_compute in Hq. discriminate.
Qed.

(** C9: determinism.  On fixed candidate lists whose signals are numbers,
    none negative, every result that [mergeSignals] may return, whatever
    sorting algorithm the engine runs under the contract of [sort], is one
    and the same sequence, and it is the one computed here on doubles;
    this holds for both selectors. *)
Theorem mergeSignals_deterministic
  (redditCandidates : list Reddit.t) (googleTrends : list Trend.t)
  (youtubeCandidates : list Youtube.t) (out1 out2 : list Scored) :
  Forall redditNumeric redditCandidates ->
  Forall trendNumeric googleTrends ->
  Forall videoNumeric youtubeCandidates ->
  (RunOf Divisive.composite redditCandidates googleTrends youtubeCandidates out1 ->
   RunOf Divisive.composite redditCandidates googleTrends youtubeCandidates out2 ->
   out1 = out2
   /\ out1 = Divisive.mergeSignals redditCandidates googleTrends youtubeCandidates)
  /\ (RunOf Mainstream.composite redditCandidates googleTrends youtubeCandidates out1 ->
      RunOf Mainstream.composite redditCandidates googleTrends youtubeCandidates out2 ->
      out1 = out2
      /\ out1 = Mainstream.mergeSignals redditCandidates googleTrends youtubeCandidates).
Proof.
  intros Hr Hg Hy.
  destruct (numeric_pool_scores _ (mergePool_numeric _ _ _ Hr Hg Hy)) as [ND NM].
  split; intros H1 H2; split;
    first [ exact (RanksTop20_unique64 _ _ _ _ ND H1 H2)
          | exact (RanksTop20_unique64 _ _ _ _ ND H1 (rankWith64_ranks _ _ ND))
          | exact (RanksTop20_unique64 _ _ _ _ NM H1 H2)
          | exact (RanksTop20_unique64 _ _ _ _ NM H1 (rankWith64_ranks _ _ NM)) ].
Qed.

Lemma mergeSignals_deterministic_witness :
  [mkScored deltaCluster (Mainstream.composite deltaCluster);
   mkScored charlieCluster (Mainstream.composite charlieCluster)]
  = Mainstream.mergeSignals [charlieTopic] [deltaTrend] [].
Proof.
  assert (Hpool : mergePool [charlieTopic] [deltaTrend] []
                  = [("charlie zoning appeal"%string, charlieCluster);
                     ("delta harbor strike"%string, deltaCluster)])
    by (vm_compute; reflexivity).
  assert (Hrun : RunOf Mainstream.composite [charlieTopic] [deltaTrend] []
                   [mkScored deltaCluster (Mainstream.composite deltaCluster);
                    mkScored charlieCluster (Mainstream.composite charlieCluster)]).
  { unfold RunOf, RanksTop20. rewrite Hpool.
    exists [mkScored deltaCluster (Mainstream.composite deltaCluster);
            mkScored charlieCluster (Mainstream.composite charlieCluster)].
    split; [|reflexivity].
    unfold scoredWith, Map_values. cbn [map snd]. constructor.
    - apply perm_swap.
    - repeat constructor.
    - intros v. cbn [filter]. unfold sameScore. cbn [composite_score].
      destruct (Mainstream.composite deltaCluster =? v) eqn:Ed,
               (Mainstream.composite charlieCluster =? v) eqn:Ec; try reflexivity.
      pose proof (eqb_common _ _ _ Ed Ec) as E. vm_compute in E. discriminate. }
  refine (proj2 (proj2 (mergeSignals_deterministic
                          [charlieTopic] [deltaTrend] [] _
                          (Mainstream.mergeSignals [charlieTopic] [deltaTrend] [])
                          _ _ _) Hrun _)).
  - repeat constructor.
  - repeat constructor.
  - constructor.
  - apply rankWith64_ranks.
    apply (numeric_pool_scores (mergePool [charlieTopic] [deltaTrend] [])).
    rewrite Hpool. vm_compute. repeat constructor.
Defined.

End RankingOnDoubles.

(** C10: when the per-source signals and the engagement term of a ranked
    candidate lie in [0,1], so does its composite score, in both
    selectors. *)
Theorem composite_score_in_unit
  (redditCandidates : list Reddit.t) (googleTrends : list Trend.t)
  (youtubeCandidates : list Youtube.t) (x : Scored) :
  In x (Divisive.mergeSignals redditCandidates googleTrends youtubeCandidates)
  \/ In x (Mainstream.mergeSignals redditCandidates googleTrends youtubeCandidates) ->
  signalsInUnit (cand x) ->
  0 <= composite_score x <= 1.
Proof.
  intros Hin (Hr & Hy & Hg & He).
  pose proof (multiPlatform_unit (cand x)) as Hm.
  destruct Hin as [Hin|Hin]; apply rankWith_In in Hin;
    destruct Hin as [-> _].
  - unfold Divisive.composite. lra.
  - unfold Mainstream.composite. lra.
Qed.

Lemma composite_score_in_unit_witness :
  0 <= composite_score
         (mkScored (mkMerged "Gun control debate" 0 5000 ["politics"%string] 0 0 [reddit])
            (Mainstream.composite
               (mkMerged "Gun control debate" 0 5000 ["politics"%string] 0 0 [reddit])))
    <= 1.
Proof.
  apply (composite_score_in_unit [busyTopic] [] []).
  - right. vm_compute. left. reflexivity.
  - vm_compute. repeat split; discriminate.
Defined.

(** C5: with the three source lists empty, [mergeSignals] returns the
    empty sequence, in both selectors. *)
Theorem mergeSignals_empty :
  Divisive.mergeSignals [] [] [] = []
  /\ Mainstream.mergeSignals [] [] [] = [].
Proof.
  split; reflexivity.
Qed.

(* ------------------------------------------------------------------ *)
(** * Token sets *)

Lemma has_In (s : list string) (w : string) : Js.has s w = true <-> In w s.
Proof.
  unfold Js.has. rewrite existsb_exists. split.
  - intros [x [Hx E]]. apply String.eqb_eq in E. now subst.
  - intros H. exists w. split; [exact H|apply String.eqb_refl].
Qed.

Lemma add_In (s : list string) (w x : string) :
  In x (Js.add s w) <-> In x s \/ x = w.
Proof.
  unfold Js.add. destruct (Js.has s w) eqn:E.
  - apply has_In in E. split; [tauto|]. intros [H| ->]; trivial.
  - rewrite in_app_iff. cbn. intuition congruence.
Qed.

Lemma add_NoDup (s : list string) (w : string) : NoDup s -> NoDup (Js.add s w).
Proof.
  intros H. unfold Js.add. destruct (Js.has s w) eqn:E; [exact H|].
  apply NoDup_app; [exact H|repeat constructor; intros []|].
  intros x Hx [<-|[]].
  apply has_In in Hx. congruence.
Qed.

Lemma fold_add_spec (ws : list string) :
  forall s, NoDup s ->
    NoDup (fold_left Js.add ws s)
    /\ forall x, In x (fold_left Js.add ws s) <-> In x s \/ In x ws.
Proof.
  induction ws as [|w ws IH]; intros s Hs; cbn [fold_left].
  - split; [exact Hs|]. intros x. cbn. tauto.
  - destruct (IH (Js.add s w) (add_NoDup s w Hs)) as [Hn Hin].
    split; [exact Hn|]. intros x. rewrite Hin, add_In. cbn. intuition congruence.
Qed.

(** The token set of a key holds each word of the key that is longer than
    three characters, once. *)
Lemma longWords_spec (key : string) :
  NoDup (longWords key)
  /\ forall w, In w (longWords key)
                <-> In w (Js.split key) /\ (3 < String.length w)%nat.
Proof.
  unfold longWords, Js.newSet.
  destruct (fold_add_spec (filter (fun w => (3 <? String.length w)%nat) (Js.split key))
              [] (NoDup_nil _)) as [Hn Hin].
  split; [exact Hn|]. intros w. rewrite Hin, filter_In, Nat.ltb_lt. cbn. tauto.
Qed.

(** [shared] counts the words of the new key that the existing key has. *)
Lemma sharedCount_filter (keyWords existingWords : list string) :
  sharedCount keyWords existingWords
  = List.length (filter (Js.has existingWords) keyWords).
Proof.
  unfold sharedCount.
  assert (H : forall n,
             fold_left (fun shared w =>
                          if Js.has existingWords w then S shared else shared)
                       keyWords n
             = (n + List.length (filter (Js.has existingWords) keyWords))%nat).
  { induction keyWords as [|w ws IH]; intros n; cbn [fold_left filter].
    - cbn. lia.
    - rewrite IH. destruct (Js.has existingWords w); cbn [List.length]; lia. }
  now rewrite H.
Qed.

(* ------------------------------------------------------------------ *)
(** * Fuzzy matcher *)

Section MatcherLoop.

Variable keyWords : list string.

Let ov (existingKey : string) : Q := overlapOf keyWords (longWords existingKey).

(** Either no entry replaces [bestMatch], or the loop returns the first
    entry of largest overlap, which is above the threshold and above
    [bestOverlap]. *)
Lemma findBestMatch_loop_spec (entries : Pool) :
  forall i bestMatch bestOverlap,
    (findBestMatch_loop keyWords entries i bestMatch bestOverlap = bestMatch
     /\ forall k v, In (k, v) entries -> ~ (0.4 < ov k /\ bestOverlap < ov k))
    \/ (exists j k v,
          findBestMatch_loop keyWords entries i bestMatch bestOverlap
          = Some ((i + j)%nat, v)
          /\ nth_error entries j = Some (k, v)
          /\ 0.4 < ov k /\ bestOverlap < ov k
          /\ (forall j' k' v', nth_error entries j' = Some (k', v') -> ov k' <= ov k)
          /\ (forall j' k' v', (j' < j)%nat ->
                nth_error entries j' = Some (k', v') -> ov k' < ov k)).
Proof.
  induction entries as [|[k0 v0] rest IH]; intros i bm bo.
  - left. split; [reflexivity|]. intros k v [].
  - cbn [findBestMatch_loop]. fold (ov k0).
    destruct (gt (ov k0) 0.4 && gt (ov k0) bo) eqn:E.
    + apply andb_true_iff in E. destruct E as [E1 E2].
      apply gt_iff in E1, E2. right.
      destruct (IH (S i) (Some (i, v0)) (ov k0))
        as [[Hres Hnone]|(j & k & v & Hres & Hnth & Hk1 & Hk2 & Hmax & Hfirst)].
      * exists 0%nat, k0, v0. rewrite Hres, Nat.add_0_r.
        repeat split; trivial.
        -- intros [|j'] k' v' Hn; cbn in Hn.
           ++ injection Hn as <- _. apply Qle_refl.
           ++ apply nth_error_In in Hn.
              destruct (Qlt_le_dec (ov k0) (ov k')) as [Hlt|Hle]; [|exact Hle].
              exfalso. apply (Hnone k' v' Hn). split; [|exact Hlt].
              now apply Qlt_trans with (ov k0).
        -- intros j' k' v' Hj. lia.
      * exists (S j), k, v. rewrite Hres, Nat.add_succ_r.
        repeat split; trivial.
        -- now apply Qlt_trans with (ov k0).
        -- intros [|j'] k' v' Hn; cbn in Hn.
           ++ injection Hn as <- _. now apply Qlt_le_weak.
           ++ now apply (Hmax j' k' v').
        -- intros [|j'] k' v' Hj Hn; cbn in Hn.
           ++ now injection Hn as <- _.
           ++ apply (Hfirst j' k' v'); [lia|exact Hn].
    + assert (Hhead : ~ (0.4 < ov k0 /\ bo < ov k0)).
      { intros [H1 H2]. apply gt_iff in H1, H2.
        rewrite H1, H2 in E. discriminate. }
      destruct (IH (S i) bm bo)
        as [[Hres Hnone]|(j & k & v & Hres & Hnth & Hk1 & Hk2 & Hmax & Hfirst)].
      * left. split; [exact Hres|].
        intros k v [Heq|Hin].
        -- now injection Heq as <- _.
        -- now apply (Hnone k v).
      * right. exists (S j), k, v. rewrite Hres, Nat.add_succ_r.
        assert (Hlt : ov k0 < ov k).
        { destruct (Qlt_le_dec 0.4 (ov k0)) as [H1|H1].
          - destruct (Qlt_le_dec bo (ov k0)) as [H2|H2]; [tauto|].
            now apply Qle_lt_trans with bo.
          - now apply Qle_lt_trans with 0.4. }
        repeat split; trivial.
        -- intros [|j'] k' v' Hn; cbn in Hn.
           ++ injection Hn as <- _. now apply Qlt_le_weak.
           ++ now apply (Hmax j' k' v').
        -- intros [|j'] k' v' Hj Hn; cbn in Hn.
           ++ now injection Hn as <- _.
           ++ apply (Hfirst j' k' v'); [lia|exact Hn].
Qed.

End MatcherLoop.

Lemma findBestMatchAt_spec (key : string) (map : Pool) :
  (findBestMatchAt key map = None
   /\ forall k v, In (k, v) map -> ~ 0.4 < overlap key k)
  \/ (exists i k v,
        findBestMatchAt key map = Some (i, v)
        /\ nth_error map i = Some (k, v)
        /\ 0.4 < overlap key k
        /\ (forall j k' v', nth_error map j = Some (k', v') ->
              overlap key k' <= overlap key k)
        /\ (forall j k' v', (j < i)%nat -> nth_error map j = Some (k', v') ->
              overlap key k' < overlap key k)).
Proof.
  unfold findBestMatchAt, overlap.
  destruct (findBestMatch_loop_spec (longWords key) map 0%nat None 0)
    as [[Hres Hnone]|(j & k & v & Hres & Hnth & Hk1 & Hk2 & Hmax & Hfirst)].
  - left. split; [exact Hres|].
    intros k v Hin Hk. apply (Hnone k v Hin). split; [exact Hk|].
    apply Qlt_trans with 0.4; [reflexivity|exact Hk].
  - right. exists j, k, v. repeat split; trivial.
Qed.

Lemma findBestMatch_single (key existingKey : string) (val : MergedCandidate) :
  findBestMatch key [(existingKey, val)]
  = if gt (overlap key existingKey) 0.4 && gt (overlap key existingKey) 0
    then Some val else None.
Proof.
  unfold findBestMatch, findBestMatchAt, overlap. cbn [findBestMatch_loop].
  now destruct (gt _ 0.4 && gt _ 0).
Qed.

(* ------------------------------------------------------------------ *)
(** * The matcher against the specification's overlap *)

Lemma string_append_empty_r (s : string) : (s ++ EmptyString)%string = s.
Proof. induction s as [|c s IH]; cbn; [reflexivity|now rewrite IH]. Qed.

Lemma string_append_assoc (a b c : string) :
  ((a ++ b) ++ c)%string = (a ++ (b ++ c))%string.
Proof. induction a as [|x a IH]; cbn; [reflexivity|now rewrite IH]. Qed.

Lemma split_cons (key : string) : exists w ws, Js.split key = w :: ws.
Proof.
  destruct key as [|c key]; cbn [Js.split]; [now eexists; eexists|].
  destruct (Ascii.eqb c " "%char); [now eexists; eexists|].
  destruct (Js.split key); now eexists; eexists.
Qed.

Lemma spec_wordsFrom_split (key : string) :
  forall word w ws,
    Js.split key = w :: ws ->
    spec_wordsFrom word key = (word ++ w)%string :: ws.
Proof.
  induction key as [|c key IH]; intros word w ws; cbn [spec_wordsFrom Js.split].
  - intros E. injection E as <- <-. now rewrite string_append_empty_r.
  - destruct (split_cons key) as (w' & ws' & E'). rewrite E'.
    destruct (Ascii.eqb c " "%char); intros E; injection E as <- <-.
    + rewrite string_append_empty_r. f_equal. now rewrite (IH _ _ _ E').
    + rewrite (IH _ _ _ E'). now rewrite string_append_assoc.
Qed.

Lemma spec_words_split (key : string) : spec_words key = Js.split key.
Proof.
  destruct (split_cons key) as (w & ws & E).
  unfold spec_words. now rewrite (spec_wordsFrom_split key _ _ _ E), E.
Qed.

(** The token set of the code and the one of the specification hold the
    same words. *)
Lemma longWords_tokens (key : string) :
  Permutation (longWords key) (spec_tokens key).
Proof.
  destruct (longWords_spec key) as [Hn Hin].
  apply NoDup_Permutation; [exact Hn|apply NoDup_nodup|].
  intros w. rewrite Hin. unfold spec_tokens.
  rewrite nodup_In, filter_In, spec_words_split, Nat.leb_le.
  split; intros [A B]; (split; [exact A|lia]).
Qed.

Lemma filter_length_perm {A : Type} (f g : A -> bool) (l l' : list A) :
  Permutation l l' -> (forall x, f x = g x) ->
  List.length (filter f l) = List.length (filter g l').
Proof.
  intros P E. induction P as [|x l l' P IH|x y l|l l' l'' P1 IH1 P2 IH2].
  - reflexivity.
  - cbn [filter]. rewrite E. destruct (g x); cbn [List.length]; now rewrite IH.
  - cbn [filter]. rewrite !E.
    assert (H : List.length (filter f l) = List.length (filter g l)).
    { clear -E. induction l as [|z l IH]; [reflexivity|].
      cbn [filter]. rewrite E. destruct (g z); cbn [List.length]; now rewrite IH. }
    destruct (g x), (g y); cbn [List.length]; now rewrite H.
  - rewrite IH1. rewrite <- IH2.
    clear -E. induction l' as [|z l IH]; [reflexivity|].
    cbn [filter]. rewrite E. destruct (g z); cbn [List.length]; now rewrite IH.
Qed.

Lemma sharedCount_spec (key existingKey : string) :
  sharedCount (longWords key) (longWords existingKey)
  = spec_shared (spec_tokens key) (spec_tokens existingKey).
Proof.
  rewrite sharedCount_filter. unfold spec_shared.
  apply filter_length_perm.
  - apply longWords_tokens.
  - intros w.
    pose proof (longWords_tokens existingKey) as P.
    destruct (in_dec string_dec w (spec_tokens existingKey)) as [H|H].
    + apply has_In. exact (Permutation_in _ (Permutation_sym P) H).
    + destruct (Js.has (longWords existingKey) w) eqn:E; [|reflexivity].
      apply has_In in E. elim H. exact (Permutation_in _ P E).
Qed.

(** The overlap that the code computes is the specification's. *)
Lemma overlap_spec (key existingKey : string) :
  overlap key existingKey = spec_overlap key existingKey.
Proof.
  unfold overlap, overlapOf, spec_overlap, ofNat.
  rewrite sharedCount_spec.
  rewrite (Permutation_length (longWords_tokens key)).
  now rewrite (Permutation_length (longWords_tokens existingKey)).
Qed.

(** C2: the fuzzy matcher returns a cluster exactly when the overlap
    |shared tokens| / max(|tokens_new|, |tokens_existing|, 1) of the new
    key with some pool key is above 0.4, the tokens of a key being its
    words longer than 3 characters; the cluster it returns is the first
    inserted among those of largest overlap; a key that shares two tokens
    with the only pool key is not matched when the larger of the two token
    sets has five, one that shares three is; and two keys without tokens
    are not matched. *)
Theorem findBestMatch_spec (key : string) (map : Pool) :
  ((exists val, findBestMatch key map = Some val)
   <-> (exists k v, In (k, v) map /\ 0.4 < spec_overlap key k))
  /\ (forall i val,
        findBestMatchAt key map = Some (i, val) ->
        findBestMatch key map = Some val
        /\ exists k,
             nth_error map i = Some (k, val)
             /\ 0.4 < spec_overlap key k
             /\ (forall j k' v', nth_error map j = Some (k', v') ->
                   spec_overlap key k' <= spec_overlap key k)
             /\ (forall j k' v', (j < i)%nat ->
                   nth_error map j = Some (k', v') ->
                   spec_overlap key k' < spec_overlap key k))
  /\ (forall existingKey val,
        Nat.max (List.length (spec_tokens key))
                (List.length (spec_tokens existingKey)) = 5%nat ->
        (spec_shared (spec_tokens key) (spec_tokens existingKey) = 2%nat ->
         findBestMatch key [(existingKey, val)] = None)
        /\ (spec_shared (spec_tokens key) (spec_tokens existingKey) = 3%nat ->
            findBestMatch key [(existingKey, val)] = Some val))
  /\ (forall existingKey val,
        spec_tokens key = [] -> spec_tokens existingKey = [] ->
        findBestMatch key [(existingKey, val)] = None).
Proof.
  split; [|split; [|split]].
  - unfold findBestMatch.
    destruct (findBestMatchAt_spec key map)
      as [[Hres Hnone]|(i & k & v & Hres & Hnth & Hk & _)]; rewrite Hres.
    + split.
      * intros [val H]. discriminate.
      * intros (k & v & Hin & Hk). rewrite <- overlap_spec in Hk.
        now elim (Hnone k v Hin).
    + split.
      * intros _. exists k, v. rewrite <- overlap_spec. split; [|exact Hk].
        eapply nth_error_In. exact Hnth.
      * intros _. now exists v.
  - intros i val Hat. split.
    + unfold findBestMatch. now rewrite Hat.
    + destruct (findBestMatchAt_spec key map)
        as [[Hres _]|(i' & k & v & Hres & Hnth & Hk & Hmax & Hfirst)];
        rewrite Hres in Hat; [discriminate|].
      injection Hat as -> ->. exists k.
      rewrite <- overlap_spec. repeat split; trivial.
      * intros j k' v' Hj. rewrite <- overlap_spec. now apply (Hmax j k' v').
      * intros j k' v' Hlt Hj. rewrite <- overlap_spec. now apply (Hfirst j k' v').
  - intros existingKey val H5. split; intros Hs;
      rewrite findBestMatch_single, overlap_spec; unfold spec_overlap;
      rewrite H5, Hs; reflexivity.
  - intros existingKey val Hk He.
    rewrite findBestMatch_single, overlap_spec. unfold spec_overlap.
    rewrite Hk, He. reflexivity.
Qed.

Lemma findBestMatch_spec_witness :
  findBestMatch borderKey [(twoShared, someCluster)] = None
  /\ findBestMatch borderKey [(threeShared, someCluster)] = Some someCluster
  /\ 0.4 < spec_overlap borderKey threeShared.
Proof.
  split; [|split].
  - refine (proj1 (proj1 (proj2 (proj2 (findBestMatch_spec borderKey [])))
                     twoShared someCluster _) _); reflexivity.
  - refine (proj2 (proj1 (proj2 (proj2 (findBestMatch_spec borderKey [])))
                     threeShared someCluster _) _); reflexivity.
  - destruct (proj1 (proj2 (findBestMatch_spec borderKey
                              [(twoShared, someCluster); (threeShared, someCluster)]))
                1%nat someCluster eq_refl) as [_ (k & Hnth & Hk & _)].
    injection Hnth as <-. exact Hk.
Defined.

(* ------------------------------------------------------------------ *)
(** * Reddit scorer *)

Module RedditScraperFacts.

Import RedditScraper.
Local Open Scope R_scope.

Lemma ratioDivisiveness_unit a : 0 <= a <= 1 -> 0 <= ratioDivisiveness a <= 1.
Proof.
  intros H. unfold ratioDivisiveness, Rabs.
  destruct (Rcase_abs (a - 0.5)); Lra.lra.
Qed.

Lemma ratioDivisiveness_peak a : ratioDivisiveness a = 1 <-> a = 0.5.
Proof.
  unfold ratioDivisiveness, Rabs.
  destruct (Rcase_abs (a - 0.5)); split; intros; Lra.lra.
Qed.

Lemma ratioDivisiveness_falls_above a a' :
  0.5 <= a -> a < a' -> ratioDivisiveness a' < ratioDivisiveness a.
Proof.
  intros H1 H2. unfold ratioDivisiveness, Rabs.
  destruct (Rcase_abs (a - 0.5)), (Rcase_abs (a' - 0.5)); Lra.lra.
Qed.

Lemma ratioDivisiveness_falls_below a a' :
  a' < a -> a <= 0.5 -> ratioDivisiveness a' < ratioDivisiveness a.
Proof.
  intros H1 H2. unfold ratioDivisiveness, Rabs.
  destruct (Rcase_abs (a - 0.5)), (Rcase_abs (a' - 0.5)); Lra.lra.
Qed.

Lemma ln_10_pos : 0 < ln 10.
Proof.
  rewrite <- ln_1. apply ln_increasing; Lra.lra.
Qed.

Lemma log10_nonneg x : 1 <= x -> 0 <= log10 x.
Proof.
  intros H. unfold log10.
  assert (H0 : 0 <= ln x).
  { destruct H as [H|<-].
    - left. rewrite <- ln_1. apply ln_increasing; Lra.lra.
    - rewrite ln_1. apply Rle_refl. }
  apply Rmult_le_pos; [exact H0|].
  left. apply Rinv_0_lt_compat, ln_10_pos.
Qed.

Lemma engagementWeight_unit n : 0 <= n -> 0 <= engagementWeight n <= 1.
Proof.
  intros H. unfold engagementWeight. split.
  - apply Rmin_glb; [|Lra.lra].
    pose proof (log10_nonneg (n + 1)) as Hl. Lra.lra.
  - apply Rmin_r.
Qed.

Lemma scoreWeight_unit s : 0 <= s -> 0 <= scoreWeight s <= 1.
Proof.
  intros H. unfold scoreWeight. destruct (Rlt_dec 100 s); Lra.lra.
Qed.

End RedditScraperFacts.

(** C3: on a post with approval ratio in [0,1] and non-negative comment
    count and score, [scoreDivisiveness] is the specification's formula and
    lies in [0,1]; its ratio term is 1 exactly at ratio 0.5 and falls
    strictly as the ratio moves away from 0.5 on either side. *)
Theorem scoreDivisiveness_spec (approval_ratio comment_count raw_score a' : R) :
  (0 <= approval_ratio <= 1)%R -> (0 <= comment_count)%R -> (0 <= raw_score)%R ->
  let post :=
    RedditScraper.mkPost (Some approval_ratio) (Some comment_count) (Some raw_score) in
  RedditScraper.scoreDivisiveness post
  = spec_discussion_divisiveness approval_ratio comment_count raw_score
  /\ (0 <= RedditScraper.scoreDivisiveness post <= 1)%R
  /\ (RedditScraper.ratioDivisiveness approval_ratio = 1%R <-> approval_ratio = 0.5%R)
  /\ ((0.5 <= approval_ratio)%R -> (approval_ratio < a')%R ->
      (RedditScraper.ratioDivisiveness a' < RedditScraper.ratioDivisiveness approval_ratio)%R)
  /\ ((a' < approval_ratio)%R -> (approval_ratio <= 0.5)%R ->
      (RedditScraper.ratioDivisiveness a' < RedditScraper.ratioDivisiveness approval_ratio)%R).
Proof.
  intros Ha Hn Hs post.
  pose proof (RedditScraperFacts.ratioDivisiveness_unit _ Ha) as Hr.
  pose proof (RedditScraperFacts.engagementWeight_unit _ Hn) as He.
  pose proof (RedditScraperFacts.scoreWeight_unit _ Hs) as Hw.
  split; [|split; [|split; [|split]]].
  - unfold post, RedditScraper.scoreDivisiveness, spec_discussion_divisiveness.
    cbn [RedditScraper.upvote_ratio RedditScraper.num_comments RedditScraper.score
         RedditScraper.orDefault].
    unfold RedditScraper.ratioDivisiveness, RedditScraper.engagementWeight,
      RedditScraper.scoreWeight.
    destruct (Rlt_dec 100 raw_score), (Rgt_dec raw_score 100); try Lra.lra; ring.
  - unfold post, RedditScraper.scoreDivisiveness.
    cbn [RedditScraper.upvote_ratio RedditScraper.num_comments RedditScraper.score
         RedditScraper.orDefault].
    Lra.lra.
  - apply RedditScraperFacts.ratioDivisiveness_peak.
  - apply RedditScraperFacts.ratioDivisiveness_falls_above.
  - apply RedditScraperFacts.ratioDivisiveness_falls_below.
Qed.

Lemma scoreDivisiveness_spec_witness :
  (0 <= RedditScraper.scoreDivisiveness
          (RedditScraper.mkPost (Some 0.5%R) (Some 1000%R) (Some 200%R)) <= 1)%R
  /\ (RedditScraper.ratioDivisiveness 0.75
      < RedditScraper.ratioDivisiveness 0.5)%R.
Proof.
  assert (Ha : (0 <= 0.5 <= 1)%R) by Lra.lra.
  assert (Hn : (0 <= 1000)%R) by Lra.lra.
  assert (Hs : (0 <= 200)%R) by Lra.lra.
  destruct (scoreDivisiveness_spec 0.5 1000 200 0.75 Ha Hn Hs)
    as (_ & Hunit & _ & Habove & _).
  split; [exact Hunit|].
  apply Habove; Lra.lra.
Defined.

(** The example of the specification: ratio 0.5 gives the ratio term 1. *)
Example ratioDivisiveness_half : RedditScraper.ratioDivisiveness 0.5 = 1%R.
Proof.
  apply RedditScraperFacts.ratioDivisiveness_peak. reflexivity.
Qed.

(* ------------------------------------------------------------------ *)
(** * YouTube scorer *)

(** C7: on a video with non-negative view and comment counts the score is
    min(comment_density * 1000, 1), the density being 0 at zero views;
    50 comments on 1000 views score 1, and on 100000 views 0.5. *)
Theorem video_divisiveness_spec (snippetTitle : string)
  (view_count comment_count : Z) (likes : option Z) :
  (0 <= view_count)%Z -> (0 <= comment_count)%Z ->
  YoutubeScraper.divisiveness_score
    (YoutubeScraper.scoreVideo snippetTitle
       (YoutubeScraper.mkStats (Some view_count) (Some comment_count) likes))
  = spec_video_divisiveness view_count comment_count
  /\ YoutubeScraper.divisiveness_score
       (YoutubeScraper.scoreVideo snippetTitle
          (YoutubeScraper.mkStats (Some 1000%Z) (Some 50%Z) likes)) == 1
  /\ YoutubeScraper.divisiveness_score
       (YoutubeScraper.scoreVideo snippetTitle
          (YoutubeScraper.mkStats (Some 100000%Z) (Some 50%Z) likes)) == 0.5.
Proof.
  intros Hv Hc. split; [|split].
  - cbn [YoutubeScraper.scoreVideo YoutubeScraper.divisiveness_score
         YoutubeScraper.parseIntOr0 YoutubeScraper.viewCount
         YoutubeScraper.commentCount].
    unfold YoutubeScraper.divisiveness, YoutubeScraper.commentDensity,
      spec_video_divisiveness, spec_comment_density.
    destruct (Z.ltb_spec 0 view_count), (Z.eqb_spec view_count 0);
      try reflexivity; lia.
  - reflexivity.
  - reflexivity.
Qed.

Lemma video_divisiveness_spec_witness :
  YoutubeScraper.divisiveness_score
    (YoutubeScraper.scoreVideo "Senate hearing live"
       (YoutubeScraper.mkStats (Some 0%Z) (Some 50%Z) None))
  = spec_video_divisiveness 0 50.
Proof.
  apply (video_divisiveness_spec "Senate hearing live" 0 50 None); lia.
Defined.

(* ------------------------------------------------------------------ *)
(** * Absent fields *)

(** C8, as stated, fails: a post without [upvote_ratio] is not scored as
    if the ratio were zero. *)
Lemma missing_ratio_not_zero :
  RedditScraper.scoreDivisiveness postWithoutRatio
  <> RedditScraper.scoreDivisiveness (zeroFilled postWithoutRatio).
Proof.
  unfold postWithoutRatio, zeroFilled, RedditScraper.scoreDivisiveness.
  cbn [RedditScraper.upvote_ratio RedditScraper.num_comments RedditScraper.score
       RedditScraper.orDefault].
  unfold RedditScraper.ratioDivisiveness, Rabs.
  destruct (Rcase_abs (0.5 - 0.5)), (Rcase_abs (0 - 0.5)); Lra.lra.
Qed.

(** C8, as the code has it: the scorers return a value on every record;
    an absent [num_comments] or [score] is read as 0 and an absent
    [upvote_ratio] as 0.5; an absent [viewCount], [commentCount] or
    [likeCount] is read as 0, and a video without views scores 0. *)
Theorem missing_fields_defaults (ratio comments score : option R)
  (snippetTitle : string) (views ncomments likes : option Z) :
  RedditScraper.scoreDivisiveness (RedditScraper.mkPost None comments score)
  = RedditScraper.scoreDivisiveness (RedditScraper.mkPost (Some 0.5%R) comments score)
  /\ RedditScraper.scoreDivisiveness (RedditScraper.mkPost ratio None score)
     = RedditScraper.scoreDivisiveness (RedditScraper.mkPost ratio (Some 0%R) score)
  /\ RedditScraper.scoreDivisiveness (RedditScraper.mkPost ratio comments None)
     = RedditScraper.scoreDivisiveness (RedditScraper.mkPost ratio comments (Some 0%R))
  /\ YoutubeScraper.scoreVideo snippetTitle (YoutubeScraper.mkStats None ncomments likes)
     = YoutubeScraper.scoreVideo snippetTitle
         (YoutubeScraper.mkStats (Some 0%Z) ncomments likes)
  /\ YoutubeScraper.scoreVideo snippetTitle (YoutubeScraper.mkStats views None likes)
     = YoutubeScraper.scoreVideo snippetTitle
         (YoutubeScraper.mkStats views (Some 0%Z) likes)
  /\ YoutubeScraper.scoreVideo snippetTitle (YoutubeScraper.mkStats views ncomments None)
     = YoutubeScraper.scoreVideo snippetTitle
         (YoutubeScraper.mkStats views ncomments (Some 0%Z))
  /\ YoutubeScraper.divisiveness_score
       (YoutubeScraper.scoreVideo snippetTitle
          (YoutubeScraper.mkStats None ncomments likes)) == 0.
Proof.
  repeat split.
Qed.

(* ------------------------------------------------------------------ *)
(** * Signal merger on repeated and on colliding candidates *)

(** C4 at the failing input: the trend [reformTrend] folded once leaves one
    cluster with [sources = [google_trends]]; folded twice it leaves the
    same cluster, the same [google_score], and [google_trends] listed
    twice, which doubles the cross-platform term of the composite. *)
Theorem fold_twice_counts_source_twice :
  map (fun c => (google_score c, sources c))
      (Map_values (mergePool [] [reformTrend] []))
  = [(0.90, [google_trends])]
  /\ map (fun c => (google_score c, sources c))
         (Map_values (mergePool [] [reformTrend; reformTrend] []))
     = [(0.90, [google_trends; google_trends])]
  /\ map (fun x => multiPlatform (cand x))
         (Divisive.mergeSignals [] [reformTrend] []) = [1 # 3]
  /\ map (fun x => multiPlatform (cand x))
         (Divisive.mergeSignals [] [reformTrend; reformTrend] []) = [2 # 3]
  /\ map (fun x => spec_cross_platform_presence (cand x))
         (Divisive.mergeSignals [] [reformTrend; reformTrend] []) = [1 # 3].
Proof.
  repeat split; vm_compute; reflexivity.
Qed.

(** C6 at the failing input: [gunBanPost] and [gunBanTrend] are two
    candidates; the pool after the merge holds one cluster, made from the
    trend alone, and nothing of the Reddit candidate is left in it. *)
Theorem colliding_key_drops_candidate :
  Map_values (mergePool [gunBanPost] [] [])
  = [mkMerged "Gun Ban" 0.8 640 ["politics"%string] 0 0 [reddit]]
  /\ Map_values (mergePool [gunBanPost] [gunBanTrend] [])
     = [mkMerged "gun ban" 0 0 [] 0.90 0 [google_trends]]
  /\ contributions (mergePool [gunBanPost] [gunBanTrend] []) = 1%nat
  /\ findBestMatch (normalizeTitle (Trend.title gunBanTrend))
       (mergePool [gunBanPost] [] []) = None.
Proof.
  repeat split; vm_compute; reflexivity.
Qed.

(* ------------------------------------------------------------------ *)
(** * Candidate normalizer *)

Ltac each_ascii c := destruct c as [[|] [|] [|] [|] [|] [|] [|] [|]].

Lemma lowerChar_kept (c : ascii) :
  JsText.keptChar c = true -> Js.lowerChar c = c.
Proof. each_ascii c; intros H; try reflexivity; discriminate H. Qed.

Lemma toLowerCase_fixed (s : string) :
  JsText.allChars JsText.keptChar s = true -> Js.toLowerCase s = s.
Proof.
  induction s as [|c s IH]; cbn; [reflexivity|].
  intros H. apply andb_true_iff in H. destruct H as [Hc Hs].
  now rewrite (lowerChar_kept c Hc), (IH Hs).
Qed.

Lemma stripOthers_kept (s : string) :
  JsText.allChars JsText.keptChar (Js.stripOthers s) = true.
Proof.
  induction s as [|c s IH]; cbn; [reflexivity|].
  destruct (Js.isLowerAlnum c || Js.isSpace c) eqn:E; [|exact IH].
  cbn. unfold JsText.keptChar at 1. now rewrite E.
Qed.

Lemma stripOthers_fixed (s : string) :
  JsText.allChars JsText.keptChar s = true -> Js.stripOthers s = s.
Proof.
  induction s as [|c s IH]; cbn; [reflexivity|].
  intros H. apply andb_true_iff in H. destruct H as [Hc Hs].
  unfold JsText.keptChar in Hc. now rewrite Hc, (IH Hs).
Qed.

Lemma trimStart_allChars p (s : string) :
  JsText.allChars p s = true -> JsText.allChars p (Js.trimStart s) = true.
Proof.
  induction s as [|c s IH]; cbn; [trivial|].
  intros H. destruct (Js.isSpace c); [|exact H].
  apply andb_true_iff in H. now apply IH.
Qed.

Lemma trimEnd_allChars p (s : string) :
  JsText.allChars p s = true -> JsText.allChars p (Js.trimEnd s) = true.
Proof.
  induction s as [|c s IH]; cbn; [trivial|].
  intros H. apply andb_true_iff in H. destruct H as [Hc Hs].
  specialize (IH Hs).
  destruct (Js.trimEnd s) eqn:E.
  - destruct (Js.isSpace c); cbn; [reflexivity|]. now rewrite Hc.
  - cbn in *. now rewrite Hc, IH.
Qed.

Lemma trimEnd_trimEnd (s : string) : Js.trimEnd (Js.trimEnd s) = Js.trimEnd s.
Proof.
  induction s as [|c s IH]; cbn; [reflexivity|].
  destruct (Js.trimEnd s) as [|d t] eqn:E.
  - destruct (Js.isSpace c) eqn:Ec; cbn; [reflexivity|]. now rewrite Ec.
  - change (Js.trimEnd (String c (String d t)))
      with (match Js.trimEnd (String d t) with
            | EmptyString => if Js.isSpace c then EmptyString else String c EmptyString
            | String a s0 => String c (String a s0)
            end).
    now rewrite IH.
Qed.

Lemma trimEnd_firstChar (s : string) :
  JsText.isSomeSpace (JsText.firstChar s) = false ->
  JsText.firstChar (Js.trimEnd s) = JsText.firstChar s.
Proof.
  destruct s as [|c s]; cbn; [reflexivity|].
  intros Hc. destruct (Js.trimEnd s); [|reflexivity].
  now rewrite Hc.
Qed.

Lemma trimStart_firstChar (s : string) :
  JsText.isSomeSpace (JsText.firstChar (Js.trimStart s)) = false.
Proof.
  induction s as [|c s IH]; cbn; [reflexivity|].
  destruct (Js.isSpace c) eqn:E; [exact IH|]. cbn. exact E.
Qed.

Lemma trimStart_fixed (s : string) :
  JsText.isSomeSpace (JsText.firstChar s) = false -> Js.trimStart s = s.
Proof.
  destruct s as [|c s]; cbn; [reflexivity|]. now intros ->.
Qed.

Lemma trim_firstChar (s : string) :
  JsText.isSomeSpace (JsText.firstChar (Js.trim s)) = false.
Proof.
  unfold Js.trim. rewrite trimEnd_firstChar; apply trimStart_firstChar.
Qed.

Lemma trim_trim (s : string) : Js.trim (Js.trim s) = Js.trim s.
Proof.
  unfold Js.trim at 1.
  rewrite (trimStart_fixed _ (trim_firstChar s)).
  unfold Js.trim. apply trimEnd_trimEnd.
Qed.

Lemma normalizeTitle_kept (title : string) :
  JsText.allChars JsText.keptChar (normalizeTitle title) = true.
Proof.
  unfold normalizeTitle, Js.trim.
  apply trimEnd_allChars, trimStart_allChars, stripOthers_kept.
Qed.

(** X1: normalizing a normalized title changes nothing. *)
Theorem normalizeTitle_idempotent (title : string) :
  normalizeTitle (normalizeTitle title) = normalizeTitle title.
Proof.
  pose proof (normalizeTitle_kept title) as H.
  unfold normalizeTitle at 1.
  rewrite (toLowerCase_fixed _ H), (stripOthers_fixed _ H).
  unfold normalizeTitle. apply trim_trim.
Qed.

(* ------------------------------------------------------------------ *)
(** * Candidate normalizer on code units *)

Module Utf16Facts.

Import Utf16.
Local Open Scope N_scope.

Lemma lowerKept_kept (c : N) : forallb keptUnit (lowerKept c) = true.
Proof.
  unfold lowerKept.
  destruct ((65 <=? c) && (c <=? 90)) eqn:E1.
  - apply andb_true_iff in E1. destruct E1 as [A B].
    apply N.leb_le in A, B. cbn [forallb]. rewrite andb_true_r.
    unfold keptUnit, isLowerAlnum.
    assert (H1 : (97 <=? c + 32) = true) by (apply N.leb_le; lia).
    assert (H2 : (c + 32 <=? 122) = true) by (apply N.leb_le; lia).
    now rewrite H1, H2.
  - destruct (c =? 304); [reflexivity|].
    destruct (c =? 8490); [reflexivity|].
    destruct (keptUnit c) eqn:E; cbn [forallb]; [now rewrite E|reflexivity].
Qed.

Lemma lowerStrip_kept (s : list N) : forallb keptUnit (lowerStrip s) = true.
Proof.
  unfold lowerStrip. induction s as [|c s IH]; cbn [flat_map]; [reflexivity|].
  rewrite forallb_app, lowerKept_kept, IH. reflexivity.
Qed.

Lemma trimStart_forallb p (s : list N) :
  forallb p s = true -> forallb p (trimStart s) = true.
Proof.
  induction s as [|c s IH]; cbn; [trivial|].
  intros H. destruct (isSpace c); [|exact H].
  apply andb_true_iff in H. now apply IH.
Qed.

Lemma trimEnd_forallb p (s : list N) :
  forallb p s = true -> forallb p (trimEnd s) = true.
Proof.
  induction s as [|c s IH]; cbn [trimEnd forallb]; [trivial|].
  intros H. apply andb_true_iff in H. destruct H as [Hc Hs].
  specialize (IH Hs).
  destruct (trimEnd s) eqn:E.
  - destruct (isSpace c); cbn; [reflexivity|]. now rewrite Hc.
  - cbn [forallb] in *. now rewrite Hc, IH.
Qed.

Lemma trimStart_first (s : list N) : isSomeSpace (hd_error (trimStart s)) = false.
Proof.
  induction s as [|c s IH]; cbn; [reflexivity|].
  destruct (isSpace c) eqn:E; [exact IH|]. cbn. exact E.
Qed.

Lemma trimEnd_first (s : list N) :
  isSomeSpace (hd_error s) = false -> hd_error (trimEnd s) = hd_error s.
Proof.
  destruct s as [|c s]; cbn; [reflexivity|].
  intros Hc. destruct (trimEnd s); [|reflexivity].
  now rewrite Hc.
Qed.

Lemma trimEnd_last (s : list N) : isSomeSpace (lastUnit (trimEnd s)) = false.
Proof.
  induction s as [|c s IH]; cbn [trimEnd]; [reflexivity|].
  destruct (trimEnd s) as [|d t] eqn:E.
  - destruct (isSpace c) eqn:Ec; cbn; [reflexivity|exact Ec].
  - exact IH.
Qed.

Lemma lowerKept_lowerAscii (c : N) : lowerKept (lowerAscii c) = lowerKept c.
Proof.
  unfold lowerAscii. destruct ((65 <=? c) && (c <=? 90)) eqn:E; [|reflexivity].
  unfold lowerKept at 2. rewrite E.
  apply andb_true_iff in E. destruct E as [A B]. apply N.leb_le in A, B.
  unfold lowerKept.
  assert (H1 : (c + 32 <=? 90) = false) by (apply N.leb_gt; lia).
  rewrite H1, andb_false_r.
  assert (H2 : (c + 32 =? 304) = false) by (apply N.eqb_neq; lia).
  assert (H3 : (c + 32 =? 8490) = false) by (apply N.eqb_neq; lia).
  rewrite H2, H3.
  unfold keptUnit, isLowerAlnum.
  assert (H4 : (97 <=? c + 32) = true) by (apply N.leb_le; lia).
  assert (H5 : (c + 32 <=? 122) = true) by (apply N.leb_le; lia).
  now rewrite H4, H5.
Qed.

Lemma lowerKept_other (p : N) :
  isAlnum p = false -> isSpace p = false -> p <> 304 -> p <> 8490 ->
  lowerKept p = [].
Proof.
  unfold isAlnum, lowerAscii, lowerKept, keptUnit.
  intros Ha Hs H1 H2.
  destruct ((65 <=? p) && (p <=? 90)) eqn:E.
  - exfalso. apply andb_true_iff in E. destruct E as [A B]. apply N.leb_le in A, B.
    unfold isLowerAlnum in Ha.
    assert (H4 : (97 <=? p + 32) = true) by (apply N.leb_le; lia).
    assert (H5 : (p + 32 <=? 122) = true) by (apply N.leb_le; lia).
    rewrite H4, H5 in Ha. discriminate.
  - apply N.eqb_neq in H1, H2. now rewrite H1, H2, Ha, Hs.
Qed.

Lemma lowerStrip_app (a b : list N) : lowerStrip (a ++ b) = lowerStrip a ++ lowerStrip b.
Proof. apply flat_map_app. Qed.

Lemma lowerStrip_lowerAscii (s : list N) : lowerStrip (map lowerAscii s) = lowerStrip s.
Proof.
  unfold lowerStrip. induction s as [|c s IH]; cbn [map flat_map]; [reflexivity|].
  now rewrite lowerKept_lowerAscii, IH.
Qed.

(** ** The 8-bit model of the pool agrees with this one on ASCII titles *)

Lemma isSpace_units (c : ascii) :
  JsText.keptChar c = true -> isSpace (N_of_ascii c) = Js.isSpace c.
Proof. each_ascii c; intros H; try reflexivity; discriminate H. Qed.

Lemma lowerKept_units (c : ascii) :
  isAscii c = true ->
  lowerKept (N_of_ascii c)
  = units (Js.stripOthers (String (Js.lowerChar c) EmptyString)).
Proof. each_ascii c; intros H; try reflexivity; discriminate H. Qed.

Lemma lowerStrip_units (s : string) :
  JsText.allChars isAscii s = true ->
  lowerStrip (units s) = units (Js.stripOthers (Js.toLowerCase s)).
Proof.
  induction s as [|c s IH]; [reflexivity|].
  cbn [JsText.allChars]. intros H. apply andb_true_iff in H. destruct H as [Hc Hs].
  cbn [units Js.toLowerCase]. unfold lowerStrip. cbn [flat_map].
  fold (lowerStrip (units s)). rewrite (IH Hs), (lowerKept_units c Hc).
  cbn [Js.stripOthers].
  destruct (Js.isLowerAlnum (Js.lowerChar c) || Js.isSpace (Js.lowerChar c));
    reflexivity.
Qed.

Lemma trimStart_units (s : string) :
  JsText.allChars JsText.keptChar s = true ->
  trimStart (units s) = units (Js.trimStart s).
Proof.
  induction s as [|c s IH]; [reflexivity|].
  cbn [JsText.allChars]. intros H. apply andb_true_iff in H. destruct H as [Hc Hs].
  cbn [units trimStart Js.trimStart]. rewrite (isSpace_units c Hc).
  destruct (Js.isSpace c); [now apply IH|reflexivity].
Qed.

Lemma trimEnd_units (s : string) :
  JsText.allChars JsText.keptChar s = true ->
  trimEnd (units s) = units (Js.trimEnd s).
Proof.
  induction s as [|c s IH]; [reflexivity|].
  cbn [JsText.allChars]. intros H. apply andb_true_iff in H. destruct H as [Hc Hs].
  cbn [units trimEnd Js.trimEnd]. rewrite (IH Hs), (isSpace_units c Hc).
  destruct (Js.trimEnd s) as [|d t]; cbn [units].
  - destruct (Js.isSpace c); reflexivity.
  - reflexivity.
Qed.

End Utf16Facts.

(** The 8-bit model of the pool is this one on titles of ASCII
    characters. *)
Lemma normalizeTitle_units (title : string) :
  JsText.allChars Utf16.isAscii title = true ->
  Utf16.normalizeTitle (Utf16.units title) = Utf16.units (normalizeTitle title).
Proof.
  intros H. unfold Utf16.normalizeTitle, normalizeTitle, Utf16.trim, Js.trim.
  rewrite (Utf16Facts.lowerStrip_units title H).
  pose proof (stripOthers_kept (Js.toLowerCase title)) as Hk.
  rewrite (Utf16Facts.trimStart_units _ Hk).
  now rewrite (Utf16Facts.trimEnd_units _ (trimStart_allChars _ _ Hk)).
Qed.

(** X2: a normalized title holds the letters a-z, digits and whitespace
    only, whitespace as the language defines it, which leaves U+00A0 or
    U+2003 in a key; and it neither starts nor ends with whitespace. *)
Theorem normalizeTitle_shape (title : list N) :
  forallb Utf16.keptUnit (Utf16.normalizeTitle title) = true
  /\ Utf16.isSomeSpace (hd_error (Utf16.normalizeTitle title)) = false
  /\ Utf16.isSomeSpace (Utf16.lastUnit (Utf16.normalizeTitle title)) = false
  /\ Utf16.normalizeTitle [103; 160; 8195; 99]%N = [103; 160; 8195; 99]%N.
Proof.
  unfold Utf16.normalizeTitle, Utf16.trim. split; [|split; [|split]].
  - apply Utf16Facts.trimEnd_forallb, Utf16Facts.trimStart_forallb,
      Utf16Facts.lowerStrip_kept.
  - rewrite Utf16Facts.trimEnd_first; apply Utf16Facts.trimStart_first.
  - apply Utf16Facts.trimEnd_last.
  - reflexivity.
Qed.

(** X3: the normalized title does not depend on the case of a letter
    A-Z, nor on a character that is neither an ASCII letter or digit nor
    whitespace nor one of U+0130 and U+212A; these two count as i and
    k. *)
Theorem normalizeTitle_ignores_case_and_punctuation (a b : list N) (p : N) :
  Utf16.normalizeTitle (map Utf16.lowerAscii (a ++ b)) = Utf16.normalizeTitle (a ++ b)
  /\ (Utf16.isAlnum p = false -> Utf16.isSpace p = false ->
      p <> 304%N -> p <> 8490%N ->
      Utf16.normalizeTitle (a ++ p :: b) = Utf16.normalizeTitle (a ++ b))
  /\ Utf16.normalizeTitle (a ++ 304%N :: b) = Utf16.normalizeTitle (a ++ 105%N :: b)
  /\ Utf16.normalizeTitle (a ++ 8490%N :: b) = Utf16.normalizeTitle (a ++ 107%N :: b).
Proof.
  unfold Utf16.normalizeTitle. split; [|split; [|split]].
  - now rewrite Utf16Facts.lowerStrip_lowerAscii.
  - intros Ha Hs H1 H2. rewrite !Utf16Facts.lowerStrip_app.
    unfold Utf16.lowerStrip at 2. cbn [flat_map].
    now rewrite (Utf16Facts.lowerKept_other p Ha Hs H1 H2).
  - rewrite !Utf16Facts.lowerStrip_app. reflexivity.
  - rewrite !Utf16Facts.lowerStrip_app. reflexivity.
Qed.

Lemma normalizeTitle_ignores_case_and_punctuation_witness :
  Utf16.normalizeTitle (Utf16.units "Gun ban?")
  = Utf16.normalizeTitle (Utf16.units "Gun ban").
Proof.
  apply (proj1 (proj2 (normalizeTitle_ignores_case_and_punctuation
                         (Utf16.units "Gun ban") [] 63%N)));
    first [reflexivity|discriminate].
Defined.

(* ------------------------------------------------------------------ *)
(** * Token overlap *)

Lemma ofNat_le (n m : nat) : (n <= m)%nat -> ofNat n <= ofNat m.
Proof.
  intros H. unfold ofNat. rewrite <- Zle_Qle. lia.
Qed.

Lemma ofNat_pos (n : nat) : (0 < n)%nat -> 0 < ofNat n.
Proof.
  intros H. unfold ofNat. change 0 with (inject_Z 0). rewrite <- Zlt_Qlt. lia.
Qed.

Lemma sharedCount_le (keyWords existingWords : list string) :
  (sharedCount keyWords existingWords <= List.length keyWords)%nat.
Proof.
  rewrite sharedCount_filter. apply filter_length_le.
Qed.

Lemma overlapOf_unit (keyWords existingWords : list string) :
  0 <= overlapOf keyWords existingWords <= 1.
Proof.
  unfold overlapOf.
  set (m := Nat.max (Nat.max (List.length keyWords) (List.length existingWords)) 1).
  assert (Hm : 0 < ofNat m) by (apply ofNat_pos; lia).
  split.
  - apply Qle_shift_div_l; [exact Hm|]. rewrite Qmult_0_l. apply ofNat_nonneg.
  - apply Qle_shift_div_r; [exact Hm|]. rewrite Qmult_1_l.
    apply ofNat_le. pose proof (sharedCount_le keyWords existingWords). lia.
Qed.

Lemma sharedCount_sym (a b : list string) :
  NoDup a -> NoDup b -> sharedCount a b = sharedCount b a.
Proof.
  intros Ha Hb. rewrite !sharedCount_filter.
  apply Permutation_length, NoDup_Permutation.
  - now apply NoDup_filter.
  - now apply NoDup_filter.
  - intros x. rewrite !filter_In, !has_In. tauto.
Qed.

Lemma sharedCount_self (a : list string) : sharedCount a a = List.length a.
Proof.
  rewrite sharedCount_filter. f_equal.
  apply forallb_filter_id. apply forallb_forall.
  intros x Hx. now apply has_In.
Qed.

Lemma overlap_self (key : string) : longWords key <> [] -> overlap key key == 1.
Proof.
  intros H. unfold overlap, overlapOf. rewrite sharedCount_self.
  assert (Hn : (0 < List.length (longWords key))%nat).
  { destruct (longWords key); [congruence|cbn; lia]. }
  replace (Nat.max (Nat.max (List.length (longWords key)) (List.length (longWords key))) 1)
    with (List.length (longWords key)) by lia.
  apply Qmult_inv_r. intros E.
  pose proof (ofNat_pos _ Hn) as Hp. rewrite E in Hp. discriminate Hp.
Qed.

(** X4: the overlap of two keys lies in [0,1] and does not depend on which
    of the two is the new key. *)
Theorem overlap_unit_symmetric (key existingKey : string) :
  0 <= overlap key existingKey <= 1
  /\ overlap key existingKey = overlap existingKey key.
Proof.
  split; [apply overlapOf_unit|].
  unfold overlap, overlapOf.
  rewrite (sharedCount_sym (longWords key) (longWords existingKey)).
  - now rewrite (Nat.max_comm (List.length (longWords key))).
  - apply longWords_spec.
  - apply longWords_spec.
Qed.

(** X5: a key that has a word longer than three characters overlaps
    itself fully, so the matcher finds a cluster whenever the pool already
    holds that key. *)
Theorem findBestMatch_same_key (key : string) (map : Pool) (val : MergedCandidate) :
  longWords key <> [] ->
  In (key, val) map ->
  overlap key key == 1
  /\ exists found, findBestMatch key map = Some found.
Proof.
  intros Hk Hin. pose proof (overlap_self key Hk) as H1.
  split; [exact H1|].
  unfold findBestMatch.
  destruct (findBestMatchAt_spec key map)
    as [[_ Hnone]|(i & k & v & Hres & _)].
  - exfalso. apply (Hnone key val Hin). rewrite H1. reflexivity.
  - rewrite Hres. now exists v.
Qed.

Lemma findBestMatch_same_key_witness :
  exists found,
    findBestMatch "immigration reform"
      [("immigration reform"%string, someCluster)] = Some found.
Proof.
  refine (proj2 (findBestMatch_same_key "immigration reform"
                   [("immigration reform"%string, someCluster)] someCluster _ _)).
  - discriminate.
  - left. reflexivity.
Defined.

(* ------------------------------------------------------------------ *)
(** * Signal merger: what the three loops keep *)

Lemma fold_left_invariant {A B : Type} (P : A -> Prop) (f : A -> B -> A)
  (l : list B) :
  (forall acc x, P acc -> P (f acc x)) ->
  forall init, P init -> P (fold_left f l init).
Proof.
  intros Hstep. induction l as [|x l IH]; intros init Hinit; cbn; [exact Hinit|].
  apply IH, Hstep, Hinit.
Qed.

Lemma Map_set_In key val (m : Pool) e :
  In e (Map_set key val m) -> e = (key, val) \/ In e m.
Proof.
  induction m as [|[k v] m IH]; cbn.
  - intros [<-|[]]. now left.
  - destruct (String.eqb k key) eqn:E.
    + apply String.eqb_eq in E. subst k. intros [<-|H]; [now left|right; now right].
    + intros [<-|H]; [right; now left|].
      destruct (IH H) as [->|H']; [now left|right; now right].
Qed.

Lemma Map_mutate_In i f (m : Pool) e :
  In e (Map_mutate i f m) ->
  In e m \/ exists v, In (fst e, v) m /\ snd e = f v.
Proof.
  revert i. induction m as [|[k v] m IH]; intros [|i]; cbn; try tauto.
  - intros [<-|H]; [|left; now right].
    right. exists v. cbn. split; [now left|reflexivity].
  - intros [<-|H]; [left; now left|].
    destruct (IH i H) as [H'|[v' [H1 H2]]]; [left; now right|].
    right. exists v'. split; [now right|exact H2].
Qed.

Lemma Map_mutate_keys i f (m : Pool) : map fst (Map_mutate i f m) = map fst m.
Proof.
  revert i. induction m as [|[k v] m IH]; intros [|i]; cbn; try reflexivity.
  now rewrite IH.
Qed.

Lemma Map_set_keys_In key val (m : Pool) x :
  In x (map fst (Map_set key val m)) <-> x = key \/ In x (map fst m).
Proof.
  induction m as [|[k v] m IH]; cbn.
  - intuition congruence.
  - destruct (String.eqb k key) eqn:E; cbn.
    + apply String.eqb_eq in E. subst k. intuition congruence.
    + rewrite IH. intuition congruence.
Qed.

Lemma Map_set_keys_NoDup key val (m : Pool) :
  NoDup (map fst m) -> NoDup (map fst (Map_set key val m)).
Proof.
  induction m as [|[k v] m IH]; cbn; intros H.
  - repeat constructor. intros [].
  - inversion H as [|? ? Hk Hm]; subst.
    destruct (String.eqb k key) eqn:E; cbn.
    + now constructor.
    + constructor; [|now apply IH].
      rewrite Map_set_keys_In. intros [->|Hin]; [|contradiction].
      rewrite String.eqb_refl in E. discriminate.
Qed.

Lemma Map_set_fresh key val (m : Pool) :
  ~ In key (map fst m) -> Map_set key val m = m ++ [(key, val)].
Proof.
  induction m as [|[k v] m IH]; cbn; intros H; [reflexivity|].
  destruct (String.eqb k key) eqn:E.
  - apply String.eqb_eq in E. tauto.
  - rewrite IH; tauto.
Qed.

Lemma Map_set_length key val (m : Pool) :
  (List.length m <= List.length (Map_set key val m) <= S (List.length m))%nat.
Proof.
  induction m as [|[k v] m IH]; cbn; [lia|].
  destruct (String.eqb k key); cbn; lia.
Qed.

Lemma Map_mutate_length i f (m : Pool) :
  List.length (Map_mutate i f m) = List.length m.
Proof.
  rewrite <- (length_map fst), Map_mutate_keys. apply length_map.
Qed.

Lemma Map_set_nth key val (m : Pool) i k c :
  nth_error m i = Some (k, c) -> k <> key ->
  nth_error (Map_set key val m) i = Some (k, c).
Proof.
  revert i. induction m as [|[k0 v0] m IH]; intros [|i]; cbn; try discriminate.
  - intros [= -> ->] Hk.
    destruct (String.eqb k key) eqn:E; [|reflexivity].
    apply String.eqb_eq in E. contradiction.
  - intros H Hk. destruct (String.eqb k0 key); cbn; [exact H|now apply IH].
Qed.

Lemma Map_mutate_nth j f (m : Pool) i k c :
  nth_error m i = Some (k, c) ->
  nth_error (Map_mutate j f m) i = Some (k, if (i =? j)%nat then f c else c).
Proof.
  revert i j. induction m as [|[k0 v0] m IH]; intros [|i] [|j]; cbn;
    try discriminate; try (intros [= -> ->]; reflexivity); try (intros H; exact H).
  intros H. now apply IH.
Qed.

Lemma contributions_app (m m' : Pool) :
  contributions (m ++ m') = (contributions m + contributions m')%nat.
Proof.
  unfold contributions, Map_values. now rewrite !map_app, list_sum_app.
Qed.

Lemma contributions_cons k c (m : Pool) :
  contributions ((k, c) :: m) = (List.length (sources c) + contributions m)%nat.
Proof. reflexivity. Qed.

Lemma Map_set_contributions key val (m : Pool) :
  (contributions (Map_set key val m)
   <= contributions m + List.length (sources val))%nat.
Proof.
  induction m as [|[k v] m IH]; cbn [Map_set].
  - rewrite contributions_cons. cbn. lia.
  - destruct (String.eqb k key); rewrite !contributions_cons; lia.
Qed.

Lemma Map_mutate_contributions i f (m : Pool) k c :
  nth_error m i = Some (k, c) ->
  (forall v, List.length (sources (f v)) = S (List.length (sources v))) ->
  contributions (Map_mutate i f m) = S (contributions m).
Proof.
  intros Hn Hf. revert i Hn.
  induction m as [|[k0 v0] m IH]; intros [|i]; cbn [nth_error Map_mutate];
    try discriminate.
  - intros _. rewrite !contributions_cons, Hf. lia.
  - intros H. rewrite !contributions_cons, (IH i H). lia.
Qed.

Lemma Map_mutate_contributions_le i f (m : Pool) :
  (forall v, List.length (sources (f v)) = S (List.length (sources v))) ->
  (contributions (Map_mutate i f m) <= S (contributions m))%nat.
Proof.
  intros Hf. revert i.
  induction m as [|[k0 v0] m IH]; intros [|i]; cbn [Map_mutate];
    rewrite ?contributions_cons; try (cbn; lia).
  - rewrite Hf. lia.
  - specialize (IH i). lia.
Qed.

Lemma setGoogle_sources g v :
  List.length (sources (setGoogle g v)) = S (List.length (sources v)).
Proof. cbn. rewrite length_app. cbn. lia. Qed.

Lemma setYoutube_sources y v :
  List.length (sources (setYoutube y v)) = S (List.length (sources v)).
Proof. cbn. rewrite length_app. cbn. lia. Qed.

(** The matcher either reports nothing, and then no pool key is the new
    key when that key has a long word, or it reports a position of the
    pool. *)
Lemma findBestMatchAt_cases (key : string) (map : Pool) :
  (findBestMatchAt key map = None
   /\ (longWords key <> [] -> ~ In key (List.map fst map)))
  \/ (exists i k v,
        findBestMatchAt key map = Some (i, v) /\ nth_error map i = Some (k, v)).
Proof.
  destruct (findBestMatchAt_spec key map)
    as [[Hres Hnone]|(i & k & v & Hres & Hnth & _)].
  - left. split; [exact Hres|].
    intros Hk Hin. apply in_map_iff in Hin. destruct Hin as [[k v] [E Hin]].
    cbn in E. subst k. apply (Hnone key v Hin).
    rewrite (overlap_self key Hk). reflexivity.
  - right. now exists i, k, v.
Qed.

Lemma slotsConsistent_reddit (r : Reddit.t) :
  slotsConsistent
    {| title := Reddit.title r;
       reddit_divisiveness := Reddit.divisiveness_score r;
       reddit_comments := Reddit.total_comments r;
       reddit_subreddits := Reddit.subreddits r;
       google_score := 0;
       youtube_divisiveness := 0;
       sources := [reddit] |}.
Proof.
  unfold slotsConsistent. cbn.
  split; [discriminate|]. split; [lia|]. split; [|split; intros _; reflexivity].
  intros Hn. exfalso. apply Hn. now left.
Qed.

Lemma slotsConsistent_setGoogle (g : Trend.t) (c : MergedCandidate) :
  slotsConsistent c -> slotsConsistent (setGoogle g c).
Proof.
  intros (Hne & Hcount & Hr & Hg & Hy). unfold slotsConsistent. cbn.
  split; [|split; [|split; [|split]]].
  - intros E. apply app_eq_nil in E. destruct E as [_ E]. discriminate.
  - rewrite count_occ_app. cbn. lia.
  - intros H. apply Hr. intros Hin. apply H, in_or_app. now left.
  - intros H. exfalso. apply H, in_or_app. right. now left.
  - intros H. apply Hy. intros Hin. apply H, in_or_app. now left.
Qed.

Lemma slotsConsistent_setYoutube (y : Youtube.t) (c : MergedCandidate) :
  slotsConsistent c -> slotsConsistent (setYoutube y c).
Proof.
  intros (Hne & Hcount & Hr & Hg & Hy). unfold slotsConsistent. cbn.
  split; [|split; [|split; [|split]]].
  - intros E. apply app_eq_nil in E. destruct E as [_ E]. discriminate.
  - rewrite count_occ_app. cbn. lia.
  - intros H. apply Hr. intros Hin. apply H, in_or_app. now left.
  - intros H. apply Hg. intros Hin. apply H, in_or_app. now left.
  - intros H. exfalso. apply H, in_or_app. right. now left.
Qed.

Lemma Forall_Map_set (P : string * MergedCandidate -> Prop) key val (m : Pool) :
  P (key, val) -> Forall P m -> Forall P (Map_set key val m).
Proof.
  intros Hv Hm. apply Forall_forall. intros e He.
  destruct (Map_set_In _ _ _ _ He) as [->|Hin]; [exact Hv|].
  rewrite Forall_forall in Hm. now apply Hm.
Qed.

Lemma Forall_Map_mutate (Q : MergedCandidate -> Prop) i f (m : Pool) :
  (forall v, Q v -> Q (f v)) ->
  Forall (fun e => Q (snd e)) m -> Forall (fun e => Q (snd e)) (Map_mutate i f m).
Proof.
  intros Hf Hm. rewrite Forall_forall in *. intros e He.
  destruct (Map_mutate_In _ _ _ _ He) as [Hin|[v [Hin E]]]; [now apply Hm|].
  rewrite E. apply Hf. exact (Hm _ Hin).
Qed.

Lemma addReddit_consistent (pool : Pool) (r : Reddit.t) :
  Forall (fun e => slotsConsistent (snd e)) pool ->
  Forall (fun e => slotsConsistent (snd e)) (addReddit pool r).
Proof.
  intros H. unfold addReddit. apply Forall_Map_set; [|exact H].
  apply slotsConsistent_reddit.
Qed.

Lemma mergeGoogle_consistent (pool : Pool) (g : Trend.t) :
  Forall (fun e => slotsConsistent (snd e)) pool ->
  Forall (fun e => slotsConsistent (snd e)) (mergeGoogle pool g).
Proof.
  intros H. unfold mergeGoogle.
  destruct (findBestMatchAt _ pool) as [[i v]|].
  - apply Forall_Map_mutate; [apply slotsConsistent_setGoogle|exact H].
  - apply Forall_Map_set; [|exact H].
    unfold slotsConsistent. cbn.
    split; [discriminate|]. split; [lia|]. split; [intros _; repeat split|].
    split; [|intros _; reflexivity].
    intros Hn. exfalso. apply Hn. now left.
Qed.

Lemma mergeYoutube_consistent (pool : Pool) (y : Youtube.t) :
  Forall (fun e => slotsConsistent (snd e)) pool ->
  Forall (fun e => slotsConsistent (snd e)) (mergeYoutube pool y).
Proof.
  intros H. unfold mergeYoutube.
  destruct (findBestMatchAt _ pool) as [[i v]|].
  - apply Forall_Map_mutate; [apply slotsConsistent_setYoutube|exact H].
  - apply Forall_Map_set; [|exact H].
    unfold slotsConsistent. cbn.
    split; [discriminate|]. split; [lia|]. split; [intros _; repeat split|].
    split; [intros _; reflexivity|].
    intros Hn. exfalso. apply Hn. now left.
Qed.

(** X6: in the pool after the three loops every cluster lists at least one
    source and lists Reddit at most once, and the slot of every source it
    does not list is zero (empty, for the subreddits). *)
Theorem mergePool_slots_consistent
  (redditCandidates : list Reddit.t) (googleTrends : list Trend.t)
  (youtubeCandidates : list Youtube.t) :
  Forall slotsConsistent
    (Map_values (mergePool redditCandidates googleTrends youtubeCandidates)).
Proof.
  unfold Map_values. apply Forall_map. unfold mergePool.
  apply fold_left_invariant; [apply mergeYoutube_consistent|].
  apply fold_left_invariant; [apply mergeGoogle_consistent|].
  apply fold_left_invariant; [apply addReddit_consistent|].
  constructor.
Qed.

Lemma fold_left_within {B : Type} (f : Pool -> B -> Pool) (l : list B) :
  (forall n acc x, poolWithin n acc -> poolWithin (S n) (f acc x)) ->
  forall n init, poolWithin n init ->
    poolWithin (n + List.length l) (fold_left f l init).
Proof.
  intros Hstep. induction l as [|x l IH]; intros n init Hinit; cbn.
  - now rewrite Nat.add_0_r.
  - rewrite Nat.add_succ_r. apply (IH (S n)), Hstep, Hinit.
Qed.

Lemma Map_set_within n key val (pool : Pool) :
  List.length (sources val) = 1%nat ->
  poolWithin n pool -> poolWithin (S n) (Map_set key val pool).
Proof.
  intros Hv (Hk & Hl & Hc). split; [|split].
  - now apply Map_set_keys_NoDup.
  - pose proof (Map_set_length key val pool). lia.
  - pose proof (Map_set_contributions key val pool). lia.
Qed.

Lemma Map_mutate_within n i f (pool : Pool) :
  (forall v, List.length (sources (f v)) = S (List.length (sources v))) ->
  poolWithin n pool -> poolWithin (S n) (Map_mutate i f pool).
Proof.
  intros Hf (Hk & Hl & Hc). split; [|split].
  - now rewrite Map_mutate_keys.
  - rewrite Map_mutate_length. lia.
  - pose proof (Map_mutate_contributions_le i f pool Hf). lia.
Qed.

Lemma addReddit_within n (pool : Pool) (r : Reddit.t) :
  poolWithin n pool -> poolWithin (S n) (addReddit pool r).
Proof. apply Map_set_within. reflexivity. Qed.

Lemma mergeGoogle_within n (pool : Pool) (g : Trend.t) :
  poolWithin n pool -> poolWithin (S n) (mergeGoogle pool g).
Proof.
  unfold mergeGoogle. destruct (findBestMatchAt _ pool) as [[i v]|].
  - apply Map_mutate_within, setGoogle_sources.
  - apply Map_set_within. reflexivity.
Qed.

Lemma mergeYoutube_within n (pool : Pool) (y : Youtube.t) :
  poolWithin n pool -> poolWithin (S n) (mergeYoutube pool y).
Proof.
  unfold mergeYoutube. destruct (findBestMatchAt _ pool) as [[i v]|].
  - apply Map_mutate_within, setYoutube_sources.
  - apply Map_set_within. reflexivity.
Qed.

(** X7: the pool after the three loops has pairwise distinct keys, and
    neither its clusters nor the sources its clusters list outnumber the
    candidates handed in. *)
Theorem mergePool_within
  (redditCandidates : list Reddit.t) (googleTrends : list Trend.t)
  (youtubeCandidates : list Youtube.t) :
  poolWithin
    (List.length redditCandidates + List.length googleTrends
     + List.length youtubeCandidates)
    (mergePool redditCandidates googleTrends youtubeCandidates).
Proof.
  unfold mergePool.
  apply (fold_left_within mergeYoutube); [apply mergeYoutube_within|].
  apply (fold_left_within mergeGoogle); [apply mergeGoogle_within|].
  apply (fold_left_within addReddit 
           redditCandidates addReddit_within 0%nat []).
  repeat split; cbn; try lia. constructor.
Qed.

(** X8: a trend folded into a pool leaves the title, the Reddit slots and
    the YouTube slot of every cluster as they were, and keeps every
    cluster at its position, provided the cluster is stored under another
    key than the trend's or that key has a long word; likewise a video
    leaves the title, the Reddit slots and the Google slot. *)
Theorem fold_keeps_other_slots (pool : Pool) (g : Trend.t) (y : Youtube.t)
  (i : nat) (k : string) (c : MergedCandidate) :
  nth_error pool i = Some (k, c) ->
  (k <> normalizeTitle (Trend.title g)
   \/ longWords (normalizeTitle (Trend.title g)) <> [] ->
   exists c',
     nth_error (mergeGoogle pool g) i = Some (k, c')
     /\ sameRedditSide c c'
     /\ youtube_divisiveness c' = youtube_divisiveness c)
  /\ (k <> normalizeTitle (Youtube.title y)
      \/ longWords (normalizeTitle (Youtube.title y)) <> [] ->
      exists c',
        nth_error (mergeYoutube pool y) i = Some (k, c')
        /\ sameRedditSide c c'
        /\ google_score c' = google_score c).
Proof.
  intros Hn. split; intros Hk.
  - unfold mergeGoogle.
    destruct (findBestMatchAt_cases (normalizeTitle (Trend.title g)) pool)
      as [[-> Hfresh]|(j & k' & v & -> & _)].
    + exists c. repeat split.
      apply Map_set_nth; [exact Hn|].
      destruct Hk as [Hk|Hk]; [exact Hk|].
      intros ->. apply (Hfresh Hk).
      apply in_map_iff. exists (normalizeTitle (Trend.title g), c).
      split; [reflexivity|]. eapply nth_error_In. exact Hn.
    + rewrite (Map_mutate_nth j (setGoogle g) pool i k c Hn).
      destruct (i =? j)%nat; eexists; repeat split.
  - unfold mergeYoutube.
    destruct (findBestMatchAt_cases (normalizeTitle (Youtube.title y)) pool)
      as [[-> Hfresh]|(j & k' & v & -> & _)].
    + exists c. repeat split.
      apply Map_set_nth; [exact Hn|].
      destruct Hk as [Hk|Hk]; [exact Hk|].
      intros ->. apply (Hfresh Hk).
      apply in_map_iff. exists (normalizeTitle (Youtube.title y), c).
      split; [reflexivity|]. eapply nth_error_In. exact Hn.
    + rewrite (Map_mutate_nth j (setYoutube y) pool i k c Hn).
      destruct (i =? j)%nat; eexists; repeat split.
Qed.

Lemma fold_keeps_other_slots_witness :
  exists c',
    nth_error (mergeGoogle (mergePool [gunControlPost] [] []) gunControlTrend) 0
    = Some ("senate debates gun control bill"%string, c')
    /\ reddit_divisiveness c' = 0.8.
Proof.
  assert (Hn : nth_error (mergePool [gunControlPost] [] []) 0
               = Some ("senate debates gun control bill"%string,
                       mkMerged "Senate debates gun control bill" 0.8 1200
                         ["politics"%string] 0 0 [reddit]))
    by (vm_compute; reflexivity).
  assert (Hk : longWords (normalizeTitle (Trend.title gunControlTrend)) <> [])
    by (vm_compute; discriminate).
  destruct (proj1 (fold_keeps_other_slots _ gunControlTrend (Youtube.mk "" 0)
                     _ _ _ Hn) (or_intror Hk))
    as (c' & Hn' & (_ & Hr & _) & _).
  exists c'. split; [exact Hn'|exact Hr].
Defined.

(** X9: a trend or a video whose key has a word longer than three
    characters is never dropped and drops nothing: after the fold the
    clusters list exactly one source more than before, and no cluster is
    lost. *)
Theorem fold_with_long_word_adds_one (pool : Pool) (g : Trend.t) (y : Youtube.t) :
  (longWords (normalizeTitle (Trend.title g)) <> [] ->
   contributions (mergeGoogle pool g) = S (contributions pool)
   /\ (List.length pool <= List.length (mergeGoogle pool g))%nat)
  /\ (longWords (normalizeTitle (Youtube.title y)) <> [] ->
      contributions (mergeYoutube pool y) = S (contributions pool)
      /\ (List.length pool <= List.length (mergeYoutube pool y))%nat).
Proof.
  split; intros Hk.
  - unfold mergeGoogle.
    destruct (findBestMatchAt_cases (normalizeTitle (Trend.title g)) pool)
      as [[-> Hfresh]|(j & k' & v & -> & Hn)].
    + rewrite (Map_set_fresh _ _ _ (Hfresh Hk)), contributions_app, length_app.
      cbn. split; lia.
    + rewrite (Map_mutate_contributions j _ pool k' v Hn (setGoogle_sources g)),
        Map_mutate_length. split; lia.
  - unfold mergeYoutube.
    destruct (findBestMatchAt_cases (normalizeTitle (Youtube.title y)) pool)
      as [[-> Hfresh]|(j & k' & v & -> & Hn)].
    + rewrite (Map_set_fresh _ _ _ (Hfresh Hk)), contributions_app, length_app.
      cbn. split; lia.
    + rewrite (Map_mutate_contributions j _ pool k' v Hn (setYoutube_sources y)),
        Map_mutate_length. split; lia.
Qed.

Lemma fold_with_long_word_adds_one_witness :
  contributions (mergeGoogle (mergePool [gunControlPost] [] []) gunControlTrend)
  = S (contributions (mergePool [gunControlPost] [] [])).
Proof.
  refine (proj1 (proj1 (fold_with_long_word_adds_one
                          (mergePool [gunControlPost] [] []) gunControlTrend
                          (Youtube.mk "" 0)) _)).
  vm_compute. discriminate.
Defined.

(* ------------------------------------------------------------------ *)
(** * The ranking as a whole *)

Lemma sort_length (l : list Scored) : List.length (sort l) = List.length l.
Proof. symmetry. apply Permutation_length, sort_perm. Qed.

Lemma scoredWith_length composite (candidates : Pool) :
  List.length (scoredWith composite candidates) = List.length candidates.
Proof. unfold scoredWith, Map_values. now rewrite !length_map. Qed.

Lemma StronglySorted_app_cross (l1 l2 : list Scored) :
  StronglySorted precedes (l1 ++ l2) ->
  forall x y, In x l1 -> In y l2 -> precedes x y.
Proof.
  induction l1 as [|a l1 IH]; cbn; intros H x y Hx Hy; [contradiction|].
  inversion H as [|? ? Hs Ha]; subst.
  destruct Hx as [->|Hx].
  - rewrite Forall_forall in Ha. apply Ha, in_or_app. now right.
  - now apply IH.
Qed.

(** X10: the ranking returns min(20, number of clusters) candidates; the
    candidates it returns and the ones it cuts off are together the
    clusters of the pool, each scored once; no candidate that is cut off
    has a higher composite than one that is returned; and with at most
    twenty clusters nothing is cut off. *)
Theorem rank_keeps_the_best (composite : MergedCandidate -> Q) (candidates : Pool) :
  List.length (rankWith composite candidates)
  = Nat.min 20 (List.length candidates)
  /\ exists cut,
       Permutation (scoredWith composite candidates)
         (rankWith composite candidates ++ cut)
       /\ (forall x y, In x (rankWith composite candidates) -> In y cut ->
             composite_score y <= composite_score x)
       /\ ((List.length candidates <= 20)%nat -> cut = []).
Proof.
  unfold rankWith, slice0. fold (scoredWith composite candidates).
  set (s := sort (scoredWith composite candidates)).
  split.
  - rewrite length_firstn. unfold s.
    now rewrite sort_length, scoredWith_length.
  - exists (skipn 20 s). split; [|split].
    + rewrite firstn_skipn. apply sort_perm.
    + intros x y Hx Hy.
      assert (Hs : StronglySorted precedes (firstn 20 s ++ skipn 20 s)).
      { rewrite firstn_skipn. apply sort_sorted. }
      pose proof (StronglySorted_app_cross _ _ Hs x y Hx Hy) as Hp.
      unfold precedes, compareFn in Hp. lra.
    + intros Hl. apply skipn_all2. unfold s.
      now rewrite sort_length, scoredWith_length.
Qed.

Lemma rank_keeps_the_best_witness :
  exists cut,
    Permutation (scoredWith Divisive.composite (mergePool [gunControlPost] [] []))
      (rankWith Divisive.composite (mergePool [gunControlPost] [] []) ++ cut)
    /\ cut = [].
Proof.
  destruct (proj2 (rank_keeps_the_best Divisive.composite
                     (mergePool [gunControlPost] [] [])))
    as (cut & Hp & _ & Hcut).
  exists cut. split; [exact Hp|]. apply Hcut. vm_compute. lia.
Defined.

(** X11: the first candidate of the ranking has the largest composite of
    all clusters of the pool, and its composite is the divisiveness score
    that the topic builder stores with the topic. *)
Theorem rank_head_is_maximal (composite : MergedCandidate -> Q)
  (candidates : Pool) (top : Scored) (rest : list Scored) (c : MergedCandidate) :
  rankWith composite candidates = top :: rest ->
  In c (Map_values candidates) ->
  composite c <= composite_score top
  /\ Runner.storedDivisiveness
       (Runner.topCandidate (rankWith composite candidates))
     = composite_score top.
Proof.
  intros Hr Hc. split; [|now rewrite Hr].
  revert Hr. unfold rankWith, slice0. fold (scoredWith composite candidates).
  intros Hr.
  pose proof (sort_sorted (scoredWith composite candidates)) as Hs.
  pose proof (sort_perm (scoredWith composite candidates)) as Hp.
  destruct (sort (scoredWith composite candidates)) as [|a s] eqn:E;
    [discriminate|].
  cbn in Hr. injection Hr as <- _.
  assert (Hin : In (mkScored c (composite c)) (a :: s)).
  { apply (Permutation_in _ Hp). unfold scoredWith.
    apply in_map_iff. now exists c. }
  change (composite c) with (composite_score (mkScored c (composite c))).
  apply (head_score_max a s _ Hs Hin).
Qed.

Lemma rank_head_is_maximal_witness :
  Divisive.composite
    (mkMerged "Gun control debate" 0 5000 ["politics"%string] 0 0 [reddit])
  <= composite_score
       (mkScored (mkMerged "gun ban" 0 0 [] 0.90 0 [google_trends])
          (Divisive.composite (mkMerged "gun ban" 0 0 [] 0.90 0 [google_trends]))).
Proof.
  refine (proj1 (rank_head_is_maximal Divisive.composite
           (mergePool [busyTopic] [gunBanTrend] [])
           (mkScored (mkMerged "gun ban" 0 0 [] 0.90 0 [google_trends])
              (Divisive.composite (mkMerged "gun ban" 0 0 [] 0.90 0 [google_trends])))
           [mkScored
              (mkMerged "Gun control debate" 0 5000 ["politics"%string] 0 0 [reddit])
              (Divisive.composite
                 (mkMerged "Gun control debate" 0 5000 ["politics"%string] 0 0 [reddit]))]
           (mkMerged "Gun control debate" 0 5000 ["politics"%string] 0 0 [reddit])
           _ _)).
  - vm_compute. reflexivity.
  - vm_compute. left. reflexivity.
Defined.

(* ------------------------------------------------------------------ *)
(** * The selector's caller and the stored score *)

Section SelectorOnDoubles.

Import Binary64 Binary64Facts.

Lemma Map_set64_nonempty key val (pool : Pool) : Map_set key val pool <> [].
Proof.
  destruct pool as [|[k v] pool]; cbn; [discriminate|].
  destruct (String.eqb k key); discriminate.
Qed.

Lemma Map_mutate64_nonempty i f (pool : Pool) :
  pool <> [] -> Map_mutate i f pool <> [].
Proof.
  destruct pool as [|[k v] pool]; [tauto|]. intros _.
  destruct i; cbn; discriminate.
Qed.

Lemma findBestMatchAt64_nil key : findBestMatchAt key [] = None.
Proof. reflexivity. Qed.

Lemma mergeGoogle64_nonempty (pool : Pool) (g : Trend.t) : mergeGoogle pool g <> [].
Proof.
  unfold mergeGoogle.
  destruct (findBestMatchAt _ pool) as [[i v]|] eqn:E.
  - apply Map_mutate64_nonempty. intros ->.
    rewrite findBestMatchAt64_nil in E. discriminate.
  - apply Map_set64_nonempty.
Qed.

Lemma mergeYoutube64_nonempty (pool : Pool) (y : Youtube.t) :
  mergeYoutube pool y <> [].
Proof.
  unfold mergeYoutube.
  destruct (findBestMatchAt _ pool) as [[i v]|] eqn:E.
  - apply Map_mutate64_nonempty. intros ->.
    rewrite findBestMatchAt64_nil in E. discriminate.
  - apply Map_set64_nonempty.
Qed.

Lemma fold_left64_nonempty {B : Type} (f : Pool -> B -> Pool) (l : list B) :
  (forall acc x, f acc x <> []) ->
  forall init, fold_left f l init = [] <-> l = [] /\ init = [].
Proof.
  intros Hf. induction l as [|x l IH]; intros init; cbn.
  - tauto.
  - rewrite IH. split.
    + intros [_ E]. now elim (Hf init x).
    + intros [E _]. discriminate.
Qed.

Lemma mergePool64_nil
  (redditCandidates : list Reddit.t) (googleTrends : list Trend.t)
  (youtubeCandidates : list Youtube.t) :
  mergePool redditCandidates googleTrends youtubeCandidates = []
  <-> redditCandidates = [] /\ googleTrends = [] /\ youtubeCandidates = [].
Proof.
  unfold mergePool.
  rewrite (fold_left64_nonempty mergeYoutube _ mergeYoutube64_nonempty).
  rewrite (fold_left64_nonempty mergeGoogle _ mergeGoogle64_nonempty).
  rewrite (fold_left64_nonempty addReddit _
             (fun acc r => Map_set64_nonempty _ _ acc)).
  tauto.
Qed.

Lemma rankWith64_nil composite (candidates : Pool) :
  rankWith composite candidates = [] <-> candidates = [].
Proof.
  split.
  - intros E. apply length_zero_iff_nil.
    assert (H : List.length (rankWith composite candidates)
                = Nat.min 20 (List.length candidates)).
    { unfold rankWith, slice0.
      rewrite length_firstn, <- (Permutation_length (sort64_perm _)).
      unfold scoredWith, Map_values. now rewrite !length_map. }
    rewrite E in H. cbn [List.length] in H. lia.
  - intros ->. reflexivity.
Qed.

(** The cases of [selectTopic], for the ranking of either selector. *)
Lemma selectTopic_cases (Sel : Type) (topicExistsForDate : Outcome string bool)
  (ai : list Scored -> Outcome string Sel) (composite : MergedCandidate -> float)
  (out : Outcome SelectorError (option (Sel * list Scored)))
  (redditCandidates : list Reddit.t) (googleTrends : list Trend.t)
  (youtubeCandidates : list Youtube.t) :
  let candidates :=
    rankWith composite (mergePool redditCandidates googleTrends youtubeCandidates) in
  let allEmpty :=
    redditCandidates = [] /\ googleTrends = [] /\ youtubeCandidates = [] in
  out = match topicExistsForDate with
        | Thrown reason => Thrown (Propagated reason)
        | Returned true => Returned None
        | Returned false =>
            if (List.length candidates =? 0)%nat then Thrown NoCandidates
            else match ai candidates with
                 | Thrown reason => Thrown (Propagated reason)
                 | Returned selected => Returned (Some (selected, candidates))
                 end
        end ->
  (topicExistsForDate = Returned true -> out = Returned None)
  /\ (out = Thrown NoCandidates <-> topicExistsForDate = Returned false /\ allEmpty)
  /\ (forall reason,
        out = Thrown (Propagated reason)
        <-> topicExistsForDate = Thrown reason
            \/ (topicExistsForDate = Returned false /\ ~ allEmpty
                /\ ai candidates = Thrown reason))
  /\ (forall selected,
        topicExistsForDate = Returned false -> ~ allEmpty ->
        ai candidates = Returned selected ->
        out = Returned (Some (selected, candidates)) /\ candidates <> []).
Proof.
  intros candidates allEmpty ->.
  assert (Hnil : candidates = [] <-> allEmpty).
  { unfold candidates. rewrite rankWith64_nil. apply mergePool64_nil. }
  destruct topicExistsForDate as [[|]|reason0].
  - split; [reflexivity|]. split; [split; [discriminate|intros [E _]; discriminate]|].
    split.
    + intros reason. split; [discriminate|].
      intros [E|[E _]]; discriminate.
    + intros selected E. discriminate.
  - split; [discriminate|].
    destruct (Nat.eqb_spec (List.length candidates) 0) as [E|E].
    + apply length_zero_iff_nil in E. apply Hnil in E. split; [tauto|]. split.
      * intros reason. split; [discriminate|].
        intros [E'|(_ & Hne & _)]; [discriminate|tauto].
      * intros selected _ Hne. tauto.
    + assert (Hc : candidates <> []).
      { intros E'. apply E. now rewrite E'. }
      assert (Hne : ~ allEmpty) by tauto.
      split; [|split].
      * destruct (ai candidates); split; try discriminate; tauto.
      * intros reason. destruct (ai candidates) as [selected|reason'].
        -- split; [discriminate|]. intros [E'|(_ & _ & E')]; discriminate.
        -- split.
           ++ intros E'. injection E' as ->. right. tauto.
           ++ intros [E'|(_ & _ & E')]; [discriminate|]. now injection E' as ->.
      * intros selected _ _ ->. tauto.
  - split; [discriminate|]. split; [split; [discriminate|intros [E _]; discriminate]|].
    split.
    + intros reason. split.
      * intros E. injection E as ->. now left.
      * intros [E|[E _]]; [now injection E as ->|discriminate].
    + intros selected E. discriminate.
Qed.

(** The caller [selectTopic] is where an empty ranking becomes an error;
    the daily runner does not call it when all three lists are empty. *)
Lemma selectTopic_empty_throws (Sel : Type) (ai : list Scored -> Outcome string Sel) :
  Divisive.selectTopic (Returned false) ai [] [] [] = Thrown NoCandidates
  /\ Mainstream.selectTopic (Returned false) ai [] [] [] = Thrown NoCandidates
  /\ message NoCandidates = "No topic candidates found from any source"%string.
Proof.
  repeat split; reflexivity.
Qed.

(** X12: [selectTopic] returns null when the date already has a topic.
    Otherwise it throws its own error, "No topic candidates found from
    any source", exactly when all three lists are empty; with a candidate
    in some list the ranking is not empty and is handed to the model call,
    and [selectTopic] returns the selection together with the ranking when
    that call fulfils and fails with its error when it rejects.  The only
    other failure is that of the database lookup.  This holds for both
    selectors. *)
Theorem selectTopic_throws_iff_all_empty (Sel : Type)
  (topicExistsForDate : Outcome string bool)
  (ai : list Scored -> Outcome string Sel)
  (redditCandidates : list Reddit.t) (googleTrends : list Trend.t)
  (youtubeCandidates : list Youtube.t) :
  let allEmpty :=
    redditCandidates = [] /\ googleTrends = [] /\ youtubeCandidates = [] in
  let divisive :=
    Divisive.mergeSignals redditCandidates googleTrends youtubeCandidates in
  let mainstream :=
    Mainstream.mergeSignals redditCandidates googleTrends youtubeCandidates in
  let runDivisive :=
    Divisive.selectTopic topicExistsForDate ai redditCandidates googleTrends
      youtubeCandidates in
  let runMainstream :=
    Mainstream.selectTopic topicExistsForDate ai redditCandidates googleTrends
      youtubeCandidates in
  (topicExistsForDate = Returned true ->
   runDivisive = Returned None /\ runMainstream = Returned None)
  /\ (runDivisive = Thrown NoCandidates
      <-> topicExistsForDate = Returned false /\ allEmpty)
  /\ (runMainstream = Thrown NoCandidates
      <-> topicExistsForDate = Returned false /\ allEmpty)
  /\ (forall reason,
        (runDivisive = Thrown (Propagated reason)
         <-> topicExistsForDate = Thrown reason
             \/ (topicExistsForDate = Returned false /\ ~ allEmpty
                 /\ ai divisive = Thrown reason))
        /\ (runMainstream = Thrown (Propagated reason)
            <-> topicExistsForDate = Thrown reason
                \/ (topicExistsForDate = Returned false /\ ~ allEmpty
                    /\ ai mainstream = Thrown reason)))
  /\ (topicExistsForDate = Returned false -> ~ allEmpty ->
      divisive <> [] /\ mainstream <> []
      /\ (forall selected, ai divisive = Returned selected ->
            runDivisive = Returned (Some (selected, divisive)))
      /\ (forall selected, ai mainstream = Returned selected ->
            runMainstream = Returned (Some (selected, mainstream)))).
Proof.
  intros allEmpty divisive mainstream runDivisive runMainstream.
  destruct (selectTopic_cases Sel topicExistsForDate ai Divisive.composite
              runDivisive redditCandidates googleTrends youtubeCandidates eq_refl)
    as (D1 & D2 & D3 & D4).
  destruct (selectTopic_cases Sel topicExistsForDate ai Mainstream.composite
              runMainstream redditCandidates googleTrends youtubeCandidates eq_refl)
    as (M1 & M2 & M3 & M4).
  split; [intros H; split; [now apply D1|now apply M1]|].
  split; [exact D2|]. split; [exact M2|].
  split; [intros reason; split; [apply D3|apply M3]|].
  intros He Hne.
  assert (Hd : divisive <> []).
  { unfold divisive, Divisive.mergeSignals. rewrite rankWith64_nil, mergePool64_nil.
    exact Hne. }
  assert (Hm : mainstream <> []).
  { unfold mainstream, Mainstream.mergeSignals.
    rewrite rankWith64_nil, mergePool64_nil. exact Hne. }
  repeat split; trivial.
  - intros selected E. now apply (D4 selected He Hne E).
  - intros selected E. now apply (M4 selected He Hne E).
Qed.

Lemma selectTopic_throws_iff_all_empty_witness :
  Mainstream.selectTopic (Returned false)
    (fun _ : list Scored => @Thrown string unit "model call timed out"%string)
    [busyTopic] [] []
  = Thrown (Propagated "model call timed out"%string)
  /\ Mainstream.mergeSignals [busyTopic] [] [] <> [].
Proof.
  pose proof (selectTopic_throws_iff_all_empty unit (Returned false)
                (fun _ => Thrown "model call timed out"%string)
                [busyTopic] [] []) as H.
  cbv zeta in H. destruct H as (_ & _ & _ & H4 & H5).
  assert (Hne : ~ ([busyTopic] = [] /\ @nil Trend.t = [] /\ @nil Youtube.t = []))
    by (intros [E _]; discriminate E).
  split.
  - apply (proj2 (H4 "model call timed out"%string)). right.
    repeat split; trivial.
  - exact (proj1 (proj2 (H5 eq_refl Hne))).
Defined.

(** X13: in phase 2 of the daily runner the selector's own error, that no
    source gave a candidate, is out of reach.  When all three scrapers
    came back empty or failed, the phase ends as the fallback
    [selectTopicForDate] does; otherwise [selectTopic] runs on a list
    that is not empty, and whatever the phase fails with is what the
    database lookup or the model call failed with. *)
Theorem selectPhase_never_throws_no_candidates (Sel : Type)
  (selectTopicForDate : Outcome string (option (Sel * list Scored)))
  (topicExistsForDate : Outcome string bool)
  (ai : list Scored -> Outcome string Sel)
  (redditResults : option (list Reddit.t)) (googleResults : option (list Trend.t))
  (youtubeResults : option (list Youtube.t)) :
  let reddit := Runner.fulfilledOrEmpty redditResults in
  let google := Runner.fulfilledOrEmpty googleResults in
  let youtube := Runner.fulfilledOrEmpty youtubeResults in
  let allEmpty := reddit = [] /\ google = [] /\ youtube = [] in
  let phase :=
    selectPhase selectTopicForDate topicExistsForDate ai reddit google youtube in
  phase <> Thrown NoCandidates
  /\ (allEmpty ->
      phase = match selectTopicForDate with
              | Thrown reason => Thrown (Propagated reason)
              | Returned selectedTopic => Returned selectedTopic
              end)
  /\ (redditResults = None -> googleResults = None -> youtubeResults = None ->
      allEmpty)
  /\ (forall e, phase = Thrown e ->
        exists reason,
          e = Propagated reason
          /\ ((allEmpty /\ selectTopicForDate = Thrown reason)
              \/ (~ allEmpty
                  /\ (topicExistsForDate = Thrown reason
                      \/ ai (Mainstream.mergeSignals reddit google youtube)
                         = Thrown reason)))).
Proof.
  intros reddit google youtube allEmpty phase.
  assert (Hdec : (allEmpty /\ phase = match selectTopicForDate with
                                      | Thrown reason => Thrown (Propagated reason)
                                      | Returned selectedTopic => Returned selectedTopic
                                      end)
                 \/ (~ allEmpty
                     /\ phase = Mainstream.selectTopic topicExistsForDate ai
                                  reddit google youtube)).
  { unfold phase, selectPhase, allEmpty.
    destruct reddit as [|r reddit'], google as [|g google'],
      youtube as [|y youtube']; cbn [List.length Nat.eqb andb];
      first [ left; now repeat split
            | right; split; [intros (E1 & E2 & E3); discriminate|reflexivity] ]. }
  destruct (selectTopic_cases Sel topicExistsForDate ai Mainstream.composite
              (Mainstream.selectTopic topicExistsForDate ai reddit google youtube)
              reddit google youtube eq_refl) as (M1 & M2 & M3 & M4).
  cbv zeta in M2, M3, M4.
  fold (Mainstream.mergeSignals reddit google youtube) in M3, M4.
  subst allEmpty. cbv beta in *.
  split; [|split; [|split]].
  - destruct Hdec as [[Ha ->]|[Hn ->]].
    + destruct selectTopicForDate; discriminate.
    + intros E. apply M2 in E. tauto.
  - intros Ha. destruct Hdec as [[_ E]|[Hn _]]; [exact E|tauto].
  - intros -> -> ->. now repeat split.
  - intros e He. destruct Hdec as [[Ha E]|[Hn E]]; rewrite E in He.
    + destruct selectTopicForDate as [v|reason]; [discriminate|].
      injection He as <-. exists reason. split; [reflexivity|]. left. now split.
    + destruct e as [|reason]; [apply M2 in He; tauto|].
      exists reason. split; [reflexivity|]. right. split; [exact Hn|].
      apply M3 in He. destruct He as [He|(_ & _ & He)]; [now left|now right].
Qed.

Lemma selectPhase_never_throws_no_candidates_witness :
  selectPhase (@Returned string _ (@None (unit * list Scored))) (Returned false)
    (fun _ => Returned tt) [] [] []
  = Returned None.
Proof.
  exact (proj1 (proj2 (selectPhase_never_throws_no_candidates unit (Returned None)
                         (Returned false) (fun _ => Returned tt) None None None))
           (conj eq_refl (conj eq_refl eq_refl))).
Defined.

End SelectorOnDoubles.

(* ------------------------------------------------------------------ *)
(** * Reddit scorer: monotonicity *)

Module RedditScorerShape.

Import RedditScraper.
Local Open Scope R_scope.

Lemma ln_monotone x y : 0 < x -> x <= y -> ln x <= ln y.
Proof.
  intros Hx [H| ->]; [|apply Rle_refl].
  left. now apply ln_increasing.
Qed.

Lemma log10_quotient x : log10 x * ln 10 = ln x.
Proof.
  unfold log10. pose proof RedditScraperFacts.ln_10_pos. field. Lra.lra.
Qed.

Lemma log10_monotone x y : 0 < x -> x <= y -> log10 x <= log10 y.
Proof.
  intros Hx Hxy. pose proof (ln_monotone x y Hx Hxy) as H.
  pose proof RedditScraperFacts.ln_10_pos as Hk.
  rewrite <- (log10_quotient x), <- (log10_quotient y) in H.
  apply Rmult_le_reg_r with (ln 10); assumption.
Qed.

Lemma engagementWeight_monotone n n' :
  0 <= n -> n <= n' -> engagementWeight n <= engagementWeight n'.
Proof.
  intros Hn Hnn'. unfold engagementWeight.
  pose proof (log10_monotone (n + 1) (n' + 1)) as H.
  apply Rle_min_compat_r. Lra.lra.
Qed.

Lemma scoreWeight_monotone s s' : s <= s' -> scoreWeight s <= scoreWeight s'.
Proof.
  intros H. unfold scoreWeight.
  destruct (Rlt_dec 100 s), (Rlt_dec 100 s'); Lra.lra.
Qed.

End RedditScorerShape.

(** X15: with the approval ratio fixed, the score of a post does not fall
    when its comment count or its score rises. *)
Theorem scoreDivisiveness_monotone (ratio : option R) (n n' s s' : R) :
  (0 <= n)%R -> (n <= n')%R -> (s <= s')%R ->
  (RedditScraper.scoreDivisiveness (RedditScraper.mkPost ratio (Some n) (Some s))
   <= RedditScraper.scoreDivisiveness (RedditScraper.mkPost ratio (Some n') (Some s')))%R.
Proof.
  intros Hn Hnn Hss. unfold RedditScraper.scoreDivisiveness.
  cbn [RedditScraper.upvote_ratio RedditScraper.num_comments RedditScraper.score
       RedditScraper.orDefault].
  pose proof (RedditScorerShape.engagementWeight_monotone n n' Hn Hnn).
  pose proof (RedditScorerShape.scoreWeight_monotone s s' Hss).
  Lra.lra.
Qed.

Lemma scoreDivisiveness_monotone_witness :
  (RedditScraper.scoreDivisiveness
     (RedditScraper.mkPost (Some 0.5%R) (Some 10%R) (Some 20%R))
   <= RedditScraper.scoreDivisiveness
        (RedditScraper.mkPost (Some 0.5%R) (Some 500%R) (Some 90%R)))%R.
Proof.
  apply scoreDivisiveness_monotone; Lra.lra.
Defined.

(* ------------------------------------------------------------------ *)
(** * YouTube scorer: range, saturation and monotonicity *)

Lemma commentDensity_scaled (viewCount commentCount : Z) :
  (0 < viewCount)%Z ->
  YoutubeScraper.commentDensity viewCount commentCount * 1000
  == inject_Z (1000 * commentCount) / inject_Z viewCount.
Proof.
  intros Hv. unfold YoutubeScraper.commentDensity.
  destruct (Z.ltb_spec 0 viewCount) as [_|H]; [|lia].
  rewrite inject_Z_mult. field.
  intros E. apply (Qlt_irrefl 0).
  rewrite <- E at 2. change 0 with (inject_Z 0). now rewrite <- Zlt_Qlt.
Qed.

Lemma quotient_ge_1 (a b : Z) :
  (0 < b)%Z -> (1 <= inject_Z a / inject_Z b <-> (b <= a)%Z).
Proof.
  intros Hb.
  assert (Hq : 0 < inject_Z b).
  { change 0 with (inject_Z 0). now rewrite <- Zlt_Qlt. }
  split.
  - intros H. rewrite Zle_Qle.
    apply (Qmult_le_compat_r _ _ (inject_Z b)) in H; [|now apply Qlt_le_weak].
    rewrite Qmult_1_l in H.
    assert (E : inject_Z a / inject_Z b * inject_Z b == inject_Z a).
    { field. intros E. rewrite E in Hq. now apply (Qlt_irrefl 0). }
    now rewrite E in H.
  - intros H. apply Qle_shift_div_l; [exact Hq|].
    rewrite Qmult_1_l. now rewrite <- Zle_Qle.
Qed.

(** X17: the video score lies in [0,1] whenever the comment count is not
    negative; it is 0 for a video without views or without comments, and
    it is 1 exactly when the video has views and at least one comment per
    thousand views. *)
Theorem video_divisiveness_range (viewCount commentCount : Z) :
  (0 <= commentCount)%Z ->
  0 <= YoutubeScraper.divisiveness viewCount commentCount <= 1
  /\ ((viewCount <= 0)%Z \/ commentCount = 0%Z ->
      YoutubeScraper.divisiveness viewCount commentCount == 0)
  /\ (YoutubeScraper.divisiveness viewCount commentCount == 1
      <-> (0 < viewCount)%Z /\ (viewCount <= 1000 * commentCount)%Z).
Proof.
  intros Hc. unfold YoutubeScraper.divisiveness.
  destruct (Z.ltb_spec 0 viewCount) as [Hv|Hv].
  - pose proof (commentDensity_scaled viewCount commentCount Hv) as E.
    assert (Hq : 0 < inject_Z viewCount).
    { change 0 with (inject_Z 0). now rewrite <- Zlt_Qlt. }
    assert (H0 : 0 <= YoutubeScraper.commentDensity viewCount commentCount * 1000).
    { rewrite E. apply Qle_shift_div_l; [exact Hq|].
      rewrite Qmult_0_l. change 0 with (inject_Z 0). rewrite <- Zle_Qle. lia. }
    split; [|split].
    + split; [apply Q.min_glb; [exact H0|discriminate]|apply Q.le_min_r].
    + intros [H | ->]; [lia|].
      unfold YoutubeScraper.commentDensity.
      destruct (Z.ltb_spec 0 viewCount); [|lia].
      assert (Ez : inject_Z 0 / inject_Z viewCount * 1000 == 0).
      { field. intros E0. rewrite E0 in Hq. now apply (Qlt_irrefl 0). }
      rewrite Q.min_l; [exact Ez|]. rewrite Ez. discriminate.
    + rewrite <- (quotient_ge_1 (1000 * commentCount) viewCount Hv), <- E.
      split.
      * intros Emin. split; [exact Hv|].
        destruct (Q.min_spec (YoutubeScraper.commentDensity viewCount commentCount * 1000) 1)
          as [[Hlt Em]|[Hle Em]]; [|exact Hle].
        rewrite Em in Emin. rewrite Emin in Hlt. now elim (Qlt_irrefl 1).
      * intros [_ H1]. now apply Q.min_r.
  - assert (Ed : YoutubeScraper.commentDensity viewCount commentCount = 0).
    { unfold YoutubeScraper.commentDensity.
      destruct (Z.ltb_spec 0 viewCount); [lia|reflexivity]. }
    rewrite Ed. split; [|split].
    + split; discriminate.
    + intros _. reflexivity.
    + split; [intros E; discriminate E|intros [H _]; lia].
Qed.

Lemma video_divisiveness_range_witness :
  YoutubeScraper.divisiveness 250000 250 == 1.
Proof.
  apply (proj2 (proj2 (video_divisiveness_range 250000 250 ltac:(lia)))).
  split; lia.
Defined.

(** X18: the video score does not fall when comments are added, and, for a
    video with views and a non-negative comment count, does not rise when
    views are added. *)
Theorem video_divisiveness_monotone (viewCount viewCount' commentCount commentCount' : Z) :
  ((commentCount <= commentCount')%Z ->
   YoutubeScraper.divisiveness viewCount commentCount
   <= YoutubeScraper.divisiveness viewCount commentCount')
  /\ ((0 < viewCount)%Z -> (viewCount <= viewCount')%Z -> (0 <= commentCount)%Z ->
      YoutubeScraper.divisiveness viewCount' commentCount
      <= YoutubeScraper.divisiveness viewCount commentCount).
Proof.
  unfold YoutubeScraper.divisiveness. split.
  - intros Hc. apply Q.min_le_compat_r.
    unfold YoutubeScraper.commentDensity.
    destruct (Z.ltb_spec 0 viewCount) as [Hv|Hv]; [|apply Qle_refl].
    assert (Hq : 0 < inject_Z viewCount).
    { change 0 with (inject_Z 0). now rewrite <- Zlt_Qlt. }
    apply Qmult_le_compat_r; [|discriminate].
    apply Qmult_le_compat_r; [now rewrite <- Zle_Qle|].
    apply Qlt_le_weak, Qinv_lt_0_compat, Hq.
  - intros Hv Hvv Hc. apply Q.min_le_compat_r.
    rewrite !commentDensity_scaled by lia.
    assert (Hq : 0 < inject_Z viewCount).
    { change 0 with (inject_Z 0). rewrite <- Zlt_Qlt. lia. }
    assert (Hq' : 0 < inject_Z viewCount').
    { change 0 with (inject_Z 0). rewrite <- Zlt_Qlt. lia. }
    apply Qle_shift_div_l; [exact Hq|].
    assert (E : inject_Z (1000 * commentCount) / inject_Z viewCount' * inject_Z viewCount
                == inject_Z (1000 * commentCount) * inject_Z viewCount
                   / inject_Z viewCount').
    { field. intros E0. rewrite E0 in Hq'. now apply (Qlt_irrefl 0). }
    rewrite E. apply Qle_shift_div_r; [exact Hq'|].
    rewrite (Qmult_comm _ (inject_Z viewCount)), (Qmult_comm _ (inject_Z viewCount')).
    apply Qmult_le_compat_r; [now rewrite <- Zle_Qle|].
    change 0 with (inject_Z 0). rewrite <- Zle_Qle. lia.
Qed.

Lemma video_divisiveness_monotone_witness :
  YoutubeScraper.divisiveness 900000 40 <= YoutubeScraper.divisiveness 100000 40.
Proof.
  apply (proj2 (video_divisiveness_monotone 100000 900000 40 40)); lia.
Defined.

(* ------------------------------------------------------------------ *)
(** * Google Trends scraper *)

Lemma mapIndexedFrom_In {A B : Type} (f : A -> nat -> B) (l : list A) :
  forall i y, In y (JsArray.mapIndexedFrom f i l) ->
    exists j x, (j < List.length l)%nat /\ nth_error l j = Some x
                /\ y = f x (i + j)%nat.
Proof.
  induction l as [|a l IH]; intros i y; cbn; [contradiction|].
  intros [<-|H].
  - exists 0%nat, a. rewrite Nat.add_0_r. repeat split. lia.
  - destruct (IH (S i) y H) as (j & x & Hj & Hn & ->).
    exists (S j), x. rewrite Nat.add_succ_r. repeat split; [lia|exact Hn].
Qed.

Lemma mapIndexedFrom_descending (l : list string) :
  forall i,
    StronglySorted (fun a b => Trend.score b < Trend.score a)
      (JsArray.mapIndexedFrom (fun item i => Trend.mk item (100 - ofNat i * 3)) i l).
Proof.
  induction l as [|a l IH]; intros i; cbn; constructor; [apply IH|].
  apply Forall_forall. intros y Hy.
  apply mapIndexedFrom_In in Hy. destruct Hy as (j & x & _ & _ & ->).
  cbn [Trend.score].
  assert (H : ofNat i < ofNat (S i + j)).
  { unfold ofNat. rewrite <- Zlt_Qlt. lia. }
  lra.
Qed.

Lemma fetchViaSerpApi_range (items : list string) (t : Trend.t) :
  In t (GoogleTrendsScraper.fetchViaSerpApi items) -> 43 <= Trend.score t <= 100.
Proof.
  unfold GoogleTrendsScraper.fetchViaSerpApi, JsArray.mapIndexed. intros H.
  apply mapIndexedFrom_In in H. destruct H as (j & x & Hj & _ & ->).
  cbn [Trend.score Nat.add].
  assert (Hl : (j < 20)%nat).
  { unfold slice0 in Hj. pose proof (firstn_le_length 20 items). lia. }
  pose proof (ofNat_nonneg j) as H0.
  assert (H19 : ofNat j <= ofNat 19) by (apply ofNat_le; lia).
  change (ofNat 19) with 19 in H19. lra.
Qed.

Lemma fetchViaRss_range (items : list GoogleTrendsScraper.RssItem) (t : Trend.t) :
  In t (GoogleTrendsScraper.fetchViaRss items) -> 0 <= Trend.score t <= 100.
Proof.
  unfold GoogleTrendsScraper.fetchViaRss. intros H.
  apply in_map_iff in H. destruct H as (item & <- & _). cbn. split.
  - apply Q.min_glb; [|discriminate].
    apply Qle_shift_div_l; [reflexivity|]. rewrite Qmult_0_l.
    change 0 with (inject_Z 0). rewrite <- Zle_Qle. lia.
  - apply Q.le_min_r.
Qed.

(** X19: every trend that [scrapeGoogleTrends] returns has a score between
    0 and 100, whichever fetch it came from, so that the [google_score]
    made of it lies in [0,1]; there are at most twenty of them; and a
    trend of the SerpAPI fetch scores at least 43. *)
Theorem scrapeGoogleTrends_scores_in_range
  (serpApi : option (list string)) (rss : list GoogleTrendsScraper.RssItem) :
  let trends :=
    GoogleTrendsScraper.scrapeGoogleTrends
      (option_map GoogleTrendsScraper.fetchViaSerpApi serpApi)
      (GoogleTrendsScraper.fetchViaRss rss) in
  Forall trendInRange trends
  /\ Forall (fun t => 0 <= Trend.score t / 100 <= 1) trends
  /\ (List.length trends <= 20)%nat
  /\ (forall trending_searches,
        Forall (fun t => 43 <= Trend.score t <= 100)
          (GoogleTrendsScraper.fetchViaSerpApi trending_searches)).
Proof.
  intros trends.
  assert (Hsrc : forall t, In t trends ->
            (exists items, In t (GoogleTrendsScraper.fetchViaSerpApi items))
            \/ In t (GoogleTrendsScraper.fetchViaRss rss)).
  { intros t Ht. unfold trends, GoogleTrendsScraper.scrapeGoogleTrends,
      GoogleTrendsScraper.filterTopics in Ht.
    apply filter_In in Ht. destruct Ht as [Ht _].
    destruct serpApi as [items|]; cbn [option_map] in Ht; [|now right].
    destruct (GoogleTrendsScraper.fetchViaSerpApi items) eqn:E; [now right|].
    left. exists items. now rewrite E. }
  assert (Hrange : Forall trendInRange trends).
  { apply Forall_forall. intros t Ht. unfold trendInRange.
    destruct (Hsrc t Ht) as [[items H]|H].
    - pose proof (fetchViaSerpApi_range items t H). lra.
    - now apply (fetchViaRss_range rss). }
  split; [exact Hrange|]. split; [|split].
  - eapply Forall_impl; [|exact Hrange].
    intros t Ht. unfold trendInRange in Ht. split.
    + apply Qle_shift_div_l; [reflexivity|]. lra.
    + apply Qle_shift_div_r; [reflexivity|]. lra.
  - unfold trends, GoogleTrendsScraper.scrapeGoogleTrends,
      GoogleTrendsScraper.filterTopics.
    eapply Nat.le_trans; [apply filter_length_le|].
    assert (Hs : forall items,
               (List.length (GoogleTrendsScraper.fetchViaSerpApi items) <= 20)%nat).
    { intros items. unfold GoogleTrendsScraper.fetchViaSerpApi, JsArray.mapIndexed.
      assert (Hm : forall (l : list string) i,
                 List.length
                   (JsArray.mapIndexedFrom
                      (fun item i => Trend.mk item (100 - ofNat i * 3)) i l)
                 = List.length l).
      { induction l as [|a l IH]; intros i; cbn; [reflexivity|]. now rewrite IH. }
      rewrite Hm. apply firstn_le_length. }
    assert (Hr : (List.length (GoogleTrendsScraper.fetchViaRss rss) <= 20)%nat).
    { unfold GoogleTrendsScraper.fetchViaRss. rewrite length_map.
      apply firstn_le_length. }
    destruct serpApi as [items|]; cbn [option_map]; [|exact Hr].
    specialize (Hs items).
    destruct (GoogleTrendsScraper.fetchViaSerpApi items); [exact Hr|exact Hs].
  - intros items. apply Forall_forall. intros t Ht.
    now apply fetchViaSerpApi_range in Ht.
Qed.

Lemma filter_StronglySorted {A : Type} (R : A -> A -> Prop) (p : A -> bool)
  (l : list A) :
  StronglySorted R l -> StronglySorted R (filter p l).
Proof.
  induction 1 as [|a l Hl IH Ha]; cbn; [constructor|].
  destruct (p a); [|exact IH].
  constructor; [exact IH|].
  apply Forall_forall. intros y Hy. apply filter_In in Hy.
  rewrite Forall_forall in Ha. now apply Ha.
Qed.

(** X20: on the SerpAPI path the trends come back in the order of the
    feed with strictly falling scores, the item at position [i] scoring
    [100 - 3 i]; the filter keeps that order. *)
Theorem serpApi_scores_fall_with_position (trending_searches : list string)
  (i : nat) (t : Trend.t) :
  StronglySorted (fun a b => Trend.score b < Trend.score a)
    (GoogleTrendsScraper.scrapeGoogleTrends
       (Some (GoogleTrendsScraper.fetchViaSerpApi trending_searches)) [])
  /\ (nth_error (GoogleTrendsScraper.fetchViaSerpApi trending_searches) i = Some t ->
      Trend.score t == 100 - 3 * ofNat i
      /\ nth_error trending_searches i = Some (Trend.title t)).
Proof.
  split.
  - unfold GoogleTrendsScraper.scrapeGoogleTrends, GoogleTrendsScraper.filterTopics.
    assert (Hs : StronglySorted (fun a b => Trend.score b < Trend.score a)
                   (GoogleTrendsScraper.fetchViaSerpApi trending_searches)).
    { apply mapIndexedFrom_descending. }
    destruct (GoogleTrendsScraper.fetchViaSerpApi trending_searches) eqn:E.
    + constructor.
    + now apply filter_StronglySorted.
  - unfold GoogleTrendsScraper.fetchViaSerpApi, JsArray.mapIndexed, slice0.
    assert (Hm : forall (l : list string) k j,
               nth_error
                 (JsArray.mapIndexedFrom
                    (fun item i => Trend.mk item (100 - ofNat i * 3)) k l) j
               = option_map (fun item => Trend.mk item (100 - ofNat (k + j) * 3))
                   (nth_error l j)).
    { induction l as [|a l IH]; intros k [|j]; cbn; try reflexivity.
      - now rewrite Nat.add_0_r.
      - rewrite IH. now rewrite Nat.add_succ_r. }
    rewrite Hm. cbn [Nat.add].
    destruct (nth_error (firstn 20 trending_searches) i) as [item|] eqn:E;
      [|discriminate].
    intros [= <-]. cbn. split; [ring|].
    rewrite nth_error_firstn in E.
    destruct (i <? 20)%nat; [exact E|discriminate].
Qed.

Lemma serpApi_scores_fall_with_position_witness :
  Trend.score (Trend.mk "gun ban" (100 - ofNat 1 * 3)) == 100 - 3 * ofNat 1.
Proof.
  apply (proj2 (serpApi_scores_fall_with_position
                  ["tax reform"%string; "gun ban"%string] 1
                  (Trend.mk "gun ban" (100 - ofNat 1 * 3)))).
  reflexivity.
Defined.

(* ------------------------------------------------------------------ *)
(** * From inputs in range to composites in range *)

Lemma fold_left_invariant_Forall {A B : Type} (P : A -> Prop) (Q : B -> Prop)
  (f : A -> B -> A) (l : list B) :
  Forall Q l ->
  (forall acc x, Q x -> P acc -> P (f acc x)) ->
  forall init, P init -> P (fold_left f l init).
Proof.
  intros Hl Hstep. induction Hl as [|x l Hx Hl IH]; intros init Hinit; cbn;
    [exact Hinit|].
  apply IH. now apply Hstep.
Qed.

Lemma engagementScore_unit (c : MergedCandidate) :
  0 <= reddit_comments c -> 0 <= Mainstream.engagementScore c <= 1.
Proof.
  intros H. unfold Mainstream.engagementScore. split.
  - apply Q.min_glb; [|discriminate].
    apply Qle_shift_div_l; [reflexivity|]. lra.
  - apply Q.le_min_r.
Qed.

Lemma score_over_100 (g : Trend.t) : trendInRange g -> 0 <= Trend.score g / 100 <= 1.
Proof.
  unfold trendInRange. intros H. split.
  - apply Qle_shift_div_l; [reflexivity|]. lra.
  - apply Qle_shift_div_r; [reflexivity|]. lra.
Qed.

Lemma addReddit_inUnit (pool : Pool) (r : Reddit.t) :
  redditInRange r ->
  Forall (fun e => signalsInUnit (snd e)) pool ->
  Forall (fun e => signalsInUnit (snd e)) (addReddit pool r).
Proof.
  intros [Hd Hc] H. unfold addReddit. apply Forall_Map_set; [|exact H].
  unfold signalsInUnit. cbn [snd reddit_divisiveness youtube_divisiveness google_score].
  split; [exact Hd|]. split; [split; discriminate|]. split; [split; discriminate|].
  now apply engagementScore_unit.
Qed.

Lemma mergeGoogle_inUnit (pool : Pool) (g : Trend.t) :
  trendInRange g ->
  Forall (fun e => signalsInUnit (snd e)) pool ->
  Forall (fun e => signalsInUnit (snd e)) (mergeGoogle pool g).
Proof.
  intros Hg H. pose proof (score_over_100 g Hg) as Hs. unfold mergeGoogle.
  destruct (findBestMatchAt _ pool) as [[i v]|].
  - apply Forall_Map_mutate; [|exact H].
    intros c (Hr & Hy & _ & He).
    unfold signalsInUnit, Mainstream.engagementScore in *.
    cbn [setGoogle reddit_divisiveness reddit_comments youtube_divisiveness
         google_score].
    tauto.
  - apply Forall_Map_set; [|exact H].
    unfold signalsInUnit. cbn [snd reddit_divisiveness youtube_divisiveness google_score].
    split; [split; discriminate|]. split; [split; discriminate|].
    split; [exact Hs|]. split; discriminate.
Qed.

Lemma mergeYoutube_inUnit (pool : Pool) (y : Youtube.t) :
  videoInRange y ->
  Forall (fun e => signalsInUnit (snd e)) pool ->
  Forall (fun e => signalsInUnit (snd e)) (mergeYoutube pool y).
Proof.
  intros Hy H. unfold mergeYoutube.
  destruct (findBestMatchAt _ pool) as [[i v]|].
  - apply Forall_Map_mutate; [|exact H].
    intros c (Hr & _ & Hg & He).
    unfold signalsInUnit, Mainstream.engagementScore in *.
    cbn [setYoutube reddit_divisiveness reddit_comments youtube_divisiveness
         google_score].
    unfold videoInRange in Hy. tauto.
  - apply Forall_Map_set; [|exact H].
    unfold signalsInUnit. cbn [snd reddit_divisiveness youtube_divisiveness google_score].
    split; [split; discriminate|]. split; [exact Hy|].
    split; split; discriminate.
Qed.

(** X21: when every Reddit candidate has a divisiveness in [0,1] and a
    non-negative comment total, every trend a score in [0,100] and every
    video a divisiveness in [0,1], then every candidate that
    [mergeSignals] returns has its signals and its engagement term in
    [0,1] and a composite score in [0,1], in both selectors. *)
Theorem mergeSignals_scores_in_unit
  (redditCandidates : list Reddit.t) (googleTrends : list Trend.t)
  (youtubeCandidates : list Youtube.t) (x : Scored) :
  Forall redditInRange redditCandidates ->
  Forall trendInRange googleTrends ->
  Forall videoInRange youtubeCandidates ->
  In x (Divisive.mergeSignals redditCandidates googleTrends youtubeCandidates)
  \/ In x (Mainstream.mergeSignals redditCandidates googleTrends youtubeCandidates) ->
  signalsInUnit (cand x) /\ 0 <= composite_score x <= 1.
Proof.
  intros Hr Hg Hy Hin.
  assert (Hpool : Forall (fun e => signalsInUnit (snd e))
                    (mergePool redditCandidates googleTrends youtubeCandidates)).
  { unfold mergePool.
    apply (fold_left_invariant_Forall _ videoInRange);
      [exact Hy|intros; now apply mergeYoutube_inUnit|].
    apply (fold_left_invariant_Forall _ trendInRange);
      [exact Hg|intros; now apply mergeGoogle_inUnit|].
    apply (fold_left_invariant_Forall _ redditInRange);
      [exact Hr|intros; now apply addReddit_inUnit|].
    constructor. }
  assert (Hc : signalsInUnit (cand x)
               /\ (composite_score x = Divisive.composite (cand x)
                   \/ composite_score x = Mainstream.composite (cand x))).
  { destruct Hin as [Hin|Hin]; apply rankWith_In in Hin; destruct Hin as [Hs Hv];
      (split; [|tauto]);
      unfold Map_values in Hv; apply in_map_iff in Hv;
      destruct Hv as [e [<- He]]; rewrite Forall_forall in Hpool;
      now apply Hpool. }
  destruct Hc as [Hu Hs]. split; [exact Hu|].
  destruct Hu as (H1 & H2 & H3 & H4).
  pose proof (multiPlatform_unit (cand x)) as Hm.
  destruct Hs as [->| ->].
  - unfold Divisive.composite. lra.
  - unfold Mainstream.composite. lra.
Qed.

Lemma mergeSignals_scores_in_unit_witness :
  Forall (fun x => 0 <= composite_score x <= 1)
    (Mainstream.mergeSignals [gunControlPost]
       (GoogleTrendsScraper.fetchViaSerpApi ["gun control bill senate"%string]) []).
Proof.
  apply Forall_forall. intros x Hx.
  refine (proj2 (mergeSignals_scores_in_unit [gunControlPost]
                   (GoogleTrendsScraper.fetchViaSerpApi ["gun control bill senate"%string])
                   [] x _ _ _ (or_intror Hx))).
  - repeat constructor; vm_compute; discriminate.
  - repeat constructor; vm_compute; discriminate.
  - constructor.
Defined.

(* ------------------------------------------------------------------ *)
(** * Slugs *)

Lemma allChars_impl (p q : ascii -> bool) (s : string) :
  (forall c, p c = true -> q c = true) ->
  JsText.allChars p s = true -> JsText.allChars q s = true.
Proof.
  intros Hpq. induction s as [|c s IH]; cbn; [trivial|].
  intros H. apply andb_true_iff in H. destruct H as [Hc Hs].
  now rewrite (Hpq c Hc), (IH Hs).
Qed.

Lemma slug_stripOthers_kept (s : string) :
  JsText.allChars Slugify.keptChar (Slugify.stripOthers s) = true.
Proof.
  induction s as [|c s IH]; cbn; [reflexivity|].
  destruct (Slugify.keptChar c) eqn:E; [|exact IH]. cbn. now rewrite E.
Qed.

Lemma slug_stripOthers_fixed (s : string) :
  JsText.allChars Slugify.keptChar s = true -> Slugify.stripOthers s = s.
Proof.
  induction s as [|c s IH]; cbn; [reflexivity|].
  intros H. apply andb_true_iff in H. destruct H as [Hc Hs].
  now rewrite Hc, (IH Hs).
Qed.

Lemma replaceRuns_space_chars (s : string) :
  forall inRun,
    JsText.allChars Slugify.keptChar s = true ->
    JsText.allChars Slugify.slugChar
      (JsRegex.replaceRuns Js.isSpace "-" inRun s) = true.
Proof.
  induction s as [|c s IH]; intros inRun; cbn; [reflexivity|].
  intros H. apply andb_true_iff in H. destruct H as [Hc Hs].
  destruct (Js.isSpace c) eqn:E.
  - destruct inRun; cbn; now rewrite ?IH.
  - cbn. rewrite (IH false Hs), andb_true_r.
    unfold Slugify.keptChar in Hc. unfold Slugify.slugChar.
    rewrite E, orb_false_r in Hc. exact Hc.
Qed.

Lemma replaceRuns_hyphen_chars (s : string) :
  forall inRun,
    JsText.allChars Slugify.slugChar s = true ->
    JsText.allChars Slugify.slugChar
      (JsRegex.replaceRuns JsRegex.isHyphen "-" inRun s) = true.
Proof.
  induction s as [|c s IH]; intros inRun; cbn; [reflexivity|].
  intros H. apply andb_true_iff in H. destruct H as [Hc Hs].
  destruct (JsRegex.isHyphen c) eqn:E.
  - destruct inRun; cbn; now rewrite ?IH.
  - cbn. now rewrite Hc, (IH false Hs).
Qed.

Lemma slice0_chars p (n : nat) (s : string) :
  JsText.allChars p s = true -> JsText.allChars p (JsRegex.slice0 n s) = true.
Proof.
  revert s. induction n as [|n IH]; intros [|c s]; cbn; trivial.
  intros H. apply andb_true_iff in H. destruct H as [Hc Hs].
  now rewrite Hc, (IH s Hs).
Qed.

Lemma slice0_length (n : nat) (s : string) :
  (String.length (JsRegex.slice0 n s) <= n)%nat.
Proof.
  revert s. induction n as [|n IH]; intros [|c s]; cbn; try lia.
  specialize (IH s). lia.
Qed.

Lemma slice0_fixed (n : nat) (s : string) :
  (String.length s <= n)%nat -> JsRegex.slice0 n s = s.
Proof.
  revert s. induction n as [|n IH]; intros [|c s]; cbn; try reflexivity; try lia.
  intros H. rewrite IH; [reflexivity|lia].
Qed.

Lemma collapse_no_double (s : string) :
  forall inRun,
    JsRegex.hasDoubleHyphen (JsRegex.replaceRuns JsRegex.isHyphen "-" inRun s) = false
    /\ (inRun = true ->
        JsText.firstChar (JsRegex.replaceRuns JsRegex.isHyphen "-" inRun s)
        <> Some "-"%char).
Proof.
  induction s as [|c s IH]; intros inRun; cbn [JsRegex.replaceRuns].
  - split; [reflexivity|discriminate].
  - destruct (JsRegex.isHyphen c) eqn:E.
    + destruct (IH true) as [H1 H2]. destruct inRun.
      * split; [exact H1|intros _; now apply H2].
      * split; [|discriminate].
        specialize (H2 eq_refl).
        destruct (JsRegex.replaceRuns JsRegex.isHyphen "-" true s) as [|b t] eqn:Er;
          [reflexivity|].
        cbn [JsRegex.hasDoubleHyphen] in *. rewrite H1, orb_false_r.
        cbn in H2. unfold JsRegex.isHyphen at 2.
        destruct (Ascii.eqb_spec b "-"); [subst; congruence|].
        apply andb_false_r.
    + destruct (IH false) as [H1 _]. split.
      * destruct (JsRegex.replaceRuns JsRegex.isHyphen "-" false s) as [|b t] eqn:Er;
          [reflexivity|].
        cbn [JsRegex.hasDoubleHyphen] in *. now rewrite E, H1.
      * intros _. cbn. intros [= ->]. discriminate E.
Qed.

Lemma collapse_fixed (s : string) :
  forall inRun,
    JsRegex.hasDoubleHyphen s = false ->
    (inRun = true -> JsText.firstChar s <> Some "-"%char) ->
    JsRegex.replaceRuns JsRegex.isHyphen "-" inRun s = s.
Proof.
  induction s as [|c s IH]; intros inRun Hd Hf; cbn [JsRegex.replaceRuns];
    [reflexivity|].
  assert (Hs : JsRegex.hasDoubleHyphen s = false).
  { destruct s as [|b t]; [reflexivity|].
    cbn [JsRegex.hasDoubleHyphen] in Hd. apply orb_false_iff in Hd. tauto. }
  destruct (JsRegex.isHyphen c) eqn:E.
  - assert (Ec : c = "-"%char) by (now apply Ascii.eqb_eq).
    destruct inRun; [exfalso; apply (Hf eq_refl); cbn; now subst|].
    subst c. f_equal. apply IH; [exact Hs|].
    intros _. destruct s as [|b t]; [discriminate|].
    cbn [JsRegex.hasDoubleHyphen] in Hd. apply orb_false_iff in Hd.
    destruct Hd as [Hd _]. cbn in Hd. cbn. intros [= ->]. discriminate Hd.
  - f_equal. apply IH; [exact Hs|discriminate].
Qed.

Lemma slice0_no_double (n : nat) (s : string) :
  JsRegex.hasDoubleHyphen s = false ->
  JsRegex.hasDoubleHyphen (JsRegex.slice0 n s) = false.
Proof.
  revert s. induction n as [|n IH]; intros [|c s]; cbn [JsRegex.slice0]; trivial.
  intros H. specialize (IH s).
  destruct s as [|b t].
  - destruct n; reflexivity.
  - cbn [JsRegex.hasDoubleHyphen] in H. apply orb_false_iff in H.
    destruct H as [H1 H2]. specialize (IH H2).
    destruct n as [|n]; [reflexivity|].
    cbn [JsRegex.slice0] in *.
    set (rest := JsRegex.slice0 n t) in *.
    change (JsRegex.hasDoubleHyphen (String c (String b rest)))
      with ((JsRegex.isHyphen c && JsRegex.isHyphen b)
            || JsRegex.hasDoubleHyphen (String b rest)).
    now rewrite H1, IH.
Qed.

Lemma space_free (s : string) :
  JsText.allChars Slugify.slugChar s = true ->
  JsText.allChars Slugify.keptChar s = true
  /\ JsRegex.replaceRuns Js.isSpace "-" false s = s
  /\ Js.trim s = s
  /\ Js.toLowerCase s = s.
Proof.
  assert (Hsp : forall c, Slugify.slugChar c = true -> Js.isSpace c = false).
  { intros c. each_ascii c; intros H; try reflexivity; discriminate H. }
  assert (Hlow : forall c, Slugify.slugChar c = true -> Js.lowerChar c = c).
  { intros c. each_ascii c; intros H; try reflexivity; discriminate H. }
  intros H. split; [|split; [|split]].
  - apply (allChars_impl Slugify.slugChar); [|exact H].
    intros c Hc. unfold Slugify.slugChar in Hc. unfold Slugify.keptChar.
    apply orb_true_iff in Hc. destruct Hc as [-> | ->]; [reflexivity|].
    apply orb_true_r.
  - induction s as [|c s IH]; cbn; [reflexivity|].
    cbn in H. apply andb_true_iff in H. destruct H as [Hc Hs].
    now rewrite (Hsp c Hc), (IH Hs).
  - assert (Hend : Js.trimEnd s = s).
    { induction s as [|c s IH]; cbn; [reflexivity|].
      cbn in H. apply andb_true_iff in H. destruct H as [Hc Hs].
      rewrite (IH Hs). destruct s; [now rewrite (Hsp c Hc)|reflexivity]. }
    unfold Js.trim. destruct s as [|c s]; [reflexivity|].
    cbn in H. apply andb_true_iff in H. destruct H as [Hc Hs].
    cbn [Js.trimStart]. rewrite (Hsp c Hc). exact Hend.
  - induction s as [|c s IH]; cbn; [reflexivity|].
    cbn in H. apply andb_true_iff in H. destruct H as [Hc Hs].
    now rewrite (Hlow c Hc), (IH Hs).
Qed.

Lemma base_chars (title : string) :
  JsText.allChars Slugify.slugChar (Slugify.base title) = true.
Proof.
  unfold Slugify.base.
  apply slice0_chars, replaceRuns_hyphen_chars, replaceRuns_space_chars.
  unfold Js.trim. apply trimEnd_allChars, trimStart_allChars, slug_stripOthers_kept.
Qed.

Lemma base_no_double (title : string) :
  JsRegex.hasDoubleHyphen (Slugify.base title) = false.
Proof.
  unfold Slugify.base. apply slice0_no_double, collapse_no_double.
Qed.

(** X22: the base of a slug holds lower-case letters, digits and hyphens
    only, never two hyphens in a row, and at most sixty characters. *)
Theorem slug_base_shape (title : string) :
  JsText.allChars Slugify.slugChar (Slugify.base title) = true
  /\ JsRegex.hasDoubleHyphen (Slugify.base title) = false
  /\ (String.length (Slugify.base title) <= 60)%nat.
Proof.
  split; [apply base_chars|]. split; [apply base_no_double|].
  apply slice0_length.
Qed.

(** X23: making a slug of a slug base gives the base back. *)
Theorem slug_base_idempotent (title : string) :
  Slugify.base (Slugify.base title) = Slugify.base title.
Proof.
  pose proof (base_chars title) as Hc.
  destruct (space_free _ Hc) as (Hk & Hws & Htrim & Hlow).
  unfold Slugify.base at 1.
  rewrite Hlow, (slug_stripOthers_fixed _ Hk), Htrim, Hws.
  rewrite collapse_fixed; [|apply base_no_double|discriminate].
  apply slice0_fixed. unfold Slugify.base. apply slice0_length.
Qed.

(** X24: for one title, slugs made with two dates are equal only if the
    dates are equal, and a slug made with a date differs from the slug
    made without one. *)
Theorem slugify_date_distinguishes (title date date' : string) :
  date <> EmptyString -> date' <> EmptyString ->
  (Slugify.slugify title (Some date) = Slugify.slugify title (Some date') ->
   date = date')
  /\ Slugify.slugify title (Some date) <> Slugify.slugify title None.
Proof.
  intros Hd Hd'.
  destruct date as [|c d]; [congruence|]. destruct date' as [|c' d']; [congruence|].
  cbn [Slugify.slugify]. generalize (Slugify.base title). intros b. split.
  - induction b as [|a b IH]; cbn.
    + intros [= -> ->]. reflexivity.
    + intros [= H]. now apply IH.
  - induction b as [|a b IH]; cbn; [discriminate|].
    intros [= H]. now apply IH.
Qed.

Lemma slugify_date_distinguishes_witness :
  Slugify.slugify "Gun Ban?" (Some "2026-01-05"%string)
  <> Slugify.slugify "Gun Ban?" None.
Proof.
  apply (proj2 (slugify_date_distinguishes "Gun Ban?" "2026-01-05" "2026-01-06"
                  ltac:(discriminate) ltac:(discriminate))).
Defined.

(* ------------------------------------------------------------------ *)
(** * Reddit scraper: the clusters *)

Lemma cluster_has_In (used : list nat) (i : nat) :
  RedditClusters.has used i = true <-> In i used.
Proof.
  unfold RedditClusters.has. rewrite existsb_exists. split.
  - intros [x [Hx E]]. apply Nat.eqb_eq in E. now subst.
  - intros H. exists i. split; [exact H|apply Nat.eqb_refl].
Qed.

Lemma cluster_has_app (used extra : list nat) (i : nat) :
  RedditClusters.has (used ++ extra) i
  = RedditClusters.has used i || RedditClusters.has extra i.
Proof. unfold RedditClusters.has. apply existsb_app. Qed.

Lemma filter_unused_extra (used extra : list nat)
  (l : list (nat * RedditClusters.RawPost)) :
  (forall e, In e l -> ~ In (fst e) extra) ->
  filter (fun e => negb (RedditClusters.has (used ++ extra) (fst e))) l
  = filter (fun e => negb (RedditClusters.has used (fst e))) l.
Proof.
  intros H. apply filter_ext_in. intros e He.
  rewrite cluster_has_app.
  destruct (RedditClusters.has extra (fst e)) eqn:E.
  - apply cluster_has_In in E. now elim (H e He).
  - now rewrite orb_false_r.
Qed.

Lemma innerLoop_spec (seed : RedditClusters.RawPost)
  (later : list (nat * RedditClusters.RawPost)) :
  NoDup (map fst later) ->
  forall used cluster,
  exists picked,
    RedditClusters.innerLoop seed later used cluster
    = (cluster ++ picked, used ++ map fst picked)
    /\ Permutation
         (picked
          ++ filter (fun e => negb (RedditClusters.has (used ++ map fst picked) (fst e)))
               later)
         (filter (fun e => negb (RedditClusters.has used (fst e))) later)
    /\ Forall
         (fun e =>
            In e later
            /\ gt (RedditClusters.titleOverlap (RedditClusters.title seed)
                     (RedditClusters.title (snd e))) 0.35 = true)
         picked.
Proof.
  induction later as [|[j q] later IH]; intros Hnd used cluster.
  - exists []. cbn. rewrite !app_nil_r.
    split; [reflexivity|split; [apply perm_nil|constructor]].
  - cbn [map fst] in Hnd. inversion Hnd as [|? ? Hj Hnd']; subst.
    cbn [RedditClusters.innerLoop].
    assert (Hfresh : forall e, In e later -> fst e <> j).
    { intros e He E. apply Hj. rewrite <- E. now apply in_map. }
    destruct (RedditClusters.has used j) eqn:Eu.
    + destruct (IH Hnd' used cluster) as (picked & Hres & Hperm & Hall).
      exists picked. split; [exact Hres|]. split.
      * cbn [filter fst]. rewrite cluster_has_app, Eu. cbn [orb negb]. exact Hperm.
      * eapply Forall_impl; [|exact Hall]. intros e [He Ho]. split; [now right|exact Ho].
    + destruct (gt (RedditClusters.titleOverlap (RedditClusters.title seed)
                      (RedditClusters.title q)) 0.35) eqn:Eo.
      * destruct (IH Hnd' (used ++ [j]) (cluster ++ [(j, q)]))
          as (picked & Hres & Hperm & Hall).
        exists ((j, q) :: picked).
        rewrite Hres, <- !app_assoc. cbn [app map fst].
        split; [reflexivity|]. split.
        -- cbn [filter fst]. rewrite cluster_has_app, Eu.
           replace (RedditClusters.has (j :: map fst picked) j) with true
             by (symmetry; apply cluster_has_In; now left).
           cbn [orb negb]. apply perm_skip.
           rewrite <- app_assoc in Hperm. cbn [app] in Hperm.
           eapply perm_trans; [exact Hperm|].
           rewrite (filter_unused_extra used [j]); [apply Permutation_refl|].
           intros e He [E|[]]. now apply (Hfresh e He).
        -- constructor; [split; [now left|exact Eo]|].
           eapply Forall_impl; [|exact Hall].
           intros e [He Ho]. split; [now right|exact Ho].
      * destruct (IH Hnd' used cluster) as (picked & Hres & Hperm & Hall).
        exists picked. split; [exact Hres|]. split.
        -- cbn [filter fst]. rewrite cluster_has_app, Eu.
           replace (RedditClusters.has (map fst picked) j) with false.
           ++ cbn [orb negb].
              eapply perm_trans; [apply Permutation_sym, Permutation_middle|].
              now apply perm_skip.
           ++ symmetry. apply not_true_is_false. intros E.
              apply cluster_has_In in E. apply in_map_iff in E.
              destruct E as [e [Ee He]]. rewrite Forall_forall in Hall.
              destruct (Hall e He) as [Hin _]. now apply (Hfresh e Hin).
        -- eapply Forall_impl; [|exact Hall].
           intros e [He Ho]. split; [now right|exact Ho].
Qed.

(** A cluster: a seed and the posts gathered around it, each overlapping
    the title of the seed by more than 0.35. *)
Lemma outerLoop_spec (indexed : list (nat * RedditClusters.RawPost)) :
  NoDup (map fst indexed) ->
  forall used clusters,
    Permutation
      (List.concat (RedditClusters.outerLoop indexed used clusters))
      (List.concat clusters
       ++ filter (fun e => negb (RedditClusters.has used (fst e))) indexed)
    /\ (forall G : list (nat * RedditClusters.RawPost) -> Prop,
          (forall i p picked,
              Forall (fun e =>
                        gt (RedditClusters.titleOverlap (RedditClusters.title p)
                              (RedditClusters.title (snd e))) 0.35 = true) picked ->
              G ((i, p) :: picked)) ->
          Forall G clusters ->
          Forall G (RedditClusters.outerLoop indexed used clusters)).
Proof.
  induction indexed as [|[i p] later IH]; intros Hnd used clusters.
  - cbn. rewrite app_nil_r. split; [apply Permutation_refl|trivial].
  - cbn [map fst] in Hnd. inversion Hnd as [|? ? Hi Hnd']; subst.
    cbn [RedditClusters.outerLoop].
    destruct (RedditClusters.has used i) eqn:Eu.
    + cbn [filter fst]. rewrite Eu. cbn [negb]. now apply IH.
    + destruct (innerLoop_spec p later Hnd' (used ++ [i]) [(i, p)])
        as (picked & Hres & Hperm & Hall).
      rewrite Hres.
      destruct (IH Hnd' ((used ++ [i]) ++ map fst picked)
                  (clusters ++ [[(i, p)] ++ picked])) as [Hp HG].
      split.
      * eapply perm_trans; [exact Hp|].
        rewrite concat_app. cbn [List.concat app]. rewrite app_nil_r, <- app_assoc.
        apply Permutation_app_head.
        cbn [filter fst]. rewrite Eu. cbn [negb app]. apply perm_skip.
        eapply perm_trans; [exact Hperm|].
        rewrite (filter_unused_extra used [i]); [apply Permutation_refl|].
        intros e He [E|[]]. apply Hi. rewrite E. now apply in_map.
      * intros G Hstep Hcl. apply HG; [exact Hstep|].
        apply Forall_app. split; [exact Hcl|].
        constructor; [|constructor]. cbn [app]. apply Hstep.
        eapply Forall_impl; [|exact Hall]. intros e [_ Ho]. exact Ho.
Qed.

Lemma indexed_keys (posts : list RedditClusters.RawPost) :
  map fst (RedditClusters.indexed posts) = seq 0 (List.length posts)
  /\ map snd (RedditClusters.indexed posts) = posts.
Proof.
  unfold RedditClusters.indexed.
  assert (H : forall (l : list RedditClusters.RawPost) k,
             map fst (combine (seq k (List.length l)) l) = seq k (List.length l)
             /\ map snd (combine (seq k (List.length l)) l) = l).
  { induction l as [|a l IH]; intros k; cbn; [split; reflexivity|].
    destruct (IH (S k)) as [H1 H2]. now rewrite H1, H2. }
  apply H.
Qed.

Lemma clustersOf_partition (posts : list RedditClusters.RawPost) :
  Permutation (List.concat (RedditClusters.clustersOf posts)) (RedditClusters.indexed posts).
Proof.
  unfold RedditClusters.clustersOf.
  assert (Hnd : NoDup (map fst (RedditClusters.indexed posts))).
  { rewrite (proj1 (indexed_keys posts)). apply seq_NoDup. }
  destruct (outerLoop_spec _ Hnd [] []) as [Hp _].
  eapply perm_trans; [exact Hp|]. cbn [List.concat app].
  rewrite (filter_ext _ (fun _ => true)); [|reflexivity].
  clear. induction (RedditClusters.indexed posts) as [|e l IH]; cbn;
    [constructor|now apply perm_skip].
Qed.

Lemma clusters_shape (posts : list RedditClusters.RawPost) :
  Forall
    (fun cluster =>
       exists i seed rest,
         cluster = (i, seed) :: rest
         /\ Forall (fun e =>
                      0.35 < RedditClusters.titleOverlap
                               (RedditClusters.title seed)
                               (RedditClusters.title (snd e))) rest)
    (RedditClusters.clustersOf posts).
Proof.
  unfold RedditClusters.clustersOf.
  assert (Hnd : NoDup (map fst (RedditClusters.indexed posts))).
  { rewrite (proj1 (indexed_keys posts)). apply seq_NoDup. }
  destruct (outerLoop_spec _ Hnd [] []) as [_ HG].
  apply HG; [|constructor].
  intros i p picked Hall. exists i, p, picked. split; [reflexivity|].
  eapply Forall_impl; [|exact Hall]. intros e He. now apply gt_iff.
Qed.

Lemma sortInsert_perm (x : RedditClusters.RawPost) (l : list RedditClusters.RawPost) :
  Permutation (x :: l) (RedditClusters.sortInsert x l).
Proof.
  induction l as [|y l IH]; cbn; [apply Permutation_refl|].
  destruct (Rlt_dec 0 (RedditClusters.score y - RedditClusters.score x)).
  - eapply perm_trans; [apply perm_swap|]. now apply perm_skip.
  - apply Permutation_refl.
Qed.

Lemma sortByScore_perm (l : list RedditClusters.RawPost) :
  Permutation l (RedditClusters.sortByScore l).
Proof.
  induction l as [|x l IH]; cbn; [apply perm_nil|].
  eapply perm_trans; [|apply sortInsert_perm]. now apply perm_skip.
Qed.

Lemma sortInsert_sorted (x : RedditClusters.RawPost) (l : list RedditClusters.RawPost) :
  StronglySorted (fun a b => (RedditClusters.score b <= RedditClusters.score a)%R) l ->
  StronglySorted (fun a b => (RedditClusters.score b <= RedditClusters.score a)%R)
    (RedditClusters.sortInsert x l).
Proof.
  induction 1 as [|y l Hl IH Hy]; cbn; [repeat constructor|].
  destruct (Rlt_dec 0 (RedditClusters.score y - RedditClusters.score x)) as [H|H].
  - constructor; [exact IH|].
    apply (Permutation_Forall (sortInsert_perm x l)).
    constructor; [Lra.lra|exact Hy].
  - constructor; [now constructor|].
    constructor; [Lra.lra|].
    eapply Forall_impl; [|exact Hy]. cbn. intros z Hz. Lra.lra.
Qed.

Lemma sortByScore_sorted (l : list RedditClusters.RawPost) :
  StronglySorted (fun a b => (RedditClusters.score b <= RedditClusters.score a)%R)
    (RedditClusters.sortByScore l).
Proof.
  induction l as [|x l IH]; cbn; [constructor|]. now apply sortInsert_sorted.
Qed.

Lemma sortByScore_head (cluster : list RedditClusters.RawPost) :
  cluster <> [] ->
  exists r rest,
    RedditClusters.sortByScore cluster = r :: rest
    /\ In r cluster
    /\ forall p, In p cluster -> (RedditClusters.score p <= RedditClusters.score r)%R.
Proof.
  intros Hne.
  pose proof (sortByScore_perm cluster) as Hp.
  pose proof (sortByScore_sorted cluster) as Hs.
  destruct (RedditClusters.sortByScore cluster) as [|r rest] eqn:E.
  - apply Permutation_sym, Permutation_nil in Hp. contradiction.
  - exists r, rest. split; [reflexivity|]. split.
    + apply (Permutation_in _ (Permutation_sym Hp)). now left.
    + intros p Hin. apply (Permutation_in _ Hp) in Hin.
      inversion Hs as [|? ? _ Hr]; subst.
      destruct Hin as [<-|Hin]; [apply Rle_refl|].
      rewrite Forall_forall in Hr. now apply Hr.
Qed.

Lemma fold_sum_bounds (f : RedditClusters.RawPost -> R) (lo hi : R)
  (l : list RedditClusters.RawPost) :
  (forall p, In p l -> lo <= f p <= hi)%R ->
  forall acc,
    (acc + INR (List.length l) * lo
     <= fold_left (fun s p => s + f p) l acc
     <= acc + INR (List.length l) * hi)%R.
Proof.
  induction l as [|x l IH]; intros H acc.
  - cbn. Lra.lra.
  - cbn [fold_left]. change (List.length (x :: l)) with (S (List.length l)).
    rewrite S_INR.
    assert (Hx : (lo <= f x <= hi)%R) by (apply H; now left).
    assert (Hl : forall p, In p l -> (lo <= f p <= hi)%R) by (intros; apply H; now right).
    specialize (IH Hl (acc + f x)%R). Lra.lra.
Qed.

Lemma average_bounds (sum lo hi : R) (n : nat) :
  (1 <= n)%nat ->
  (INR n * lo <= sum <= INR n * hi)%R ->
  (lo <= sum / INR n <= hi)%R.
Proof.
  intros Hn [H1 H2].
  assert (Hk : (0 < INR n)%R) by (apply lt_0_INR; lia).
  split.
  - apply (Rmult_le_reg_r (INR n)); [exact Hk|].
    unfold Rdiv. rewrite Rmult_assoc, Rinv_l; Lra.lra.
  - apply (Rmult_le_reg_r (INR n)); [exact Hk|].
    unfold Rdiv. rewrite Rmult_assoc, Rinv_l; Lra.lra.
Qed.

Lemma scored_in_unit (p : RedditClusters.RawPost) :
  RedditClusters.inDomain p ->
  (0 <= RedditScraper.scoreDivisiveness (RedditClusters.scored p) <= 1)%R.
Proof.
  intros (Ha & Hn & Hs). unfold RedditScraper.scoreDivisiveness, RedditClusters.scored.
  cbn [RedditScraper.upvote_ratio RedditScraper.num_comments RedditScraper.score
       RedditScraper.orDefault].
  assert (Ha' : (0 <= RedditScraper.orDefault (RedditClusters.upvote_ratio p) 0.5 <= 1)%R).
  { destruct (RedditClusters.upvote_ratio p); cbn; [exact Ha|Lra.lra]. }
  assert (Hn' : (0 <= RedditScraper.orDefault (RedditClusters.num_comments p) 0)%R).
  { destruct (RedditClusters.num_comments p); cbn; [exact Hn|Lra.lra]. }
  pose proof (RedditScraperFacts.ratioDivisiveness_unit _ Ha').
  pose proof (RedditScraperFacts.engagementWeight_unit _ Hn').
  pose proof (RedditScraperFacts.scoreWeight_unit _ Hs).
  Lra.lra.
Qed.

Lemma cluster_members (posts : list RedditClusters.RawPost)
  (cluster : list (nat * RedditClusters.RawPost)) :
  In cluster (RedditClusters.clustersOf posts) ->
  cluster <> [] /\ forall p, In p (map snd cluster) -> In p posts.
Proof.
  intros Hc. split.
  - pose proof (clusters_shape posts) as Hs. rewrite Forall_forall in Hs.
    destruct (Hs cluster Hc) as (i & seed & rest & -> & _). discriminate.
  - intros p Hp. apply in_map_iff in Hp. destruct Hp as [e [<- He]].
    rewrite <- (proj2 (indexed_keys posts)). apply in_map.
    apply (Permutation_in _ (clustersOf_partition posts)).
    apply in_concat. now exists cluster.
Qed.

(** X25: [clusterPosts] puts every post into exactly one cluster: the
    members of all clusters together are the posts, each once; no cluster
    is empty; and the post counts of the topics add up to the number of
    posts. *)
Theorem clusterPosts_partition (posts : list RedditClusters.RawPost) :
  Permutation (List.concat (RedditClusters.clustersOf posts))
    (RedditClusters.indexed posts)
  /\ Permutation (map snd (List.concat (RedditClusters.clustersOf posts))) posts
  /\ Forall (fun cluster => cluster <> []) (RedditClusters.clustersOf posts)
  /\ list_sum (map RedditClusters.post_count (RedditClusters.clusterPosts posts))
     = List.length posts.
Proof.
  pose proof (clustersOf_partition posts) as Hp.
  split; [exact Hp|]. split; [|split].
  - rewrite <- (proj2 (indexed_keys posts)) at 2. now apply Permutation_map.
  - apply Forall_forall. intros c Hc. now apply (cluster_members posts).
  - unfold RedditClusters.clusterPosts. rewrite map_map.
    rewrite (map_ext _ (fun c : list (nat * RedditClusters.RawPost) => List.length c)).
    + rewrite <- length_concat, (Permutation_length Hp).
      rewrite <- (length_map snd), (proj2 (indexed_keys posts)). reflexivity.
    + intros c. cbn [RedditClusters.summarize RedditClusters.post_count].
      rewrite <- (Permutation_length (sortByScore_perm _)). apply length_map.
Qed.

(** X26: every cluster is a seed post followed by posts whose titles each
    overlap the title of the seed by more than 0.35. *)
Theorem clusters_gather_around_seed (posts : list RedditClusters.RawPost) :
  Forall
    (fun cluster =>
       exists i seed rest,
         cluster = (i, seed) :: rest
         /\ Forall (fun e =>
                      0.35 < RedditClusters.titleOverlap
                               (RedditClusters.title seed)
                               (RedditClusters.title (snd e))) rest)
    (RedditClusters.clustersOf posts).
Proof. apply clusters_shape. Qed.

(** X27: when every post has its approval ratio in [0,1], a non-negative
    comment count (either may be absent) and a non-negative score, every
    topic that [clusterPosts] returns has a divisiveness score in [0,1],
    a non-negative comment total and at least one post. *)
Theorem clusterPosts_in_range (posts : list RedditClusters.RawPost)
  (t : RedditClusters.Topic) :
  Forall RedditClusters.inDomain posts ->
  In t (RedditClusters.clusterPosts posts) ->
  (0 <= RedditClusters.divisiveness_score t <= 1)%R
  /\ (0 <= RedditClusters.total_comments t)%R
  /\ (1 <= RedditClusters.post_count t)%nat.
Proof.
  intros Hdom Ht. unfold RedditClusters.clusterPosts in Ht.
  apply in_map_iff in Ht. destruct Ht as [cluster [<- Hc]].
  destruct (cluster_members posts cluster Hc) as [Hne Hin].
  rewrite Forall_forall in Hdom.
  assert (Hlen : (1 <= List.length (map snd cluster))%nat).
  { rewrite length_map. destruct cluster; [contradiction|cbn; lia]. }
  cbn [RedditClusters.summarize RedditClusters.divisiveness_score
       RedditClusters.total_comments RedditClusters.post_count].
  split; [|split].
  - apply average_bounds; [exact Hlen|].
    pose proof (fold_sum_bounds
                  (fun p => RedditScraper.scoreDivisiveness (RedditClusters.scored p))
                  0 1 (map snd cluster)) as Hb.
    specialize (Hb (fun p Hp => scored_in_unit p (Hdom p (Hin p Hp))) 0%R).
    Lra.lra.
  - assert (Hnn : forall l acc,
               (forall p, In p l -> In p posts) -> (0 <= acc)%R ->
               (0 <= fold_left
                       (fun s p =>
                          s + RedditScraper.orDefault (RedditClusters.num_comments p) 0)%R
                       l acc)%R).
    { induction l as [|x l IH]; intros acc Hl Hacc; cbn [fold_left]; [exact Hacc|].
      apply IH; [intros; apply Hl; now right|].
      destruct (Hdom x (Hl x (or_introl eq_refl))) as (_ & Hn & _).
      destruct (RedditClusters.num_comments x); cbn; Lra.lra. }
    apply Hnn; [exact Hin|apply Rle_refl].
  - rewrite <- (Permutation_length (sortByScore_perm _)). exact Hlen.
Qed.

Lemma clusterPosts_in_range_witness :
  (0 <= RedditClusters.divisiveness_score
          (RedditClusters.summarize
             [RedditClusters.mkRawPost "Gun ban" "politics" None None 0%R]) <= 1)%R.
Proof.
  refine (proj1 (clusterPosts_in_range
                   [RedditClusters.mkRawPost "Gun ban" "politics" None None 0%R]
                   _ _ _)).
  - constructor; [|constructor]. unfold RedditClusters.inDomain. cbn.
    repeat split. apply Rle_refl.
  - left. reflexivity.
Defined.

(** X28: the title and the approval ratio of a topic are those of a post
    of its cluster that no other post of the cluster outscores. *)
Theorem topic_title_from_top_post (cluster : list RedditClusters.RawPost) :
  cluster <> [] ->
  exists r,
    In r cluster
    /\ RedditClusters.t_title (RedditClusters.summarize cluster)
       = Some (RedditClusters.title r)
    /\ RedditClusters.t_upvote_ratio (RedditClusters.summarize cluster)
       = RedditClusters.upvote_ratio r
    /\ forall p, In p cluster -> (RedditClusters.score p <= RedditClusters.score r)%R.
Proof.
  intros Hne. destruct (sortByScore_head cluster Hne) as (r & rest & E & Hin & Hmax).
  exists r. split; [exact Hin|].
  cbn [RedditClusters.summarize RedditClusters.t_title RedditClusters.t_upvote_ratio].
  rewrite E. cbn. repeat split. exact Hmax.
Qed.

Lemma topic_title_from_top_post_witness :
  exists r,
    In r [RedditClusters.mkRawPost "Gun ban" "politics" None None 0%R]
    /\ RedditClusters.t_title
         (RedditClusters.summarize
            [RedditClusters.mkRawPost "Gun ban" "politics" None None 0%R])
       = Some (RedditClusters.title r).
Proof.
  destruct (topic_title_from_top_post
              [RedditClusters.mkRawPost "Gun ban" "politics" None None 0%R]
              ltac:(discriminate)) as (r & Hin & Ht & _).
  exists r. split; [exact Hin|exact Ht].
Defined.

Lemma rss_post_score (subreddit t : string) :
  RedditScraper.scoreDivisiveness
    (RedditClusters.scored
       (RedditClusters.mkRawPost t subreddit (Some 0.5%R) (Some 0%R) 0%R))
  = 0.6%R.
Proof.
  unfold RedditScraper.scoreDivisiveness, RedditClusters.scored.
  cbn [RedditScraper.upvote_ratio RedditScraper.num_comments RedditScraper.score
       RedditScraper.orDefault RedditClusters.upvote_ratio
       RedditClusters.num_comments RedditClusters.score].
  rewrite (proj2 (RedditScraperFacts.ratioDivisiveness_peak 0.5) eq_refl).
  assert (He : RedditScraper.engagementWeight 0 = 0%R).
  { unfold RedditScraper.engagementWeight, RedditScraper.log10.
    replace (0 + 1)%R with 1%R by Lra.lra. rewrite ln_1.
    unfold Rdiv. rewrite !Rmult_0_l. apply Rmin_left. Lra.lra. }
  assert (Hs : RedditScraper.scoreWeight 0 = 0%R).
  { unfold RedditScraper.scoreWeight. destruct (Rlt_dec 100 0); Lra.lra. }
  rewrite He, Hs. Lra.lra.
Qed.

Lemma sortByScore_level (l : list RedditClusters.RawPost) :
  (forall p, In p l -> RedditClusters.score p = 0%R) ->
  RedditClusters.sortByScore l = l.
Proof.
  induction l as [|x l IH]; intros H; [reflexivity|].
  cbn [RedditClusters.sortByScore fold_right].
  fold (RedditClusters.sortByScore l).
  rewrite IH by (intros p Hp; apply H; now right).
  destruct l as [|y l]; [reflexivity|].
  cbn [RedditClusters.sortInsert].
  rewrite (H x), (H y) by (cbn; tauto).
  destruct (Rlt_dec 0 (0 - 0)) as [Hlt|_]; [exfalso; Lra.lra|reflexivity].
Qed.

(** X29: when every post comes from the feed fallback, of whatever
    subreddit, each post is scored 0.6, and every topic has the comment
    total 0 and the approval ratio 0.5 and takes its title from the seed
    of its cluster, the earliest of its posts. *)
Theorem rss_topics_titled_by_seed (posts : list RedditClusters.RawPost)
  (cluster : list (nat * RedditClusters.RawPost)) :
  (forall p, In p posts ->
     exists subreddit itemTitles,
       In p (RedditClusters.fetchSubredditRss subreddit itemTitles)) ->
  In cluster (RedditClusters.clustersOf posts) ->
  let topic := RedditClusters.summarize (map snd cluster) in
  (forall p, In p (map snd cluster) ->
     RedditScraper.scoreDivisiveness (RedditClusters.scored p) = 0.6%R)
  /\ RedditClusters.total_comments topic = 0%R
  /\ RedditClusters.t_upvote_ratio topic = Some 0.5%R
  /\ RedditClusters.t_title topic
     = option_map (fun e => RedditClusters.title (snd e)) (hd_error cluster)
  /\ In topic (RedditClusters.clusterPosts posts).
Proof.
  intros Hfeed Hc topic.
  destruct (cluster_members _ cluster Hc) as [Hne Hin].
  assert (Hrss : forall p, In p (map snd cluster) ->
             exists title subreddit,
               p = RedditClusters.mkRawPost title subreddit (Some 0.5%R) (Some 0%R) 0%R).
  { intros p Hp. destruct (Hfeed p (Hin p Hp)) as (subreddit & titles & Hp').
    unfold RedditClusters.fetchSubredditRss in Hp'.
    apply in_map_iff in Hp'. destruct Hp' as [title [<- _]].
    now exists title, subreddit. }
  assert (Hsort : RedditClusters.sortByScore (map snd cluster) = map snd cluster).
  { apply sortByScore_level. intros p Hp.
    destruct (Hrss p Hp) as (title & subreddit & ->). reflexivity. }
  split; [|split; [|split; [|split]]].
  - intros p Hp. destruct (Hrss p Hp) as (title & subreddit & ->).
    apply rss_post_score.
  - unfold topic. cbn [RedditClusters.summarize RedditClusters.total_comments].
    pose proof (fold_sum_bounds
                  (fun p => RedditScraper.orDefault (RedditClusters.num_comments p) 0%R)
                  0 0 (map snd cluster)) as Hb.
    assert (Hall : forall p, In p (map snd cluster) ->
               (0 <= RedditScraper.orDefault (RedditClusters.num_comments p) 0 <= 0)%R).
    { intros p Hp. destruct (Hrss p Hp) as (title & subreddit & ->). cbn. Lra.lra. }
    specialize (Hb Hall 0%R). Lra.lra.
  - unfold topic. cbn [RedditClusters.summarize RedditClusters.t_upvote_ratio].
    rewrite Hsort. destruct cluster as [|[i seed] rest]; [contradiction|].
    cbn [map snd hd_error].
    destruct (Hrss seed (or_introl eq_refl)) as (title & subreddit & ->). reflexivity.
  - unfold topic. cbn [RedditClusters.summarize RedditClusters.t_title].
    rewrite Hsort. destruct cluster as [|[i seed] rest]; reflexivity.
  - unfold topic, RedditClusters.clusterPosts.
    apply in_map_iff. now exists cluster.
Qed.

Lemma rss_topics_titled_by_seed_witness :
  RedditClusters.t_title
    (RedditClusters.summarize
       (RedditClusters.fetchSubredditRss "politics" ["Gun ban"%string]))
  = Some "Gun ban"%string.
Proof.
  refine (proj1 (proj2 (proj2 (proj2
            (rss_topics_titled_by_seed
               (RedditClusters.fetchSubredditRss "politics" ["Gun ban"%string])
               [(0%nat, RedditClusters.mkRawPost "Gun ban" "politics"
                          (Some 0.5%R) (Some 0%R) 0%R)]
               _ _))))).
  - intros p Hp. exists "politics"%string, ["Gun ban"%string]. exact Hp.
  - left. reflexivity.
Defined.
